(** * wgeasy-api: the request, cache and collection core, embedded in Rocq

    The development follows the TypeScript sources.

    - [Js]: the ECMAScript built-ins the code relies on.
    - [Client], [ClientCollection]: src/models.
    - [Exceptions]: src/exceptions/WgEasyExceptions.ts.
    - [Net], [HttpClient]: src/utils/HttpClient.ts, over a network that
      answers the successive calls of [fetch] and a clock.
    - [Validator], [ClientRepository]: src/utils/Validator.ts and
      src/repositories/ClientRepository.ts.
    - [EventEmitter]: src/utils/EventEmitter.ts.
    - [Spec], [TransportSpec], [RepositorySpec], [NotifierSpec]: the
      vocabulary of the properties; [Sample]: concrete worlds.
    - Then the lemmas, and the theorems C1 to C10 on the specification.

    Conventions of the model.  Strings are sequences of code units below
    256, the first 256 characters of Unicode; case mapping and white space
    are those of that range, where both work character by character.
    Numbers that the code uses as integers are [Z]; where the code can
    produce a non-finite number, or reads a number from a text, the result
    is a [Js.Number], rounded as a double is.  Asynchronous methods are
    functions on an explicit state that return a value or the exception
    thrown; time is a clock that [fetch] and [setTimeout] advance.  Response
    bodies are read at the TypeScript type of the call.  The calls to the
    logger are left out: nothing depends on them. *)

From Stdlib Require Import ZArith List String Ascii Bool Lia Arith DecimalString.
Import ListNotations.
Local Open Scope Z_scope.
Local Open Scope list_scope.

(* ================================================================== *)
(** * ECMAScript built-ins *)
(* ================================================================== *)

Module Js.

(** ** Numbers: integers together with the non-finite values *)

Inductive Number : Type :=
| Num (z : Z)
| PosInfinity
| NegInfinity
| NaN.

(** [a / b] followed by [Math.ceil], for integral [a] and [b]. *)
Definition ceil_div (a b : Z) : Number :=
  if b =? 0 then
    if a =? 0 then NaN else if 0 <? a then PosInfinity else NegInfinity
  else Num (- ((- a) / b)).

(** [x < y] where [x] is finite. *)
Definition lt (x : Z) (y : Number) : bool :=
  match y with
  | Num z => x <? z
  | PosInfinity => true
  | NegInfinity => false
  | NaN => false
  end.

(** ** Dates: a time value in milliseconds, or an invalid date *)

Definition Date : Type := option Z.

Definition Date_lt (a b : Date) : bool :=
  match a, b with
  | Some x, Some y => x <? y
  | _, _ => false
  end.

Definition Date_gt (a b : Date) : bool := Date_lt b a.

(** What the host provides: [new Date(text).getTime()]. *)
Class Runtime : Type := { Date_parse : string -> Date }.

(** ** Strings *)

(** [c.toLowerCase()] for one code unit below 256.  The capital letters
    of that range are A to Z and, in its upper half, the letters from
    capital A grave (192) to capital thorn (222) without the
    multiplication sign (215); the small letter stands 32 places further. *)
Definition lower_char (c : ascii) : ascii :=
  let n := nat_of_ascii c in
  if ((65 <=? n) && (n <=? 90)
      || (192 <=? n) && (n <=? 214)
      || (216 <=? n) && (n <=? 222))%nat
  then ascii_of_nat (n + 32) else c.

Fixpoint toLowerCase (s : string) : string :=
  match s with
  | EmptyString => EmptyString
  | String c s' => String (lower_char c) (toLowerCase s')
  end.

(** [s.startsWith(q)] *)
Fixpoint startsWith (s q : string) {struct q} : bool :=
  match q, s with
  | EmptyString, _ => true
  | String _ _, EmptyString => false
  | String a q', String b s' => Ascii.eqb a b && startsWith s' q'
  end.

(** [s.includes(q)] *)
Fixpoint includes (s q : string) : bool :=
  startsWith s q
  || match s with
     | EmptyString => false
     | String _ s' => includes s' q
     end.

(** A string is falsy exactly when it is empty. *)
Definition truthy (s : string) : bool :=
  match s with EmptyString => false | String _ _ => true end.

(** White space and line terminators below 256: TAB, LF, VT, FF, CR,
    SPACE and the no-break space (160). *)
Definition is_space (c : ascii) : bool :=
  let n := nat_of_ascii c in
  ((9 <=? n) && (n <=? 13) || (n =? 32) || (n =? 160))%nat.

Fixpoint trimStart (s : string) : string :=
  match s with
  | EmptyString => EmptyString
  | String c s' => if is_space c then trimStart s' else s
  end.

Fixpoint trimEnd (s : string) : string :=
  match s with
  | EmptyString => EmptyString
  | String c s' =>
      match trimEnd s' with
      | EmptyString => if is_space c then EmptyString else String c EmptyString
      | r => String c r
      end
  end.

Definition trim (s : string) : string := trimEnd (trimStart s).

(** [s.split(sep)] for a separator of one character: never empty. *)
Fixpoint split (sep : ascii) (s : string) : list string :=
  match s with
  | EmptyString => [EmptyString]
  | String c s' =>
      if Ascii.eqb c sep then EmptyString :: split sep s'
      else match split sep s' with
           | p :: ps => String c p :: ps
           | [] => [String c EmptyString]
           end
  end.

(** [parts.join(sep)] *)
Fixpoint join (sep : string) (parts : list string) : string :=
  match parts with
  | [] => EmptyString
  | [p] => p
  | p :: ps => (p ++ sep ++ join sep ps)%string
  end.

(** Template-literal rendering of an integer. *)
Definition String_of_Z (z : Z) : string := NilEmpty.string_of_int (Z.to_int z).

(** Value of a digit in [parseInt], letters counting from ten. *)
Definition digit_value (c : ascii) : option Z :=
  let n := Z.of_nat (nat_of_ascii c) in
  if (48 <=? n) && (n <=? 57) then Some (n - 48)
  else if (97 <=? n) && (n <=? 122) then Some (n - 87)
  else if (65 <=? n) && (n <=? 90) then Some (n - 55)
  else None.

(** The longest prefix of digits of the radix; [None] when it is empty. *)
Fixpoint parse_digits (radix : Z) (s : string) (acc : Z) (seen : bool)
  : option Z :=
  let stop := if seen then Some acc else None in
  match s with
  | EmptyString => stop
  | String c s' =>
      match digit_value c with
      | Some d =>
          if d <? radix then parse_digits radix s' (acc * radix + d) true
          else stop
      | None => stop
      end
  end.

(** The double nearest to the integer [z], ties going to the even
    mantissa: [z] itself below 2^53, a multiple of the power of two that
    leaves 53 bits beyond, an infinity from 2^1024 on. *)
Definition to_double (z : Z) : Number :=
  let a := Z.abs z in
  if a <? 2 ^ 53 then Num z
  else
    let e := Z.log2 a - 52 in
    let q := a / 2 ^ e in
    let r := a mod 2 ^ e in
    let half := 2 ^ (e - 1) in
    let m := if r <? half then q
             else if half <? r then q + 1
             else if Z.even q then q else q + 1 in
    let v := m * 2 ^ e in
    if 2 ^ 1024 <=? v then (if 0 <? z then PosInfinity else NegInfinity)
    else Num (Z.sgn z * v).

(** [parseInt(s)] without a radix argument: the digits are read exactly
    and the integer is then made a Number. *)
Definition parseInt (s : string) : Number :=
  let s1 := trimStart s in
  let '(sign, s2) :=
    match s1 with
    | String c r =>
        if Ascii.eqb c "-"%char then (-1, r)
        else if Ascii.eqb c "+"%char then (1, r)
        else (1, s1)
    | EmptyString => (1, s1)
    end in
  let '(radix, s3) :=
    match s2 with
    | String c (String x r) =>
        if Ascii.eqb c "0"%char && (Ascii.eqb x "x"%char || Ascii.eqb x "X"%char)
        then (16, r) else (10, s2)
    | _ => (10, s2)
    end in
  match parse_digits radix s3 0 false with
  | Some v => to_double (sign * v)
  | None => NaN
  end.

(** ** Arrays *)

(** [l.filter(callback)] when the callback reads the clock: the call for
    the element at position [i] sees the time [clock (k + i)]. *)
Fixpoint filter_at {A : Type} (callback : Z -> A -> bool) (clock : nat -> Z)
         (k : nat) (l : list A) : list A :=
  match l with
  | [] => []
  | x :: l' =>
      if callback (clock k) x then x :: filter_at callback clock (S k) l'
      else filter_at callback clock (S k) l'
  end.

(** Relative index of [Array.prototype.slice]. *)
Definition rel_index (len i : Z) : Z :=
  if i <? 0 then Z.max (len + i) 0 else Z.min i len.

(** [l.slice(start, end)] *)
Definition slice {A : Type} (l : list A) (start end_ : Z) : list A :=
  let len := Z.of_nat (List.length l) in
  let k := rel_index len start in
  let final := rel_index len end_ in
  firstn (Z.to_nat (final - k)) (skipn (Z.to_nat k) l).

(** [l.find(p)] *)
Definition find {A : Type} (p : A -> bool) (l : list A) : option A :=
  List.find p l.

(** ** Map: insertion-ordered, one entry per key *)

Module Map.
Section WithValues.
Context {V : Type}.

Definition t : Type := list (string * V).

Definition empty : t := [].

(** [m.set(k, v)]: an existing key keeps its position. *)
Fixpoint set (k : string) (v : V) (m : t) : t :=
  match m with
  | [] => [(k, v)]
  | (k', v') :: m' =>
      if String.eqb k k' then (k, v) :: m' else (k', v') :: set k v m'
  end.

Fixpoint get (k : string) (m : t) : option V :=
  match m with
  | [] => None
  | (k', v') :: m' => if String.eqb k k' then Some v' else get k m'
  end.

Definition has (k : string) (m : t) : bool :=
  match get k m with Some _ => true | None => false end.

(** [new Map(entries)] *)
Definition of_entries (es : list (string * V)) : t :=
  fold_left (fun m e => set (fst e) (snd e) m) es empty.

Definition keys (m : t) : list string := map fst m.
Definition values (m : t) : list V := map snd m.
Definition size (m : t) : Z := Z.of_nat (List.length m).
End WithValues.
Arguments t : clear implicits.
End Map.

End Js.

(* ================================================================== *)
(** * src/types *)
(* ================================================================== *)

Module IClientData.
Record t : Type := mk {
  id : string;
  name : string;
  enabled : bool;
  address : string;
  publicKey : string;
  createdAt : string;
  updatedAt : string;
  downloadableConfig : bool;
  persistentKeepalive : string;
  latestHandshakeAt : option string;
  transferRx : Z;
  transferTx : Z
}.
End IClientData.

Module IClientFilter.
Record t : Type := mk {
  enabled : option bool;
  nameContains : option string;
  createdAfter : option Js.Date;
  createdBefore : option Js.Date;
  hasRecentHandshake : option bool;
  minTransferRx : option Z;
  minTransferTx : option Z
}.

(** The filter object with no key set. *)
Definition none : t := mk None None None None None None None.
End IClientFilter.

Module IPaginationOptions.
Record t : Type := mk { page : Z; limit : Z }.
End IPaginationOptions.

Module IPaginatedResult.
Record t (A : Type) : Type := mk {
  items : list A;
  total : Z;
  page : Z;
  limit : Z;
  totalPages : Js.Number;
  hasNext : bool;
  hasPrev : bool
}.
Arguments mk {A}.
Arguments items {A}.
Arguments total {A}.
Arguments page {A}.
Arguments limit {A}.
Arguments totalPages {A}.
Arguments hasNext {A}.
Arguments hasPrev {A}.
End IPaginatedResult.

(* ================================================================== *)
(** * src/models/Client.ts *)
(* ================================================================== *)

Module Client.
Record t : Type := mk {
  id : string;
  name : string;
  enabled : bool;
  address : string;
  publicKey : string;
  createdAt : Js.Date;
  updatedAt : Js.Date;
  downloadableConfig : bool;
  persistentKeepalive : string;
  latestHandshakeAt : option Js.Date;
  transferRx : Z;
  transferTx : Z
}.

(** [new Client(data)] *)
Definition new {runtime : Js.Runtime} (data : IClientData.t) : t :=
  {| id := IClientData.id data;
     name := IClientData.name data;
     enabled := IClientData.enabled data;
     address := IClientData.address data;
     publicKey := IClientData.publicKey data;
     createdAt := Js.Date_parse (IClientData.createdAt data);
     updatedAt := Js.Date_parse (IClientData.updatedAt data);
     downloadableConfig := IClientData.downloadableConfig data;
     persistentKeepalive := IClientData.persistentKeepalive data;
     latestHandshakeAt :=
       match IClientData.latestHandshakeAt data with
       | Some s => if Js.truthy s then Some (Js.Date_parse s) else None
       | None => None
       end;
     transferRx := IClientData.transferRx data;
     transferTx := IClientData.transferTx data |}.

(** [get isOnline], with [now] the value of [Date.now()]. *)
Definition isOnline (now : Z) (c : t) : bool :=
  match latestHandshakeAt c with
  | None => false
  | Some h =>
      let threeMinutesAgo : Js.Date := Some (now - 3 * 60 * 1000) in
      Js.Date_gt h threeMinutesAgo
  end.

Definition totalTransfer (c : t) : Z := transferRx c + transferTx c.
End Client.

(* ================================================================== *)
(** * src/models/ClientCollection.ts *)
(* ================================================================== *)

Module ClientCollection.
Record t : Type := mk { clients : Js.Map.t Client.t }.

(** [new ClientCollection(clients)] *)
Definition new (cs : list Client.t) : t :=
  mk (Js.Map.of_entries (map (fun c => (Client.id c, c)) cs)).

Definition fromRawData {runtime : Js.Runtime} (data : list IClientData.t) : t :=
  new (map Client.new data).

Definition size (c : t) : Z := Js.Map.size (clients c).
Definition isEmpty (c : t) : bool := size c =? 0.
Definition toArray (c : t) : list Client.t := Js.Map.values (clients c).
Definition get (id : string) (c : t) : option Client.t := Js.Map.get id (clients c).
Definition has (id : string) (c : t) : bool := Js.Map.has id (clients c).

(** [filter(predicate)] for a predicate that does not read the clock. *)
Definition filter (predicate : Client.t -> bool) (c : t) : t :=
  new (List.filter predicate (toArray c)).




Definition paginate (options : IPaginationOptions.t) (c : t)
  : IPaginatedResult.t Client.t :=
  let page := IPaginationOptions.page options in
  let limit := IPaginationOptions.limit options in
  let total := size c in
  let totalPages := Js.ceil_div total limit in
  let offset := (page - 1) * limit in
  let items := Js.slice (toArray c) offset (offset + limit) in
  {| IPaginatedResult.items := items;
     IPaginatedResult.total := total;
     IPaginatedResult.page := page;
     IPaginatedResult.limit := limit;
     IPaginatedResult.totalPages := totalPages;
     IPaginatedResult.hasNext := Js.lt page totalPages;
     IPaginatedResult.hasPrev := 1 <? page |}.

Definition findByName (name : string) (c : t) : option Client.t :=
  Js.find (fun c => String.eqb (Js.toLowerCase (Client.name c)) (Js.toLowerCase name))
          (toArray c).


End ClientCollection.

(* ================================================================== *)
(** * src/exceptions/WgEasyExceptions.ts *)
(* ================================================================== *)

Module Exceptions.

(** The values the code throws.  [NativeError] stands for the errors of the
    host ([TypeError] of a failed fetch, [SyntaxError] of [JSON.parse], the
    [AbortError] of an aborted fetch, a plain [Error]); the others are the
    classes of the file, with the fields their constructors receive. *)
#[warnings="-register-all"]
Inductive JsError : Type :=
| NativeError (name message : string)
| UnauthorizedException
| ClientNotFoundException (clientId : string)
| NetworkException (message : string) (originalError : option JsError)
| TimeoutException (timeoutMs : Z)
| ValidationException (field message value : string)
| ServerException (message : string) (statusCode : Z)
| RateLimitException (retryAfter : Js.Number).

(** [error.name]: the class name for the exceptions of the library. *)
Definition name (e : JsError) : string :=
  match e with
  | NativeError n _ => n
  | UnauthorizedException => "UnauthorizedException"
  | ClientNotFoundException _ => "ClientNotFoundException"
  | NetworkException _ _ => "NetworkException"
  | TimeoutException _ => "TimeoutException"
  | ValidationException _ _ _ => "ValidationException"
  | ServerException _ _ => "ServerException"
  | RateLimitException _ => "RateLimitException"
  end.

(** [error.message] *)
Definition message (e : JsError) : string :=
  match e with
  | NativeError _ m => m
  | UnauthorizedException => "Unauthorized access"
  | ClientNotFoundException i => "Client with ID '" ++ i ++ "' not found"
  | NetworkException m _ => m
  | TimeoutException t => "Request timed out after " ++ Js.String_of_Z t ++ "ms"
  | ValidationException f m _ => "Validation error for '" ++ f ++ "': " ++ m
  | ServerException m _ => m
  | RateLimitException _ => "Rate limit exceeded"
  end%string.

Definition Error (message : string) : JsError := NativeError "Error" message.

(** [e instanceof UnauthorizedException] *)
Definition is_UnauthorizedException (e : JsError) : bool :=
  match e with UnauthorizedException => true | _ => false end.

(** [e instanceof RateLimitException] *)
Definition is_RateLimitException (e : JsError) : bool :=
  match e with RateLimitException _ => true | _ => false end.

End Exceptions.

(* ================================================================== *)
(** * Computations that read and write a state and may throw *)
(* ================================================================== *)

Inductive Outcome (A : Type) : Type :=
| Return (a : A)
| Throw (e : Exceptions.JsError).
Arguments Return {A}.
Arguments Throw {A}.

Definition M (S A : Type) : Type := S -> Outcome A * S.

Definition ret {S A : Type} (a : A) : M S A := fun s => (Return a, s).

Definition throw {S A : Type} (e : Exceptions.JsError) : M S A :=
  fun s => (Throw e, s).

Definition bind {S A B : Type} (m : M S A) (k : A -> M S B) : M S B :=
  fun s =>
    match m s with
    | (Return a, s') => k a s'
    | (Throw e, s') => (Throw e, s')
    end.

(** [try { m } catch (e) { handler e }] *)
Definition try_catch {S A : Type} (m : M S A)
           (handler : Exceptions.JsError -> M S A) : M S A :=
  fun s =>
    match m s with
    | (Return a, s') => (Return a, s')
    | (Throw e, s') => handler e s'
    end.

Definition get_state {S : Type} : M S S := fun s => (Return s, s).
Definition modify {S : Type} (f : S -> S) : M S unit := fun s => (Return tt, f s).

(** Run a computation on a component of the state. *)
Definition zoom {S S' A : Type} (proj : S -> S') (inj : S' -> S -> S)
           (m : M S' A) : M S A :=
  fun s => let '(o, s') := m (proj s) in (o, inj s' s).

Declare Scope m_scope.
Delimit Scope m_scope with m.
Notation "x <- c1 ;; c2" := (bind c1 (fun x => c2))
  (at level 61, c1 at next level, right associativity) : m_scope.
Notation "c1 ;;; c2" := (bind c1 (fun _ => c2))
  (at level 61, right associativity) : m_scope.

(* ================================================================== *)
(** * The network and the clock, as seen through [fetch] and [setTimeout] *)
(* ================================================================== *)

Module Net.
Import Exceptions.

Record Response : Type := mkResponse {
  status : Z;
  statusText : string;
  set_cookie : option string;      (** [headers.get('set-cookie')] *)
  retry_after : option string;     (** [headers.get('retry-after')] *)
  content_type : option string;    (** [headers.get('content-type')] *)
  text : Outcome string            (** what [response.text()] settles to *)
}.

(** [response.ok] *)
Definition ok (r : Response) : bool := (200 <=? status r) && (status r <=? 299).

(** One exchange with the remote service: after [latency] milliseconds the
    promise of [fetch] settles, unless it was aborted before. *)
Record Exchange : Type := mkExchange {
  latency : Z;
  settles : Outcome Response
}.

Inductive Event : Type :=
| Fetch (method url : string) (headers : Js.Map.t string) (body : option string)
| Delay (ms : Z).

(** The clock, the answers the service will give to the successive calls,
    the number of calls made so far and what happened, oldest first. *)
Record t : Type := mk {
  now : Z;
  server : nat -> Exchange;
  fetched : nat;
  trace : list Event
}.

Definition AbortError : JsError :=
  NativeError "AbortError" "This operation was aborted".

(** [fetch(url, {method, headers, body, signal})] raced against
    [setTimeout(() => controller.abort(), timeout)]: the call is aborted
    when the exchange takes longer than the timeout. *)
Definition fetch (timeout : Z) (method url : string)
           (headers : Js.Map.t string) (body : option string)
  : M t Response :=
  fun n =>
    let ex := server n (fetched n) in
    let aborted := timeout <? latency ex in
    let elapsed := if aborted then timeout else latency ex in
    let n' := {| now := now n + Z.max 0 elapsed;
                 server := server n;
                 fetched := S (fetched n);
                 trace := trace n ++ [Fetch method url headers body] |} in
    (if aborted then Throw AbortError else settles ex, n').

(** [new Promise(resolve => setTimeout(resolve, ms))] *)
Definition delay (ms : Z) : M t unit :=
  fun n =>
    (Return tt,
     {| now := now n + Z.max 0 ms;
        server := server n;
        fetched := fetched n;
        trace := trace n ++ [Delay ms] |}).

(** The caller lets [ms] milliseconds pass. *)
Definition elapse (ms : Z) (n : t) : t :=
  {| now := now n + Z.max 0 ms;
     server := server n;
     fetched := fetched n;
     trace := trace n |}.

(** The waits between attempts recorded in a trace, oldest first. *)
Definition delays (tr : list Event) : list Z :=
  flat_map (fun e => match e with Delay ms => [ms] | Fetch _ _ _ _ => [] end) tr.

(** The number of calls recorded in a trace. *)
Definition fetches (tr : list Event) : nat :=
  List.length (List.filter (fun e => match e with Fetch _ _ _ _ => true | Delay _ => false end) tr).
End Net.

(* ================================================================== *)
(** * src/utils/HttpClient.ts *)
(* ================================================================== *)

Module IHttpOptions.
Inductive Method : Type := GET | POST | PUT | DELETE | PATCH.

Definition Method_name (m : Method) : string :=
  match m with
  | GET => "GET" | POST => "POST" | PUT => "PUT"
  | DELETE => "DELETE" | PATCH => "PATCH"
  end.

(** A body is an object with string fields, in the order they were written. *)
Record t : Type := mk {
  method : Method;
  path : string;
  body : option (Js.Map.t string);
  headers : option (Js.Map.t string)
}.
End IHttpOptions.

Module IApiResponse.
Record t (T : Type) : Type := mk {
  success : bool;
  data : option T;
  statusCode : Z
}.
Arguments mk {T}.
Arguments success {T}.
Arguments data {T}.
Arguments statusCode {T}.
End IApiResponse.

(** What the host provides for a payload type [T]: [JSON.parse] of a text
    ([None] when it raises [SyntaxError]) and the reading of a plain text as
    a [T] that the type cast of the source stands for. *)
Class Payload (T : Type) : Type := {
  JSON_parse : string -> option T;
  text_as : string -> T
}.

(** [JSON.stringify] of the body of a request. *)
Class Stringify : Type := { JSON_stringify : Js.Map.t string -> string }.

Module HttpClient.
Import Exceptions.
Local Open Scope m_scope.

Record t : Type := mk {
  baseUrl : string;
  timeout : Z;
  retryAttempts : Z;
  retryDelay : Z;
  cookies : Js.Map.t string
}.

(** [baseUrl.replace(/\/$/, '')] *)
Fixpoint strip_trailing_slash (s : string) : string :=
  match s with
  | EmptyString => EmptyString
  | String c EmptyString => if Ascii.eqb c "/"%char then EmptyString else s
  | String c s' => String c (strip_trailing_slash s')
  end.

(** [new HttpClient(baseUrl, timeout, retryAttempts, retryDelay)]; the
    defaults of the constructor are 30000, 3 and 1000. *)
Definition new (baseUrl : string) (timeout retryAttempts retryDelay : Z) : t :=
  mk (strip_trailing_slash baseUrl) timeout retryAttempts retryDelay Js.Map.empty.

(** The state the methods work on: the client and the network. *)
Definition State : Type := (t * Net.t)%type.

Definition with_cookies (jar : Js.Map.t string) (h : t) : t :=
  mk (baseUrl h) (timeout h) (retryAttempts h) (retryDelay h) jar.

Definition buildHeaders (h : t) (customHeaders : option (Js.Map.t string))
  : Js.Map.t string :=
  let base := [("Content-Type", "application/json");
               ("Accept", "application/json")]%string in
  let headers :=
    match customHeaders with
    | Some custom => fold_left (fun m e => Js.Map.set (fst e) (snd e) m) custom base
    | None => base
    end in
  if 0 <? Js.Map.size (cookies h) then
    Js.Map.set "Cookie"
      (Js.join "; " (map (fun e => (fst e ++ "=" ++ snd e)%string) (cookies h)))
      headers
  else headers.

Definition parseCookies (setCookieHeader : option string) (h : t) : t :=
  match setCookieHeader with
  | None => h
  | Some header =>
      if negb (Js.truthy header) then h
      else
        with_cookies
          (fold_left
             (fun jar cookie =>
                let cookiePair := hd EmptyString (Js.split ";" cookie) in
                match Js.split "=" (Js.trim cookiePair) with
                | name :: value :: _ =>
                    if Js.truthy name && Js.truthy value
                    then Js.Map.set name value jar
                    else jar
                | _ => jar
                end)
             (Js.split "," header) (cookies h))
          h
  end.

Definition lift_net {A : Type} (m : M Net.t A) : M State A :=
  zoom snd (fun n s => (fst s, n)) m.

Definition lift_outcome {A : Type} (o : Outcome A) : M State A :=
  fun s => (o, s).

Definition or_default (x : option string) (d : string) : string :=
  match x with
  | Some s => if Js.truthy s then s else d
  | None => d
  end.

Definition header_includes (x : option string) (q : string) : bool :=
  match x with
  | Some s => Js.includes s q
  | None => false
  end.

Section Request.
Context {T : Type} {payload : Payload T} {stringify : Stringify}.

(** Reading the body according to the content type. *)
Definition read_data (response : Net.Response) : Outcome (option T) :=
  if header_includes (Net.content_type response) "application/json" then
    match Net.text response with
    | Return text =>
        if Js.truthy text then
          match JSON_parse text with
          | Some v => Return (Some v)
          | None => Throw (NativeError "SyntaxError" "Unexpected token in JSON")
          end
        else Return None
    | Throw e => Throw e
    end
  else if header_includes (Net.content_type response) "text/plain" then
    match Net.text response with
    | Return text => Return (Some (text_as text))
    | Throw e => Throw e
    end
  else Return None.

(** What the [try] block makes of a response, once the cookies are
    stored: the status checks, then the body. *)
Definition interpret (response : Net.Response) : Outcome (IApiResponse.t T) :=
  if Net.status response =? 401 then Throw UnauthorizedException
  else if Net.status response =? 429 then
    let retryAfter := Js.parseInt (or_default (Net.retry_after response) "60") in
    Throw (RateLimitException retryAfter)
  else if 500 <=? Net.status response then
    Throw (ServerException ("Server error: " ++ Net.statusText response)
                           (Net.status response))
  else
    match read_data response with
    | Return data =>
        Return (IApiResponse.mk (Net.ok response) data (Net.status response))
    | Throw e => Throw e
    end.

(** The body of the [try] block of one attempt. *)
Definition attempt_once (options : IHttpOptions.t) : M State (IApiResponse.t T) :=
  h <- (fun s => (Return (fst s), s)) ;;
  let url := (baseUrl h ++ IHttpOptions.path options)%string in
  response <- lift_net
    (Net.fetch (timeout h)
       (IHttpOptions.Method_name (IHttpOptions.method options)) url
       (buildHeaders h (IHttpOptions.headers options))
       (option_map JSON_stringify (IHttpOptions.body options))) ;;
  modify (fun s => (parseCookies (Net.set_cookie response) (fst s), snd s)) ;;;
  lift_outcome (interpret response).

(** The [catch] block: [Some e] is what it throws; [None] lets the loop
    go on, after the wait when attempts remain. *)
Definition on_error (attempt : Z) (error : JsError) : M State (option JsError) :=
  h <- (fun s => (Return (fst s), s)) ;;
  if is_UnauthorizedException error || is_RateLimitException error then
    ret (Some error)
  else if String.eqb (Exceptions.name error) "AbortError" then
    ret (Some (TimeoutException (timeout h)))
  else if attempt <? retryAttempts h then
    lift_net (Net.delay (retryDelay h * attempt)) ;;; ret None
  else ret None.

(** The [for] loop from [attempt] on; [remaining] counts the iterations
    that [attempt <= retryAttempts] still allows. *)
Fixpoint request_loop (remaining : nat) (attempt : Z) (lastError : option JsError)
         (options : IHttpOptions.t) : M State (IApiResponse.t T) :=
  match remaining with
  | O =>
      h <- (fun s => (Return (fst s), s)) ;;
      throw (NetworkException
               ("Request failed after " ++ Js.String_of_Z (retryAttempts h)
                ++ " attempts")%string
               lastError)
  | S remaining' =>
      try_catch (attempt_once options)
        (fun error =>
           rethrown <- on_error attempt error ;;
           match rethrown with
           | Some e => throw e
           | None => request_loop remaining' (attempt + 1) (Some error) options
           end)
  end.

Definition request (options : IHttpOptions.t) : M State (IApiResponse.t T) :=
  h <- (fun s => (Return (fst s), s)) ;;
  request_loop (Z.to_nat (retryAttempts h)) 1 None options.

Definition get (path : string) : M State (IApiResponse.t T) :=
  request (IHttpOptions.mk IHttpOptions.GET path None None).

Definition post (path : string) (body : option (Js.Map.t string))
  : M State (IApiResponse.t T) :=
  request (IHttpOptions.mk IHttpOptions.POST path body None).

Definition put (path : string) (body : option (Js.Map.t string))
  : M State (IApiResponse.t T) :=
  request (IHttpOptions.mk IHttpOptions.PUT path body None).

Definition delete (path : string) : M State (IApiResponse.t T) :=
  request (IHttpOptions.mk IHttpOptions.DELETE path None None).
End Request.
End HttpClient.

(* ================================================================== *)
(** * Regular expressions, as far as the validators use them *)
(* ================================================================== *)

Module RegExp.
Inductive t : Type :=
| Void
| Eps
| Class (p : ascii -> bool)
| Seq (a b : t)
| Alt (a b : t)
| Star (a : t).

Fixpoint nullable (r : t) : bool :=
  match r with
  | Void => false
  | Eps => true
  | Class _ => false
  | Seq a b => nullable a && nullable b
  | Alt a b => nullable a || nullable b
  | Star _ => true
  end.

(** What is left to match after reading [c]. *)
Fixpoint deriv (c : ascii) (r : t) : t :=
  match r with
  | Void => Void
  | Eps => Void
  | Class p => if p c then Eps else Void
  | Seq a b =>
      if nullable a then Alt (Seq (deriv c a) b) (deriv c b)
      else Seq (deriv c a) b
  | Alt a b => Alt (deriv c a) (deriv c b)
  | Star a => Seq (deriv c a) (Star a)
  end.

(** [/^r$/.test(s)] *)
Fixpoint test (r : t) (s : string) : bool :=
  match s with
  | EmptyString => nullable r
  | String c s' => test (deriv c r) s'
  end.

Definition Plus (a : t) : t := Seq a (Star a).
Definition Opt (a : t) : t := Alt Eps a.
Definition Char (c : ascii) : t := Class (Ascii.eqb c).

Fixpoint Times (k : nat) (a : t) : t :=
  match k with
  | O => Eps
  | S k' => Seq a (Times k' a)
  end.

(** [a{lo,lo+extra}] *)
Fixpoint Between (lo extra : nat) (a : t) : t :=
  match extra with
  | O => Times lo a
  | S extra' => Seq (Between lo extra' a) (Opt a)
  end.

Definition in_range (lo hi : nat) (c : ascii) : bool :=
  let n := nat_of_ascii c in ((lo <=? n) && (n <=? hi))%nat.

(** [\d] *)
Definition digit (c : ascii) : bool := in_range 48 57 c.
Definition lower (c : ascii) : bool := in_range 97 122 c.
Definition upper (c : ascii) : bool := in_range 65 90 c.
(** [[0-9a-fA-F]] *)
Definition hex (c : ascii) : bool :=
  digit c || in_range 97 102 c || in_range 65 70 c.
End RegExp.

(* ================================================================== *)
(** * src/utils/Validator.ts *)
(* ================================================================== *)

Module IClientCreateDTO.
Record t : Type := mk { name : string }.
End IClientCreateDTO.

Module Validator.
Import Exceptions RegExp.

(** [/^[a-zA-Z0-9_-]+$/] *)
Definition NAME_REGEX : RegExp.t :=
  Plus (Class (fun c => lower c || upper c || digit c
                        || Ascii.eqb c "_"%char || Ascii.eqb c "-"%char)).
Definition MIN_NAME_LENGTH : Z := 1.
Definition MAX_NAME_LENGTH : Z := 64.

Definition validateClientName (name : string) : Outcome unit :=
  if negb (Js.truthy name) then
    Throw (ValidationException "name" "Name is required and must be a string" name)
  else
    let trimmedName := Js.trim name in
    if Z.of_nat (String.length trimmedName) <? MIN_NAME_LENGTH then
      Throw (ValidationException "name"
               ("Name must be at least " ++ Js.String_of_Z MIN_NAME_LENGTH
                ++ " character(s)")%string name)
    else if MAX_NAME_LENGTH <? Z.of_nat (String.length trimmedName) then
      Throw (ValidationException "name"
               ("Name must not exceed " ++ Js.String_of_Z MAX_NAME_LENGTH
                ++ " characters")%string name)
    else if negb (RegExp.test NAME_REGEX trimmedName) then
      Throw (ValidationException "name"
               "Name can only contain alphanumeric characters, underscores, and hyphens"
               name)
    else Return tt.

Definition validateClientCreateDTO (dto : IClientCreateDTO.t) : Outcome unit :=
  validateClientName (IClientCreateDTO.name dto).

(** [/^(\d{1,3}\.){3}\d{1,3}(\/\d{1,2})?$/] *)
Definition ipv4Regex : RegExp.t :=
  Seq (Times 3 (Seq (Between 1 2 (Class digit)) (Char ".")))
      (Seq (Between 1 2 (Class digit))
           (Opt (Seq (Char "/") (Between 1 1 (Class digit))))).

(** [/^([0-9a-fA-F]{1,4}:){7}[0-9a-fA-F]{1,4}(\/\d{1,3})?$/] *)
Definition ipv6Regex : RegExp.t :=
  Seq (Times 7 (Seq (Between 1 3 (Class hex)) (Char ":")))
      (Seq (Between 1 3 (Class hex))
           (Opt (Seq (Char "/") (Between 1 2 (Class digit))))).

Definition validateIPAddress (address : string) : Outcome unit :=
  if negb (RegExp.test ipv4Regex address) && negb (RegExp.test ipv6Regex address)
  then Throw (ValidationException "address" "Invalid IP address format" address)
  else Return tt.

Definition validateId (id : string) : Outcome unit :=
  if negb (Js.truthy id) then
    Throw (ValidationException "id" "ID is required and must be a string" id)
  else if Z.of_nat (String.length (Js.trim id)) =? 0 then
    Throw (ValidationException "id" "ID cannot be empty" id)
  else Return tt.
End Validator.

(* ================================================================== *)
(** * src/repositories/ClientRepository.ts *)
(* ================================================================== *)

(** What the host provides to the repository: the clock format, the
    serialisation of request bodies and the decoding of the three kinds of
    response body ([IClientData[]], [IClientData], and a body nobody reads). *)
Class Host : Type := {
  host_runtime :: Js.Runtime;
  host_stringify :: Stringify;
  host_clients :: Payload (list IClientData.t);
  host_client :: Payload IClientData.t;
  host_unknown :: Payload unit
}.

Module ClientRepository.
Import Exceptions.
Local Open Scope m_scope.

Record t : Type := mk {
  httpClient : HttpClient.t;
  cache : option ClientCollection.t;
  cacheTimestamp : option Z;
  cacheTTL : Z
}.

(** [new ClientRepository(httpClient, cacheTTL)]; the default TTL is 5000. *)
Definition new (httpClient : HttpClient.t) (cacheTTL : Z) : t :=
  mk httpClient None None cacheTTL.

(** The state the methods work on: the repository, which holds its
    transport (shared with no other service here), and the network. *)
Definition State : Type := (t * Net.t)%type.

Definition with_httpClient (h : HttpClient.t) (r : t) : t :=
  mk h (cache r) (cacheTimestamp r) (cacheTTL r).

(** A call of a method of [this.httpClient]. *)
Definition http {A : Type} (m : M HttpClient.State A) : M State A :=
  zoom (fun s => (httpClient (fst s), snd s))
       (fun hs s => (with_httpClient (fst hs) (fst s), snd hs))
       m.

Definition validate (o : Outcome unit) : M State unit := fun s => (o, s).

Definition isCacheValid (now : Z) (r : t) : bool :=
  match cache r, cacheTimestamp r with
  | Some _, Some timestamp => now - timestamp <? cacheTTL r
  | _, _ => false
  end.

Definition invalidateCache : M State unit :=
  modify (fun s => (mk (httpClient (fst s)) None None (cacheTTL (fst s)), snd s)).

Section Methods.
Context {host : Host}.

(** [return this.cache!] is reached with a valid cache only, and a valid
    cache is present; [response.success && response.data] is the data of
    a successful response. *)
Definition findAll (forceRefresh : bool) : M State ClientCollection.t :=
  s <- get_state ;;
  match (if negb forceRefresh && isCacheValid (Net.now (snd s)) (fst s)
         then cache (fst s) else None) with
  | Some cached => ret cached
  | None =>
      response <- http (HttpClient.get "/api/wireguard/client") ;;
      match (if IApiResponse.success response
             then IApiResponse.data response else None) with
      | Some data =>
          let fresh := ClientCollection.fromRawData data in
          modify (fun s => (mk (httpClient (fst s)) (Some fresh)
                               (Some (Net.now (snd s))) (cacheTTL (fst s)),
                            snd s)) ;;;
          ret fresh
      | None => ret (ClientCollection.new [])
      end
  end.

Definition findById (id : string) : M State Client.t :=
  validate (Validator.validateId id) ;;;
  clients <- findAll false ;;
  match ClientCollection.get id clients with
  | Some client => ret client
  | None => throw (ClientNotFoundException id)
  end.

Definition findByName (name : string) : M State (option Client.t) :=
  clients <- findAll false ;;
  ret (ClientCollection.findByName name clients).

Definition create (dto : IClientCreateDTO.t) : M State Client.t :=
  validate (Validator.validateClientCreateDTO dto) ;;;
  response <- http (HttpClient.post (T := IClientData.t) "/api/wireguard/client"
                      (Some [("name", IClientCreateDTO.name dto)]%string)) ;;
  invalidateCache ;;;
  if negb (IApiResponse.success response) then
    throw (Error "Failed to create client")
  else
    clients <- findAll true ;;
    let clientsArray := ClientCollection.toArray clients in
    match Js.find
            (fun c => String.eqb (Js.toLowerCase (Client.name c))
                                 (Js.toLowerCase (IClientCreateDTO.name dto)))
            (rev clientsArray) with
    | Some client => ret client
    | None =>
        throw (Error ("Failed to find created client with name: "
                      ++ IClientCreateDTO.name dto)%string)
    end.

Definition delete (id : string) : M State unit :=
  validate (Validator.validateId id) ;;;
  http (HttpClient.delete (T := unit) ("/api/wireguard/client/" ++ id)%string) ;;;
  invalidateCache.

Definition updateName (id name : string) : M State Client.t :=
  validate (Validator.validateId id) ;;;
  validate (Validator.validateClientName name) ;;;
  response <- http (HttpClient.put (T := IClientData.t)
                      ("/api/wireguard/client/" ++ id ++ "/name")%string
                      (Some [("name", name)]%string)) ;;
  invalidateCache ;;;
  match (if IApiResponse.success response
         then IApiResponse.data response else None) with
  | Some data => ret (Client.new data)
  | None => findById id
  end.

Definition updateAddress (id address : string) : M State Client.t :=
  validate (Validator.validateId id) ;;;
  validate (Validator.validateIPAddress address) ;;;
  response <- http (HttpClient.put (T := IClientData.t)
                      ("/api/wireguard/client/" ++ id ++ "/address")%string
                      (Some [("address", address)]%string)) ;;
  invalidateCache ;;;
  match (if IApiResponse.success response
         then IApiResponse.data response else None) with
  | Some data => ret (Client.new data)
  | None => findById id
  end.

Definition enable (id : string) : M State Client.t :=
  validate (Validator.validateId id) ;;;
  response <- http (HttpClient.post (T := IClientData.t)
                      ("/api/wireguard/client/" ++ id ++ "/enable")%string
                      None) ;;
  invalidateCache ;;;
  match (if IApiResponse.success response
         then IApiResponse.data response else None) with
  | Some data => ret (Client.new data)
  | None => findById id
  end.

Definition disable (id : string) : M State Client.t :=
  validate (Validator.validateId id) ;;;
  response <- http (HttpClient.post (T := IClientData.t)
                      ("/api/wireguard/client/" ++ id ++ "/disable")%string
                      None) ;;
  invalidateCache ;;;
  match (if IApiResponse.success response
         then IApiResponse.data response else None) with
  | Some data => ret (Client.new data)
  | None => findById id
  end.
End Methods.
End ClientRepository.

(* ================================================================== *)
(** * src/utils/EventEmitter.ts *)
(* ================================================================== *)

Module EventType.
Inductive t : Type :=
| client_created
| client_deleted
| client_updated
| client_enabled
| client_disabled
| auth_login
| auth_logout
| error.

(** The string literal of the kind. *)
Definition name (e : t) : string :=
  match e with
  | client_created => "client:created"
  | client_deleted => "client:deleted"
  | client_updated => "client:updated"
  | client_enabled => "client:enabled"
  | client_disabled => "client:disabled"
  | auth_login => "auth:login"
  | auth_logout => "auth:logout"
  | error => "error"
  end.
End EventType.

(** A function value, known by its identity. *)
Definition HandlerRef : Type := nat.

(** Set objects of handlers.  The entries are kept in insertion order and a
    deleted entry leaves a hole, so that an iteration in progress sees the
    deletions and the additions made meanwhile. *)
Module HandlerSet.
Definition t : Type := list (option HandlerRef).

Definition empty : t := [].

Definition is_entry (x : HandlerRef) (e : option HandlerRef) : bool :=
  match e with
  | Some y => Nat.eqb x y
  | None => false
  end.

Definition has (x : HandlerRef) (s : t) : bool := existsb (is_entry x) s.

Definition add (x : HandlerRef) (s : t) : t :=
  if has x s then s else s ++ [Some x].

Definition delete (x : HandlerRef) (s : t) : t :=
  map (fun e => if is_entry x e then None else e) s.

(** The members, in insertion order. *)
Definition values (s : t) : list HandlerRef :=
  flat_map (fun e => match e with Some x => [x] | None => [] end) s.
End HandlerSet.

Module EventEmitter.
Import Exceptions.

(** [private handlers: Map<EventType, Set<EventHandler>>] *)
Record t : Type := mk { handlers : Js.Map.t HandlerSet.t }.

Definition new : t := mk Js.Map.empty.

Definition on (event : EventType.t) (handler : HandlerRef) (em : t) : t :=
  let key := EventType.name event in
  let m := if Js.Map.has key (handlers em) then handlers em
           else Js.Map.set key HandlerSet.empty (handlers em) in
  match Js.Map.get key m with
  | Some eventHandlers => mk (Js.Map.set key (HandlerSet.add handler eventHandlers) m)
  | None => mk m
  end.

Definition off (event : EventType.t) (handler : HandlerRef) (em : t) : t :=
  let key := EventType.name event in
  match Js.Map.get key (handlers em) with
  | Some eventHandlers =>
      mk (Js.Map.set key (HandlerSet.delete handler eventHandlers) (handlers em))
  | None => em
  end.

(** A call a handler makes on the emitter while it runs.  Handlers are
    arbitrary functions: besides what they do to the state of their
    observers they may register and deregister handlers; a handler that
    emits in turn is not modelled. *)
Inductive Call : Type :=
| On (event : EventType.t) (handler : HandlerRef)
| Off (event : EventType.t) (handler : HandlerRef).

Definition perform (c : Call) (em : t) : t :=
  match c with
  | On event handler => on event handler em
  | Off event handler => off event handler em
  end.

(** One run of a handler: the calls it makes on the emitter, in order, and
    the exception it ends with, if any. *)
Record Run : Type := mkRun {
  calls : list Call;
  thrown : option JsError
}.

Section WithHandlers.
(** The payload of the events, the state of the observers, and the code
    of the handlers: what the function behind a reference does with a
    payload. *)
Context {Data Observers : Type}.
Variable code : HandlerRef -> Data -> Observers -> Observers * Run.

Record World : Type := mkWorld {
  emitter : t;
  observers : Observers;
  invoked : list HandlerRef;                (** handlers run, oldest first *)
  console : list (string * JsError)         (** [console.error] lines *)
}.

(** [try { handler(data) } catch (error) { console.error(..., error) }] *)
Definition invoke (event : EventType.t) (data : Data) (handler : HandlerRef)
           (w : World) : World :=
  let '(obs, run) := code handler data (observers w) in
  {| emitter := fold_left (fun em c => perform c em) (calls run) (emitter w);
     observers := obs;
     invoked := invoked w ++ [handler];
     console :=
       match thrown run with
       | Some error =>
           console w
           ++ [(("Error in event handler for " ++ EventType.name event ++ ":")%string,
                error)]
       | None => console w
       end |}.

(** [eventHandlers.forEach(...)] from entry [index] on: the entries are
    read again at every step.  [None] when the steps allowed run out. *)
Fixpoint forEach_from (steps : nat) (index : nat) (event : EventType.t)
         (data : Data) (w : World) : option World :=
  match steps with
  | O => None
  | S steps' =>
      let entries :=
        match Js.Map.get (EventType.name event) (handlers (emitter w)) with
        | Some eventHandlers => eventHandlers
        | None => HandlerSet.empty
        end in
      match nth_error entries index with
      | None => Some w
      | Some None => forEach_from steps' (S index) event data w
      | Some (Some handler) =>
          forEach_from steps' (S index) event data (invoke event data handler w)
      end
  end.

Definition emit (steps : nat) (event : EventType.t) (data : Data) (w : World)
  : option (Outcome unit * World) :=
  match Js.Map.get (EventType.name event) (handlers (emitter w)) with
  | Some _ =>
      match forEach_from steps 0 event data w with
      | Some w' => Some (Return tt, w')
      | None => None
      end
  | None => Some (Return tt, w)
  end.

(** The handlers registered for a kind, in insertion order. *)
Definition registered (event : EventType.t) (em : t) : list HandlerRef :=
  match Js.Map.get (EventType.name event) (handlers em) with
  | Some eventHandlers => HandlerSet.values eventHandlers
  | None => []
  end.
End WithHandlers.

(** The wrapper that [once] registers under the reference [self]:
    [this.off(event, onceHandler); handler(data)]. *)
Definition onceHandler {Data Observers : Type} (event : EventType.t)
           (self : HandlerRef) (handler : Data -> Observers -> Observers * Run)
  : Data -> Observers -> Observers * Run :=
  fun data obs =>
    let '(obs', run) := handler data obs in
    (obs', mkRun (Off event self :: calls run) (thrown run)).

(** [removeAllListeners(event?)] *)
Definition removeAllListeners (event : option EventType.t) (em : t) : t :=
  match event with
  | Some e =>
      mk (List.filter (fun kv => negb (String.eqb (fst kv) (EventType.name e)))
                      (handlers em))
  | None => mk Js.Map.empty
  end.
End EventEmitter.

(* ================================================================== *)
(** * The properties of the collection engine, in the words of the spec *)
(* ================================================================== *)

Module Spec.

(** White space among the first 256 characters: TAB, LF, VT, FF, CR,
    the space and the no-break space. *)
Definition white (c : ascii) : Prop :=
  In (nat_of_ascii c) [9; 10; 11; 12; 13; 32; 160]%nat.

(** A text of white space only. *)
Inductive all_white : string -> Prop :=
| all_white_nil : all_white EmptyString
| all_white_cons (c : ascii) (s : string) :
    white c -> all_white s -> all_white (String c s).


(** The code of a capital letter among the first 256 characters: A to Z,
    and the accented capitals 192 to 222 but for the sign at 215. *)
Definition capital (n : nat) : Prop :=
  (65 <= n <= 90 \/ 192 <= n <= 214 \/ 216 <= n <= 222)%nat.

(** [small] is the small letter of the capital [big]. *)
Definition small_of (big small : ascii) : Prop :=
  capital (nat_of_ascii big)
  /\ nat_of_ascii small = (nat_of_ascii big + 32)%nat.

(** The same letter, whatever its case. *)
Definition same_letter (a b : ascii) : Prop :=
  a = b \/ small_of a b \/ small_of b a.

(** The same text up to the case of its letters: the same length, and
    letter for letter the same. *)
Inductive eq_ignore_case : string -> string -> Prop :=
| eq_ignore_case_nil : eq_ignore_case EmptyString EmptyString
| eq_ignore_case_cons (a b : ascii) (s t : string) :
    same_letter a b -> eq_ignore_case s t ->
    eq_ignore_case (String a s) (String b t).


(** both dates are valid and [a] is strictly earlier than [b] *)
Definition earlier (a b : Js.Date) : Prop :=
  exists x y, a = Some x /\ b = Some y /\ x < y.

(** the last handshake lies within the three minutes before [now] *)
Definition online (now : Z) (c : Client.t) : Prop :=
  exists h, Client.latestHandshakeAt c = Some (Some h)
            /\ now - 180000 < h.



(** Representation invariant of the backing map: one entry per id, filed
    under the id of its record. *)
Definition well_keyed (m : Js.Map.t Client.t) : Prop :=
  NoDup (Js.Map.keys m) /\ Forall (fun e => fst e = Client.id (snd e)) m.

(** [ceil(S / L)]: the least number of pages of [L] items that hold [S]. *)
Definition is_ceil (S L T : Z) : Prop := (T - 1) * L < S <= T * L.

(** The items of page [p] when the collection is cut in pages of [L]. *)
Definition page_of (c : ClientCollection.t) (L p : Z) : list Client.t :=
  IPaginatedResult.items
    (ClientCollection.paginate (IPaginationOptions.mk p L) c).


(** [p] is no page of the collection cut in pages of [L]: it comes
    before the first page or after the last. *)
Definition out_of_range (c : ClientCollection.t) (L p : Z) : Prop :=
  p < 1 \/ exists T, is_ceil (ClientCollection.size c) L T /\ T < p.

(** Every page out of range is empty. *)
Definition empty_out_of_range (c : ClientCollection.t) (L : Z) : Prop :=
  forall p, out_of_range c L p -> page_of c L p = [].

End Spec.

(* ================================================================== *)
(** * The vocabulary of the transport laws *)
(* ================================================================== *)

Module TransportSpec.
Import Exceptions.

(** The errors the [catch] block neither rethrows nor turns into a
    timeout: everything but 401, 429 and an aborted fetch. *)
Definition retriable (e : JsError) : bool :=
  negb (is_UnauthorizedException e
        || is_RateLimitException e
        || String.eqb (Exceptions.name e) "AbortError").





(** The readonly part of a client is the same in [h] and [h']. *)
Definition same_config (h h' : HttpClient.t) : Prop :=
  HttpClient.baseUrl h' = HttpClient.baseUrl h
  /\ HttpClient.timeout h' = HttpClient.timeout h
  /\ HttpClient.retryAttempts h' = HttpClient.retryAttempts h
  /\ HttpClient.retryDelay h' = HttpClient.retryDelay h.

(** The exchange is over before the abort timer fires. *)
Definition in_time (h : HttpClient.t) (ex : Net.Exchange) : Prop :=
  Net.latency ex <= HttpClient.timeout h.

(** The exchange outlasts the timeout. *)
Definition exceeds_timeout (h : HttpClient.t) (ex : Net.Exchange) : Prop :=
  HttpClient.timeout h < Net.latency ex.

(** The exchange answers, in time, with the response [r]. *)
Definition answers (h : HttpClient.t) (ex : Net.Exchange) (r : Net.Response) : Prop :=
  in_time h ex /\ Net.settles ex = Return r.

Section WithPayload.
Context {T : Type} {payload : Payload T}.

(** The attempt that the exchange answers fails with [e]: the fetch is
    rejected (a network failure), or the response is one the [try] block
    throws on (a 5xx status, a body that cannot be read). *)
Definition attempt_throws (h : HttpClient.t) (ex : Net.Exchange) (e : JsError) : Prop :=
  in_time h ex
  /\ (Net.settles ex = Throw e
      \/ exists r, Net.settles ex = Return r
                   /\ HttpClient.interpret (T := T) r = Throw e).

(** The attempt that the exchange answers succeeds with the payload [a]. *)
Definition attempt_returns (h : HttpClient.t) (ex : Net.Exchange)
           (a : IApiResponse.t T) : Prop :=
  exists r, answers h ex r /\ HttpClient.interpret r = Return a.
End WithPayload.



(** The network after the fetch of one attempt. *)
Definition after_fetch {stringify : Stringify} (h : HttpClient.t) (options : IHttpOptions.t)
           (n : Net.t) : Net.t :=
  snd (Net.fetch (HttpClient.timeout h)
         (IHttpOptions.Method_name (IHttpOptions.method options))
         (HttpClient.baseUrl h ++ IHttpOptions.path options)%string
         (HttpClient.buildHeaders h (IHttpOptions.headers options))
         (option_map JSON_stringify (IHttpOptions.body options)) n).

(** C4 as the spec words it: after an attempt that timed out, with attempts
    left in the budget, the transport goes on to the next attempt. *)
Definition proceeds_after_timeout {T : Type} {payload : Payload T}
           {stringify : Stringify}
           (h : HttpClient.t) (options : IHttpOptions.t) (n : Net.t) : Prop :=
  exceeds_timeout h (Net.server n (Net.fetched n)) ->
  1 < HttpClient.retryAttempts h ->
  let '(_, (_, n')) := HttpClient.request (T := T) options (h, n) in
  (Net.fetched n + 2 <= Net.fetched n')%nat.
End TransportSpec.

(* ================================================================== *)
(** * The vocabulary of the repository laws *)
(* ================================================================== *)

Module RepositorySpec.
Import ClientRepository.
Local Open Scope m_scope.

Definition clients_path : string := "/api/wireguard/client".

(** The repository right after [invalidateCache], with transport [h1]. *)
Definition invalidated (h1 : HttpClient.t) (r : t) : t :=
  mk h1 None None (cacheTTL r).

Section WithHost.
Context {host : Host}.

(** The records of a response that is a success and carries a body. *)
Definition usable {T : Type} (response : IApiResponse.t T) : option T :=
  if IApiResponse.success response then IApiResponse.data response else None.

(** The snapshot [findAll] hands out for a response of the service. *)
Definition snapshot_of (response : IApiResponse.t (list IClientData.t))
  : ClientCollection.t :=
  match usable response with
  | Some data => ClientCollection.fromRawData data
  | None => ClientCollection.new []
  end.

(** What rename, address change, enable and disable do once the remote
    call has returned and the cache is invalidated. *)
Definition update_tail (id : string) (response : IApiResponse.t IClientData.t)
  : M State Client.t :=
  match usable response with
  | Some data => ret (Client.new data)
  | None => findById id
  end.

(** The last record of [l] whose name is [name] up to letter case. *)
Definition newest_named (name : string) (l : list Client.t) (c : Client.t) : Prop :=
  exists older newer,
    l = older ++ c :: newer
    /\ Spec.eq_ignore_case (Client.name c) name
    /\ forall x, In x newer -> ~ Spec.eq_ignore_case (Client.name x) name.

Definition none_named (name : string) (l : list Client.t) : Prop :=
  forall x, In x l -> ~ Spec.eq_ignore_case (Client.name x) name.

(** What create does once the remote call has returned and the cache
    is invalidated. *)
Definition create_tail (dto : IClientCreateDTO.t)
           (response : IApiResponse.t IClientData.t) : M State Client.t :=
  if negb (IApiResponse.success response) then
    throw (Exceptions.Error "Failed to create client")
  else
    clients <- findAll true ;;
    match Js.find
            (fun c => String.eqb (Js.toLowerCase (Client.name c))
                                 (Js.toLowerCase (IClientCreateDTO.name dto)))
            (rev (ClientCollection.toArray clients)) with
    | Some client => ret client
    | None =>
        throw (Exceptions.Error
                 ("Failed to find created client with name: "
                  ++ IClientCreateDTO.name dto)%string)
    end.

(** The state holds no snapshot, or the snapshot of a GET that was
    issued after the remote call of the mutation had left the transport
    and the network in [(h1, n1)], stamped with the time it completed. *)
Definition fresh_after (h1 : HttpClient.t) (n1 : Net.t) (st' : State) : Prop :=
  (cache (fst st') = None /\ cacheTimestamp (fst st') = None)
  \/ exists g data,
       HttpClient.get clients_path (h1, n1)
       = (Return g, (httpClient (fst st'), snd st'))
       /\ usable g = Some data
       /\ cache (fst st') = Some (ClientCollection.fromRawData data)
       /\ cacheTimestamp (fst st') = Some (Net.now (snd st')).

(** However long the caller waits, the next [findAll()] takes the path
    of a forced refresh, or returns the snapshot fetched after the
    mutation and leaves the state alone. *)
Definition next_read_is_fresh (h1 : HttpClient.t) (n1 : Net.t) (st' : State)
  : Prop :=
  forall dt : Z,
    let st := (fst st', Net.elapse dt (snd st')) in
    findAll false st = findAll true st
    \/ exists g data,
         HttpClient.get clients_path (h1, n1)
         = (Return g, (httpClient (fst st'), snd st'))
         /\ usable g = Some data
         /\ findAll false st = (Return (ClientCollection.fromRawData data), st).

(** C1 as the spec words it: the read that follows the mutation goes to
    the remote service. *)
Definition next_read_refetches (st' : State) : Prop :=
  (Net.fetched (snd st') < Net.fetched (snd (snd (findAll false st'))))%nat.
End WithHost.
End RepositorySpec.

(* ================================================================== *)
(** * The vocabulary of the notifier law *)
(* ================================================================== *)

Module NotifierSpec.
Import EventEmitter.

(** A run that leaves the handlers of [event] alone, except that the
    handler may deregister itself: it registers nothing for [event] and
    deregisters no other handler of [event]. *)
Definition keeps_to_itself (event : EventType.t) (self : HandlerRef) (run : Run)
  : Prop :=
  Forall
    (fun c =>
       match c with
       | On event' _ => event' <> event
       | Off event' handler => event' = event -> handler = self
       end)
    (calls run).

(** The entries of the set of [event], in insertion order, a
    deregistered handler leaving a hole. *)
Definition entries (event : EventType.t) (em : t) : HandlerSet.t :=
  match Js.Map.get (EventType.name event) (handlers em) with
  | Some eventHandlers => eventHandlers
  | None => HandlerSet.empty
  end.

Section WithHandlers.
Context {Data Observers : Type}.
Variable code : HandlerRef -> Data -> Observers -> Observers * Run.

(** The world after [k] turns of an emission that started in [w]: turn
    [j] looks at entry [j] of the set as it is by then and invokes the
    handler it finds there, an exception being caught and logged. *)
Fixpoint turns (event : EventType.t) (data : Data) (w : World) (k : nat)
  : World :=
  match k with
  | O => w
  | S j =>
      let before := turns event data w j in
      match nth_error (entries event (emitter before)) j with
      | Some (Some handler) => invoke code event data handler before
      | _ => before
      end
  end.

(** Turn [j] finds the handler [h]. *)
Definition visits (event : EventType.t) (data : Data) (w : World)
           (j : nat) (h : HandlerRef) : Prop :=
  nth_error (entries event (emitter (turns event data w j))) j = Some (Some h).

(** At turn [k] no entry is left. *)
Definition ended (event : EventType.t) (data : Data) (w : World) (k : nat)
  : Prop :=
  nth_error (entries event (emitter (turns event data w k))) k = None.

(** What the handler [g] does when it runs at turn [j]. *)
Definition run_at (event : EventType.t) (data : Data) (w : World)
           (j : nat) (g : HandlerRef) : Run :=
  snd (code g data (observers (turns event data w j))).

(** The spec's fan-out: every handler of the list is invoked in turn,
    an exception being caught and logged. *)
Definition notify_all (event : EventType.t) (data : Data)
           (hs : list HandlerRef) (w : World) : World :=
  fold_left (fun w h => invoke code event data h w) hs w.

(** C9 as the spec words it: every handler registered for the kind when
    [emit] is called has been invoked when it returns. *)
Definition invokes_every_registered (steps : nat) (event : EventType.t)
           (data : Data) (w : World) : Prop :=
  match emit code steps event data w with
  | Some (_, w') =>
      forall h, In h (registered event (emitter w)) ->
                In h (skipn (List.length (invoked w)) (invoked w'))
  | None => False
  end.
End WithHandlers.
End NotifierSpec.

(* ================================================================== *)
(** * A host and a few worlds to run the model on *)
(* ================================================================== *)

Module Sample.
Definition quote : string := String (ascii_of_nat 34) EmptyString.

Definition stringify (o : Js.Map.t string) : string :=
  ("{" ++ Js.join ","
            (map (fun e => quote ++ fst e ++ quote ++ ":" ++ quote ++ snd e ++ quote) o)
       ++ "}")%string.

(** The record the service keeps for a peer called [name]. *)
Definition record (name : string) : IClientData.t :=
  {| IClientData.id := ("id-" ++ name)%string;
     IClientData.name := name;
     IClientData.enabled := true;
     IClientData.address := "10.8.0.2";
     IClientData.publicKey := ("pk-" ++ name)%string;
     IClientData.createdAt := "1700000000000";
     IClientData.updatedAt := "1700000000000";
     IClientData.downloadableConfig := true;
     IClientData.persistentKeepalive := "off";
     IClientData.latestHandshakeAt := None;
     IClientData.transferRx := 0;
     IClientData.transferTx := 0 |}.

(** Bodies are written as the names of the records, separated by commas:
    a stand-in for the JSON text of the service. *)
Definition parse_clients (text : string) : option (list IClientData.t) :=
  Some (map record (Js.split "," text)).

Definition parse_client (text : string) : option IClientData.t :=
  Some (record text).

Definition parse_time (text : string) : Js.Date :=
  match Js.parseInt text with
  | Js.Num z => Some z
  | _ => None
  end.

#[export] Instance runtime : Js.Runtime := {| Js.Date_parse := parse_time |}.
#[export] Instance to_json : Stringify := {| JSON_stringify := stringify |}.
#[export] Instance clients_payload : Payload (list IClientData.t) :=
  {| JSON_parse := parse_clients; text_as := fun text => map record (Js.split "," text) |}.
#[export] Instance client_payload : Payload IClientData.t :=
  {| JSON_parse := parse_client; text_as := record |}.
#[export] Instance unknown_payload : Payload unit :=
  {| JSON_parse := fun _ => Some tt; text_as := fun _ => tt |}.
#[export] Instance host : Host :=
  {| host_runtime := runtime;
     host_stringify := to_json;
     host_clients := clients_payload;
     host_client := client_payload;
     host_unknown := unknown_payload |}.

(** Responses *)
Definition json (status : Z) (body : string) : Net.Response :=
  {| Net.status := status;
     Net.statusText := "";
     Net.set_cookie := None;
     Net.retry_after := None;
     Net.content_type := Some "application/json; charset=utf-8"%string;
     Net.text := Return body |}.

Definition bare (status : Z) : Net.Response :=
  {| Net.status := status;
     Net.statusText := "";
     Net.set_cookie := None;
     Net.retry_after := None;
     Net.content_type := None;
     Net.text := Return EmptyString |}.


Definition quick (r : Net.Response) : Net.Exchange :=
  {| Net.latency := 20; Net.settles := Return r |}.

Definition slow (r : Net.Response) : Net.Exchange :=
  {| Net.latency := 40000; Net.settles := Return r |}.

Definition broken : Net.Exchange :=
  {| Net.latency := 5;
     Net.settles := Throw (Exceptions.NativeError "TypeError" "fetch failed") |}.

(** A service that gives the listed answers, then 503 for ever. *)
Definition network (script : list Net.Exchange) : Net.t :=
  {| Net.now := 0;
     Net.server := fun k => nth k script (quick (bare 503));
     Net.fetched := 0;
     Net.trace := [] |}.

Definition transport : HttpClient.t :=
  HttpClient.new "http://localhost:51821/" 30000 3 1000.

Definition repository : ClientRepository.t :=
  ClientRepository.new transport 5000.

Definition list_clients : IHttpOptions.t :=
  IHttpOptions.mk IHttpOptions.GET "/api/wireguard/client" None None.

(** Creating dev-1: the POST is acknowledged without a body, the GET that
    follows lists the new record. *)
Definition dev1 : IClientCreateDTO.t := IClientCreateDTO.mk "dev-1".

Definition creation : Net.t :=
  network [quick (json 200 EmptyString); quick (json 200 "alpha,dev-1")].

(** The first call outlasts the timeout; the service would answer the
    second one at once. *)
Definition sluggish : Net.t :=
  network [slow (json 200 "alpha"); quick (json 200 "alpha")].

(** The newest of two records that bear the name, up to letter case. *)
Definition homonyms : Net.t :=
  network [quick (json 200 EmptyString);
           quick (json 200 "alpha,dev-1,beta,DEV-1")].

(** A listing, a deletion acknowledged with 204, a listing. *)
Definition deletion : Net.t :=
  network [quick (json 200 "alpha,dev-1"); quick (bare 204);
           quick (json 200 "alpha")].

Definition missing : Net.t := network [quick (bare 404)].


(** Two failures, then an answer. *)
Definition flaky : Net.t :=
  network [broken; quick (bare 500); quick (json 200 "alpha")].

(** Handlers.  1 deregisters handler 2 of peer-created; 3 throws; 4 is a
    once-wrapper that deregisters itself; 6 registers handler 7 for
    peer-created; the others just return. *)
Definition quiet : unit -> unit -> unit * EventEmitter.Run :=
  fun _ obs => (obs, EventEmitter.mkRun [] None).

Definition handler_code (h : HandlerRef) : unit -> unit -> unit * EventEmitter.Run :=
  match h with
  | 1%nat => fun _ obs =>
      (obs, EventEmitter.mkRun
              [EventEmitter.Off EventType.client_created 2%nat] None)
  | 3%nat => fun _ obs =>
      (obs, EventEmitter.mkRun [] (Some (Exceptions.Error "observer failed")))
  | 4%nat => EventEmitter.onceHandler EventType.client_created 4%nat quiet
  | 6%nat => fun _ obs =>
      (obs, EventEmitter.mkRun
              [EventEmitter.On EventType.client_created 7%nat] None)
  | _ => quiet
  end.

Definition listening (hs : list HandlerRef) : EventEmitter.World :=
  {| EventEmitter.emitter :=
       fold_left (fun em h => EventEmitter.on EventType.client_created h em)
                 hs EventEmitter.new;
     EventEmitter.observers := tt;
     EventEmitter.invoked := [];
     EventEmitter.console := [] |}.

(** Records for the collection engine *)
Definition peer (name : string) (enabled : bool) (tx : Z) : Client.t :=
  {| Client.id := ("id-" ++ name)%string;
     Client.name := name;
     Client.enabled := enabled;
     Client.address := "10.8.0.2";
     Client.publicKey := ("pk-" ++ name)%string;
     Client.createdAt := Some 1700000000000;
     Client.updatedAt := Some 1700000000000;
     Client.downloadableConfig := true;
     Client.persistentKeepalive := "off";
     Client.latestHandshakeAt := None;
     Client.transferRx := 0;
     Client.transferTx := tx |}.

Definition peers : list Client.t :=
  [peer "alpha" true 10; peer "Bravo" false 0; peer "charlie" true 0;
   peer "delta" true 7; peer "echo" false 3].

(** Twenty-five records. *)
Definition crowd : list Client.t :=
  map (fun k => peer ("peer-" ++ Js.String_of_Z (Z.of_nat k))%string true 0)
      (seq 1 25).

(** Two 500 responses, then a listing. *)
Definition recovering : Net.t :=
  network [quick (bare 500); quick (bare 500); quick (json 200 "alpha")].

(** dev-1 is created, listed, deleted, and gone from the next listing. *)
Definition lifecycle : Net.t :=
  network [quick (json 200 EmptyString); quick (json 200 "alpha,dev-1");
           quick (bare 204); quick (json 200 "alpha")].

(** A record whose last handshake was at [handshake]. *)
Definition seen_at (handshake : Z) : Client.t :=
  {| Client.id := "id-seen";
     Client.name := "seen";
     Client.enabled := true;
     Client.address := "10.8.0.3";
     Client.publicKey := "pk-seen";
     Client.createdAt := Some 1700000000000;
     Client.updatedAt := Some 1700000000000;
     Client.downloadableConfig := true;
     Client.persistentKeepalive := "off";
     Client.latestHandshakeAt := Some (Some handshake);
     Client.transferRx := 0;
     Client.transferTx := 0 |}.




(** A text of one no-break space (160). *)
Definition nbsp : string := String (ascii_of_nat 160) EmptyString.
End Sample.
(* ================================================================== *)
(** * Second part: the rest of the library

    - [ClientRepositoryReads]: the queries of the repository that do not
      list ([getConfiguration], [getQrCode], [exists], [count]).
    - [JsArray], [ClientCollectionOps], [Statistics]: updates, order and
      statistics of the collection.
    - [JsNum], [ClientFormat], [Session], [Config]: durations, the session
      and the configuration.
    - [EventEmitterOps], [AuthService], [ConfigService]: [once], the
      authentication service and the configuration files.
    - [SurfaceSpec], [StoreSpec], [RegExpSpec], [SettingsSpec], [AuthSpec],
      [FileSpec]: the vocabulary of their properties; [Fixture], [Settings],
      [Lobby]: more sample worlds. *)
(* ================================================================== *)

From Stdlib Require Import Permutation Sorted.

(* ================================================================== *)
(** * src/repositories/ClientRepository.ts: the read-only queries *)
(* ================================================================== *)

(** What the queries for a configuration need of the host: the body of a
    configuration, which the code types as a string, and
    [QRCode.toString(text, {type: 'svg', ...})] of the qrcode package, which
    settles to the drawing or rejects. *)
Class QrHost : Type := {
  host_text :: Payload string;
  QRCode_toString : string -> Outcome string
}.

Module ClientRepositoryReads.
Import Exceptions ClientRepository.
Local Open Scope m_scope.

Section Methods.
Context {host : Host} {qr : QrHost}.

Definition getConfiguration (id : string) : M State string :=
  validate (Validator.validateId id) ;;;
  response <- http (HttpClient.get (T := string)
                      ("/api/wireguard/client/" ++ id ++ "/configuration")%string) ;;
  match (if IApiResponse.success response
         then IApiResponse.data response else None) with
  | Some data =>
      if Js.truthy data then ret data
      else throw (Error "Failed to get configuration")
  | None => throw (Error "Failed to get configuration")
  end.

Definition getQrCode (id : string) : M State string :=
  validate (Validator.validateId id) ;;;
  configuration <- getConfiguration id ;;
  try_catch (fun s => (QRCode_toString configuration, s))
            (fun _ => throw (Error "Failed to generate QR code")).

(** [exists] *)
Definition exists_ (id : string) : M State bool :=
  try_catch (findById id ;;; ret true) (fun _ => ret false).

Definition count : M State Z :=
  clients <- findAll false ;;
  ret (ClientCollection.size clients).
End Methods.
End ClientRepositoryReads.

(* ================================================================== *)
(** * src/models/ClientCollection.ts: updates, order and statistics *)
(* ================================================================== *)

(** Two more built-ins. *)
Module JsArray.
Section Sort.
Context {A : Type} (compareFn : A -> A -> Z).

(** [x], which stood before the sorted [l], takes its place in it. *)
Fixpoint insert (x : A) (l : list A) : list A :=
  match l with
  | [] => [x]
  | y :: l' => if compareFn x y <=? 0 then x :: l else y :: insert x l'
  end.

(** [l.sort(compareFn)].  For a comparator that orders the elements
    consistently the language fixes the result: the sorted arrangement
    in which elements that compare equal keep their order. *)
Definition sort (l : list A) : list A := fold_right insert [] l.
End Sort.

(** [m.delete(k)] *)
Fixpoint Map_delete {V : Type} (k : string) (m : Js.Map.t V) : Js.Map.t V :=
  match m with
  | [] => []
  | (k', v') :: m' =>
      if String.eqb k k' then m' else (k', v') :: Map_delete k m'
  end.

(** [new Map(m)] *)
Definition Map_copy {V : Type} (m : Js.Map.t V) : Js.Map.t V := Js.Map.of_entries m.

End JsArray.

Module Statistics.
Record t : Type := mk {
  total : Z;
  enabled : Z;
  disabled : Z;
  online : Z;
  offline : Z;
  totalTransferRx : Z;
  totalTransferTx : Z
}.
End Statistics.

Module ClientCollectionOps.
Import ClientCollection.

Definition add (client : Client.t) (c : t) : t :=
  let newClients := JsArray.Map_copy (clients c) in
  let newClients := Js.Map.set (Client.id client) client newClients in
  new (Js.Map.values newClients).

Definition remove (id : string) (c : t) : t :=
  let newClients := JsArray.Map_copy (clients c) in
  let newClients := JsArray.Map_delete id newClients in
  new (Js.Map.values newClients).

Definition sort (compareFn : Client.t -> Client.t -> Z) (c : t) : t :=
  new (JsArray.sort compareFn (toArray c)).

(** The default of [ascending] is false. *)
Definition sortByTransfer (ascending : bool) (c : t) : t :=
  sort (fun a b =>
          let result := Client.totalTransfer a - Client.totalTransfer b in
          if ascending then result else - result) c.

Definition getEnabled (c : t) : t := filter Client.enabled c.
Definition getDisabled (c : t) : t := filter (fun c => negb (Client.enabled c)) c.
Definition getOnline (now : Z) (c : t) : t := filter (Client.isOnline now) c.
Definition getOffline (now : Z) (c : t) : t :=
  filter (fun c => negb (Client.isOnline now c)) c.

(** [clock i] is what [Date.now()] gives in the [i]-th evaluation of
    [isOnline]: the pass that counts the records online comes first, the
    pass that counts them offline second. *)
Definition getStatistics (clock : nat -> Z) (c : t) : Statistics.t :=
  let clients := toArray c in
  {| Statistics.total := size c;
     Statistics.enabled :=
       Z.of_nat (List.length (List.filter Client.enabled clients));
     Statistics.disabled :=
       Z.of_nat (List.length (List.filter (fun c => negb (Client.enabled c)) clients));
     Statistics.online :=
       Z.of_nat (List.length (Js.filter_at Client.isOnline clock 0 clients));
     Statistics.offline :=
       Z.of_nat (List.length
                   (Js.filter_at (fun now c => negb (Client.isOnline now c))
                      clock (List.length clients) clients));
     Statistics.totalTransferRx :=
       fold_left (fun sum c => sum + Client.transferRx c) clients 0;
     Statistics.totalTransferTx :=
       fold_left (fun sum c => sum + Client.transferTx c) clients 0 |}.
End ClientCollectionOps.

(* ================================================================== *)
(** * src/utils/EventEmitter.ts: once *)
(* ================================================================== *)

Module EventEmitterOps.
Import EventEmitter.

(** [once(event, handler)] makes a new function, the wrapper, and
    registers it; [self] is the reference of the wrapper, whose code is
    [onceHandler event self handler]. *)
Definition once (event : EventType.t) (self : HandlerRef) (em : t) : t :=
  on event self em.

(** The entries of the set of a kind, deleted ones included: what an
    iteration over the set walks through. *)
Definition slots (event : EventType.t) (em : t) : nat :=
  match Js.Map.get (EventType.name event) (handlers em) with
  | Some eventHandlers => List.length eventHandlers
  | None => O
  end.
End EventEmitterOps.

(* ================================================================== *)
(** * Numbers and dates once more *)
(* ================================================================== *)

Module JsNum.
Import Js.

(** [x <= 0] and [x < 0]: false for NaN. *)
Definition le0 (x : Number) : bool :=
  match x with
  | Num z => z <=? 0
  | NegInfinity => true
  | PosInfinity | NaN => false
  end.

Definition lt0 (x : Number) : bool :=
  match x with
  | Num z => z <? 0
  | NegInfinity => true
  | PosInfinity | NaN => false
  end.

(** [x > 0] *)
Definition gt0 (x : Number) : bool :=
  match x with
  | Num z => 0 <? z
  | PosInfinity => true
  | NegInfinity | NaN => false
  end.

(** [Math.floor(x / d)] for a positive integer [d]. *)
Definition floor_div (x : Number) (d : Z) : Number :=
  match x with
  | Num z => Num (z / d)
  | other => other
  end.

(** [x % d]: the remainder has the sign of [x]. *)
Definition rem (x : Number) (d : Z) : Number :=
  match x with
  | Num z => Num (Z.rem z d)
  | _ => NaN
  end.

(** [`${x}`] *)
Definition toString (x : Number) : string :=
  match x with
  | Num z => String_of_Z z
  | PosInfinity => "Infinity"
  | NegInfinity => "-Infinity"
  | NaN => "NaN"
  end.

(** [a - b] for time values: NaN when a date is invalid. *)
Definition since (now : Z) (d : Date) : Number :=
  match d with
  | Some t => Num (now - t)
  | None => NaN
  end.

(** [parseInt(s, 10)] *)
Definition parseInt10 (s : string) : Number :=
  let s1 := trimStart s in
  let '(sign, s2) :=
    match s1 with
    | String "-"%char r => (-1, r)
    | String "+"%char r => (1, r)
    | _ => (1, s1)
    end in
  match parse_digits 10 s2 0 false with
  | Some v => to_double (sign * v)
  | None => NaN
  end.

(** [new Date(ms)]: a time value beyond 8.64e15 ms gives an invalid date. *)
Definition Date_of_time (ms : Z) : Date :=
  if Z.abs ms <=? 8640000000000000 then Some ms else None.
End JsNum.

(* ================================================================== *)
(** * src/models/Client.ts: ages and durations *)
(* ================================================================== *)

Module ClientFormat.
Local Open Scope string_scope.

Definition formatDuration (ms : Js.Number) : string :=
  let seconds := JsNum.floor_div ms 1000 in
  let minutes := JsNum.floor_div seconds 60 in
  let hours := JsNum.floor_div minutes 60 in
  let days := JsNum.floor_div hours 24 in
  if JsNum.gt0 days then
    JsNum.toString days ++ "d " ++ JsNum.toString (JsNum.rem hours 24) ++ "h"
  else if JsNum.gt0 hours then
    JsNum.toString hours ++ "h " ++ JsNum.toString (JsNum.rem minutes 60) ++ "m"
  else if JsNum.gt0 minutes then
    JsNum.toString minutes ++ "m " ++ JsNum.toString (JsNum.rem seconds 60) ++ "s"
  else JsNum.toString seconds ++ "s".

(** [get age], with [now] the value of [Date.now()]. *)
Definition age (now : Z) (c : Client.t) : Js.Number :=
  JsNum.since now (Client.createdAt c).

Definition ageFormatted (now : Z) (c : Client.t) : string :=
  formatDuration (age now c).

Definition lastSeenFormatted (now : Z) (c : Client.t) : option string :=
  match Client.latestHandshakeAt c with
  | None => None
  | Some handshake =>
      let diff := JsNum.since now handshake in
      Some (formatDuration diff ++ " ago")
  end.
End ClientFormat.

(* ================================================================== *)
(** * src/models/Session.ts *)
(* ================================================================== *)

Module ISessionData.
Record t : Type := mk { authenticated : bool; requiresPassword : bool }.
End ISessionData.

Module Session.
Record t : Type := mk {
  _authenticated : bool;
  _requiresPassword : bool;
  _authenticatedAt : option Js.Date;
  _expiresAt : option Js.Date
}.

(** [new Session(data)] at the time [now]; [new Date()] is a valid date. *)
Definition new (now : Z) (data : ISessionData.t) : t :=
  {| _authenticated := ISessionData.authenticated data;
     _requiresPassword := ISessionData.requiresPassword data;
     _authenticatedAt :=
       if ISessionData.authenticated data then Some (Some now) else None;
     _expiresAt := None |}.

(** [get authenticated]: the value, and the session after the read. *)
Definition authenticated (now : Z) (s : t) : bool * t :=
  let s' :=
    match _expiresAt s with
    | Some expiresAt =>
        if Js.Date_gt (Some now) expiresAt
        then {| _authenticated := false;
                _requiresPassword := _requiresPassword s;
                _authenticatedAt := None;
                _expiresAt := _expiresAt s |}
        else s
    | None => s
    end in
  (_authenticated s', s').

Definition requiresPassword (s : t) : bool := _requiresPassword s.
Definition authenticatedAt (s : t) : option Js.Date := _authenticatedAt s.
Definition expiresAt (s : t) : option Js.Date := _expiresAt s.

(** [expiresIn] is absent or a number of milliseconds; zero is falsy. *)
Definition setAuthenticated (now : Z) (authenticated : bool)
           (expiresIn : option Z) (s : t) : t :=
  {| _authenticated := authenticated;
     _requiresPassword := _requiresPassword s;
     _authenticatedAt := if authenticated then Some (Some now) else None;
     _expiresAt :=
       match expiresIn with
       | Some ms =>
           if authenticated && negb (ms =? 0)
           then Some (JsNum.Date_of_time (now + ms)) else None
       | None => None
       end |}.

Definition isExpired (now : Z) (s : t) : bool :=
  match _expiresAt s with
  | None => false
  | Some expiresAt => Js.Date_gt (Some now) expiresAt
  end.
End Session.

(* ================================================================== *)
(** * src/config/Config.ts *)
(* ================================================================== *)

Module IWgEasyConfig.
Record t : Type := mk {
  baseUrl : string;
  password : option string;
  timeout : option Js.Number;
  retryAttempts : option Js.Number;
  retryDelay : option Js.Number
}.
End IWgEasyConfig.

(** [new URL(text)] returns: the text is an absolute URL. *)
Class UrlHost : Type := { URL_parses : string -> bool }.

(** [process.env] *)
Module Env.
Record t : Type := mk {
  WGEASY_URL : option string;
  WGEASY_PASSWORD : option string;
  WGEASY_TIMEOUT : option string;
  WGEASY_RETRY_ATTEMPTS : option string;
  WGEASY_RETRY_DELAY : option string
}.
End Env.

Module Config.
(** The constructor returns the configuration or throws a
    [ConfigurationException] with a message. *)
Inductive Result (A : Type) : Type :=
| Ok (a : A)
| ConfigurationException (message : string).
Arguments Ok {A}.
Arguments ConfigurationException {A}.

Record t : Type := mk {
  baseUrl : string;
  password : option string;
  timeout : Js.Number;
  retryAttempts : Js.Number;
  retryDelay : Js.Number
}.

Definition DEFAULT_TIMEOUT : Js.Number := Js.Num 30000.
Definition DEFAULT_RETRY_ATTEMPTS : Js.Number := Js.Num 3.
Definition DEFAULT_RETRY_DELAY : Js.Number := Js.Num 1000.

Section WithUrl.
Context {url : UrlHost}.

Definition validateConfig (config : IWgEasyConfig.t) : Result unit :=
  if negb (Js.truthy (IWgEasyConfig.baseUrl config)) then
    ConfigurationException "baseUrl is required"
  else if negb (URL_parses (IWgEasyConfig.baseUrl config)) then
    ConfigurationException "Invalid baseUrl format"
  else if match IWgEasyConfig.timeout config with
          | Some x => JsNum.le0 x
          | None => false
          end then
    ConfigurationException "timeout must be a positive number"
  else if match IWgEasyConfig.retryAttempts config with
          | Some x => JsNum.lt0 x
          | None => false
          end then
    ConfigurationException "retryAttempts must be a non-negative number"
  else if match IWgEasyConfig.retryDelay config with
          | Some x => JsNum.lt0 x
          | None => false
          end then
    ConfigurationException "retryDelay must be a non-negative number"
  else Ok tt.

(** [url.replace(/\/+$/, '')] *)
Fixpoint normalizeUrl (url : string) : string :=
  match url with
  | EmptyString => EmptyString
  | String c rest =>
      match normalizeUrl rest with
      | EmptyString =>
          if Ascii.eqb c "/"%char then EmptyString else String c EmptyString
      | kept => String c kept
      end
  end.

(** [x ?? d] *)
Definition or_else (x : option Js.Number) (d : Js.Number) : Js.Number :=
  match x with Some v => v | None => d end.

(** [new Config(config)] *)
Definition new (config : IWgEasyConfig.t) : Result t :=
  match validateConfig config with
  | ConfigurationException message => ConfigurationException message
  | Ok _ =>
      Ok {| baseUrl := normalizeUrl (IWgEasyConfig.baseUrl config);
            password := IWgEasyConfig.password config;
            timeout := or_else (IWgEasyConfig.timeout config) DEFAULT_TIMEOUT;
            retryAttempts :=
              or_else (IWgEasyConfig.retryAttempts config) DEFAULT_RETRY_ATTEMPTS;
            retryDelay :=
              or_else (IWgEasyConfig.retryDelay config) DEFAULT_RETRY_DELAY |}
  end.

(** [process.env.X ? parseInt(process.env.X, 10) : undefined] *)
Definition numeric (variable : option string) : option Js.Number :=
  match variable with
  | Some text => if Js.truthy text then Some (JsNum.parseInt10 text) else None
  | None => None
  end.

Definition fromEnv (env : Env.t) : Result t :=
  let baseUrl := Env.WGEASY_URL env in
  let password := Env.WGEASY_PASSWORD env in
  let timeout := numeric (Env.WGEASY_TIMEOUT env) in
  let retryAttempts := numeric (Env.WGEASY_RETRY_ATTEMPTS env) in
  let retryDelay := numeric (Env.WGEASY_RETRY_DELAY env) in
  match baseUrl with
  | Some baseUrl =>
      if negb (Js.truthy baseUrl) then
        ConfigurationException "WGEASY_URL environment variable is required"
      else
        new {| IWgEasyConfig.baseUrl := baseUrl;
               IWgEasyConfig.password := password;
               IWgEasyConfig.timeout := timeout;
               IWgEasyConfig.retryAttempts := retryAttempts;
               IWgEasyConfig.retryDelay := retryDelay |}
  | None => ConfigurationException "WGEASY_URL environment variable is required"
  end.
End WithUrl.

End Config.

(* ================================================================== *)
(** * src/services/AuthService.ts *)
(* ================================================================== *)

(** What the service needs of the host: the body of a request and the
    bodies of the answers of /api/session. *)
Class AuthHost : Type := {
  auth_stringify :: Stringify;
  auth_session :: Payload ISessionData.t;
  auth_unknown :: Payload unit
}.

Module AuthService.
Import Exceptions.

(** What a method throws: an [AuthenticationException] of its own, or
    what the transport threw. *)
Inductive Thrown : Type :=
| AuthenticationException (message : string)
| Transport (e : JsError).

Inductive Result (A : Type) : Type :=
| Done (a : A)
| Raised (e : Thrown).
Arguments Done {A}.
Arguments Raised {A}.

(** The payload of the events of the service: [{ session }] for
    auth:login and [{}] for auth:logout. *)
Inductive Payload : Type :=
| LoggedIn (session : Session.t)
| LoggedOut.

Record t : Type := mk {
  session : option Session.t;
  password : option string
}.

(** [new AuthService(httpClient, password, eventEmitter)] *)
Definition new (password : option string) : t := mk None password.

Section WithHandlers.
Context {host : AuthHost} {Observers : Type}.
Variable code :
  HandlerRef -> Payload -> Observers -> Observers * EventEmitter.Run.

(** The service, and the objects it shares with the other services: the
    transport and the emitter with the world of its handlers; the
    network.  The handlers do not write to the session they are handed. *)
Record State : Type := mkState {
  service : t;
  httpClient : HttpClient.t;
  net : Net.t;
  world : EventEmitter.World (Observers := Observers)
}.

Definition with_session (s : option Session.t) (st : State) : State :=
  mkState (mk s (password (service st))) (httpClient st) (net st) (world st).

Definition with_transport (hn : HttpClient.t * Net.t) (st : State) : State :=
  mkState (service st) (fst hn) (snd hn) (world st).

Definition with_world (w : EventEmitter.World (Observers := Observers))
           (st : State) : State :=
  mkState (service st) (httpClient st) (net st) w.

(** [this.session.authenticated]: the getter writes to the session. *)
Definition read_authenticated (st : State) : bool * State :=
  match session (service st) with
  | Some s =>
      let '(a, s') := Session.authenticated (Net.now (net st)) s in
      (a, with_session (Some s') st)
  | None => (false, st)
  end.

Definition getSession (st : State) : Result Session.t * State :=
  let '(authenticated, st1) := read_authenticated st in
  let cached :=
    match session (service st1) with
    | Some s =>
        if authenticated && negb (Session.isExpired (Net.now (net st1)) s)
        then Some s else None
    | None => None
    end in
  match cached with
  | Some s => (Done s, st1)
  | None =>
      match HttpClient.get (T := ISessionData.t) "/api/session"
              (httpClient st1, net st1) with
      | (Return response, hn) =>
          let st2 := with_transport hn st1 in
          let data :=
            match (if IApiResponse.success response
                   then IApiResponse.data response else None) with
            | Some data => data
            | None => ISessionData.mk false true
            end in
          let s := Session.new (Net.now (net st2)) data in
          (Done s, with_session (Some s) st2)
      | (Throw e, hn) => (Raised (Transport e), with_transport hn st1)
      end
  end.

(** [password || this.password] *)
Definition passwordToUse (password : option string) (a : t) : option string :=
  match password with
  | Some p => if Js.truthy p then Some p else AuthService.password a
  | None => AuthService.password a
  end.

(** The emissions are bounded by [steps]: [None] when one does not
    return within them. *)
Definition login (steps : nat) (password : option string) (st : State)
  : option (Result Session.t * State) :=
  match passwordToUse password (service st) with
  | Some p =>
      if negb (Js.truthy p) then
        Some (Raised (AuthenticationException "Password is required"), st)
      else
        match HttpClient.post (T := ISessionData.t) "/api/session"
                (Some [("password", p)]%string) (httpClient st, net st) with
        | (Return response, hn) =>
            let st1 := with_transport hn st in
            if IApiResponse.success response then
              let s := Session.new (Net.now (net st1))
                         (ISessionData.mk true true) in
              let st2 := with_session (Some s) st1 in
              match EventEmitter.emit code steps EventType.auth_login
                      (LoggedIn s) (world st2) with
              | Some (_, w) => Some (Done s, with_world w st2)
              | None => None
              end
            else
              Some (Raised (AuthenticationException "Invalid password"), st1)
        | (Throw e, hn) => Some (Raised (Transport e), with_transport hn st)
        end
  | None => Some (Raised (AuthenticationException "Password is required"), st)
  end.

Definition logout (steps : nat) (st : State) : option (Result unit * State) :=
  match HttpClient.delete (T := unit) "/api/session" (httpClient st, net st) with
  | (Return _, hn) =>
      let st1 := with_transport (HttpClient.with_cookies Js.Map.empty (fst hn),
                                 snd hn) st in
      let st2 := with_session None st1 in
      match EventEmitter.emit code steps EventType.auth_logout LoggedOut
              (world st2) with
      | Some (_, w) => Some (Done tt, with_world w st2)
      | None => None
      end
  | (Throw e, hn) => Some (Raised (Transport e), with_transport hn st)
  end.

Definition ensureAuthenticated (steps : nat) (st : State)
  : option (Result unit * State) :=
  match getSession st with
  | (Done _, st1) =>
      let '(authenticated, st2) := read_authenticated st1 in
      if negb authenticated then
        match password (service st2) with
        | Some p =>
            if Js.truthy p then
              match login steps (Some p) st2 with
              | Some (Done _, st3) => Some (Done tt, st3)
              | Some (Raised e, st3) => Some (Raised e, st3)
              | None => None
              end
            else
              Some (Raised (AuthenticationException
                              "Not authenticated and no password provided"), st2)
        | None =>
            Some (Raised (AuthenticationException
                            "Not authenticated and no password provided"), st2)
        end
      else Some (Done tt, st2)
  | (Raised e, st1) => Some (Raised e, st1)
  end.

Definition isAuthenticated (st : State) : bool * State := read_authenticated st.

Definition getSessionInfo (st : State) : option Session.t := session (service st).
End WithHandlers.
End AuthService.

(* ================================================================== *)
(** * src/services/ConfigService.ts: configuration files *)
(* ================================================================== *)

Module JsText.
(** [s.endsWith(q)] *)
Fixpoint endsWith (s q : string) : bool :=
  String.eqb s q
  || match s with
     | EmptyString => false
     | String _ s' => endsWith s' q
     end.

(** [s.slice(start, end)] *)
Definition slice (s : string) (start end_ : Z) : string :=
  let len := Z.of_nat (String.length s) in
  let k := Js.rel_index len start in
  let final := Js.rel_index len end_ in
  String.substring (Z.to_nat k) (Z.to_nat (final - k)) s.

(** The line feed. *)
Definition LF : ascii := ascii_of_nat 10.
End JsText.

(** The object [parseConfigFile] builds: the sections it owns, looked up by
    name, each an object of strings looked up by key; and, once a section
    has been named __proto__, the object that this put in the place of its
    prototype. *)
Module ConfigFile.
Record t : Type := mk {
  sections : Js.Map.t (Js.Map.t string);
  prototype : option (Js.Map.t string)
}.

(** [{}] *)
Definition empty : t := mk Js.Map.empty None.

(** [object[key] = value] for a string: under the name __proto__ stands
    the accessor of the prototype, which ignores a value that is no
    object. *)
Definition put (key value : string) (o : Js.Map.t string) : Js.Map.t string :=
  if String.eqb key "__proto__" then o else Js.Map.set key value o.

(** [result[name] = {}] *)
Definition open (name : string) (r : t) : t :=
  if String.eqb name "__proto__" then mk (sections r) (Some Js.Map.empty)
  else mk (Js.Map.set name Js.Map.empty (sections r)) (prototype r).

(** [result[name][key] = value], the section having been opened by the
    line that named it. *)
Definition assign (name key value : string) (r : t) : t :=
  if String.eqb name "__proto__" then
    mk (sections r) (option_map (put key value) (prototype r))
  else
    match Js.Map.get name (sections r) with
    | Some o => mk (Js.Map.set name (put key value o) (sections r)) (prototype r)
    | None => r
    end.

(** The value of a key of a section the object owns. *)
Definition lookup (name key : string) (r : t) : option string :=
  match Js.Map.get name (sections r) with
  | Some o => Js.Map.get key o
  | None => None
  end.
End ConfigFile.

Module ConfigService.
Local Open Scope string_scope.

(** [{ filename, content }] *)
Definition generateConfigFile (config clientName : string) : string * string :=
  (clientName ++ ".conf", config).

(** The body of the loop of [parseConfigFile], on the object built so
    far and the current section. *)
Definition parse_line (state : ConfigFile.t * string) (line : string)
  : ConfigFile.t * string :=
  let '(result, currentSection) := state in
  let trimmedLine := Js.trim line in
  if Js.startsWith trimmedLine "[" && JsText.endsWith trimmedLine "]" then
    let currentSection := JsText.slice trimmedLine 1 (-1) in
    (ConfigFile.open currentSection result, currentSection)
  else if Js.includes trimmedLine "=" && Js.truthy currentSection then
    match Js.split "=" trimmedLine with
    | key :: valueParts =>
        (ConfigFile.assign currentSection (Js.trim key)
           (Js.trim (Js.join "=" valueParts)) result,
         currentSection)
    | [] => state
    end
  else state.

Definition parseConfigFile (content : string) : ConfigFile.t :=
  let lines := Js.split JsText.LF content in
  fst (fold_left parse_line lines (ConfigFile.empty, "")).
End ConfigService.

(* ================================================================== *)
(** * Further vocabulary: what the transport surfaces *)
(* ================================================================== *)

Module SurfaceSpec.
Import Exceptions.

(** The character occurs in the string. *)
Fixpoint occurs (c : ascii) (s : string) : bool :=
  match s with
  | EmptyString => false
  | String x s' => Ascii.eqb x c || occurs c s'
  end.

(** No white space anywhere in the string. *)
Fixpoint spaceless (s : string) : bool :=
  match s with
  | EmptyString => true
  | String x s' => negb (Js.is_space x) && spaceless s'
  end.



(** What [parseCookies] does with one piece of the header. *)
Definition cookie_step (jar : Js.Map.t string) (cookie : string) : Js.Map.t string :=
  let cookiePair := hd EmptyString (Js.split ";" cookie) in
  match Js.split "=" (Js.trim cookiePair) with
  | name :: value :: _ =>
      if Js.truthy name && Js.truthy value then Js.Map.set name value jar else jar
  | _ => jar
  end.

(** The header a client sends for a jar. *)
Definition cookie_header (jar : Js.Map.t string) : string :=
  Js.join "; " (map (fun e => (fst e ++ "=" ++ snd e)%string) jar).

(** The exceptions [request] lets out: the two it rethrows, the timeout,
    and the one that wraps everything else. *)
Definition surfaced (h : HttpClient.t) (e : JsError) : Prop :=
  is_UnauthorizedException e = true
  \/ is_RateLimitException e = true
  \/ e = TimeoutException (HttpClient.timeout h)
  \/ exists cause,
       e = NetworkException
             ("Request failed after " ++ Js.String_of_Z (HttpClient.retryAttempts h)
              ++ " attempts")%string cause.

(** What a call of [request] that started in [n] and ended in [n'] may
    produce: a payload read off the response to its last fetch, or one of
    the surfaced exceptions. *)
Definition produced {T : Type} {payload : Payload T}
           (h : HttpClient.t) (n n' : Net.t)
           (o : Outcome (IApiResponse.t T)) : Prop :=
  match o with
  | Return a =>
      exists r,
        (Net.fetched n < Net.fetched n')%nat
        /\ Net.settles (Net.server n (Net.fetched n' - 1)) = Return r
        /\ HttpClient.interpret r = Return a
        /\ Net.status r <> 401 /\ Net.status r <> 429 /\ Net.status r < 500
        /\ IApiResponse.statusCode a = Net.status r
        /\ (IApiResponse.success a = true <-> 200 <= Net.status r <= 299)
  | Throw e => surfaced h e
  end.
End SurfaceSpec.

(* ================================================================== *)
(** * Vocabulary for the repository outside its cache laws *)
(* ================================================================== *)

Module StoreSpec.
Import ClientRepository.

(** The snapshot and its stamp are those of [r]. *)
Definition same_snapshot (r r' : t) : Prop :=
  cache r' = cache r /\ cacheTimestamp r' = cacheTimestamp r
  /\ cacheTTL r' = cacheTTL r.

(** The run ended by throwing [e], having done nothing. *)
Definition rejected {A : Type} (run : Outcome A * State) (e : Exceptions.JsError)
           (s : State) : Prop :=
  run = (Throw e, s).

(** The id is empty or made of white space only. *)
Definition blank (id : string) : Prop := Spec.all_white id.

(** What [validateId] throws on a blank id. *)
Definition blank_id_error (id : string) : Exceptions.JsError :=
  Exceptions.ValidationException "id"
    (if Js.truthy id then "ID cannot be empty"
     else "ID is required and must be a string") id.

(** The run failed at its remote call: what it threw and the state it
    left are those of the transport, under the snapshot of [r]. *)
Definition failed_at_call {A : Type} (run : Outcome A * State)
           (r : t) (e : Exceptions.JsError) (h1 : HttpClient.t) (n1 : Net.t) : Prop :=
  run = (Throw e, (with_httpClient h1 r, n1))
  /\ same_snapshot r (fst (snd run)).
End StoreSpec.

(* ================================================================== *)
(** * What the patterns of the validator accept *)
(* ================================================================== *)

Module RegExpSpec.
Import RegExp.
Local Open Scope string_scope.

(** The strings of a pattern. *)
Inductive Matches : RegExp.t -> string -> Prop :=
| MEps : Matches Eps ""
| MClass (p : ascii -> bool) (c : ascii) :
    p c = true -> Matches (Class p) (String c "")
| MSeq (a b : RegExp.t) (s1 s2 : string) :
    Matches a s1 -> Matches b s2 -> Matches (Seq a b) (s1 ++ s2)
| MAltL (a b : RegExp.t) (s : string) : Matches a s -> Matches (Alt a b) s
| MAltR (a b : RegExp.t) (s : string) : Matches b s -> Matches (Alt a b) s
| MStar0 (a : RegExp.t) : Matches (Star a) ""
| MStarS (a : RegExp.t) (s1 s2 : string) :
    Matches a s1 -> Matches (Star a) s2 -> Matches (Star a) (s1 ++ s2).

(** Every character of [s] is of the class. *)
Fixpoint all (p : ascii -> bool) (s : string) : bool :=
  match s with
  | "" => true
  | String c s' => p c && all p s'
  end.

(** Between [lo] and [hi] characters, all of the class. *)
Definition group (p : ascii -> bool) (lo hi : nat) (s : string) : Prop :=
  (lo <= String.length s <= hi)%nat /\ all p s = true.

(** A letter, a digit, an underscore or a hyphen. *)
Definition name_char (c : ascii) : bool :=
  lower c || upper c || digit c || Ascii.eqb c "_"%char || Ascii.eqb c "-"%char.

(** A name of 1 to 64 letters, digits, underscores and hyphens, with
    white space let through before and after it. *)
Definition padded_name (name : string) : Prop :=
  exists pre core post,
    name = (pre ++ core ++ post)%string
    /\ Spec.all_white pre /\ Spec.all_white post
    /\ group name_char 1 64 core.

(** Nothing, or a slash and up to [width] digits. *)
Definition prefix_length (width : nat) (suffix : string) : Prop :=
  suffix = "" \/ exists m, suffix = String "/" m /\ group digit 1 width m.

(** [n] groups of one to [width] characters of the class, separated by
    [sep], then the optional prefix length. *)
Definition address_shape (p : ascii -> bool) (n width : nat) (sep : ascii)
           (pwidth : nat) (s : string) : Prop :=
  exists groups suffix,
    List.length groups = n
    /\ Forall (group p 1 width) groups
    /\ prefix_length pwidth suffix
    /\ s = Js.join (String sep "") groups ++ suffix.

Definition ipv4_shape : string -> Prop := address_shape digit 4 3 "." 2.
Definition ipv6_shape : string -> Prop := address_shape hex 8 4 ":" 3.

(** The groups, each followed by the separator. *)
Definition heads (sep : ascii) (groups : list string) : string :=
  fold_right (fun g rest => g ++ String sep rest) "" groups.

(** The pattern of both address formats. *)
Definition address_regex (p : ascii -> bool) (k gextra : nat) (sep : ascii)
           (pextra : nat) : RegExp.t :=
  Seq (Times k (Seq (Between 1 gextra (Class p)) (Char sep)))
      (Seq (Between 1 gextra (Class p))
           (Opt (Seq (Char "/") (Between 1 pextra (Class digit))))).
End RegExpSpec.

(* ================================================================== *)
(** * Vocabulary for the configuration and the session *)
(* ================================================================== *)

Module SettingsSpec.
Local Open Scope string_scope.




(** A session that is authenticated until [deadline], included. *)
Definition valid_until (deadline : Z) (s : Session.t) : Prop :=
  Session._authenticated s = true
  /\ Session._expiresAt s = Some (Some deadline).

(** A session with no deadline: none was set, or the date is invalid. *)
Definition open_ended (s : Session.t) : Prop :=
  Session._expiresAt s = None \/ Session._expiresAt s = Some None.
End SettingsSpec.

(* ================================================================== *)
(** * Vocabulary for the authentication service *)
(* ================================================================== *)

Module AuthSpec.
Import AuthService.

Section WithObservers.
Context {Observers : Type}.
Implicit Types (st : State (Observers := Observers)).

(** The caller lets [dt] milliseconds pass. *)
Definition later (dt : Z) st : State (Observers := Observers) :=
  mkState (service st) (httpClient st) (Net.elapse dt (net st)) (world st).

(** The service holds the session [s], authenticated and with no
    deadline. *)
Definition holds st (s : Session.t) : Prop :=
  session (service st) = Some s
  /\ Session._authenticated s = true
  /\ Session._expiresAt s = None.

(** No session the service holds has a deadline. *)
Definition no_deadline st : Prop :=
  forall s, session (service st) = Some s -> Session._expiresAt s = None.

(** The request of [login]. *)
Definition login_request (p : string) : IHttpOptions.t :=
  IHttpOptions.mk IHttpOptions.POST "/api/session"
    (Some [("password", p)]%string) None.

(** The state after the one call of [login] that [resp] answered. *)
Definition after_login_call {stringify : Stringify} (p : string)
           (resp : Net.Response) st : State (Observers := Observers) :=
  with_transport
    (HttpClient.parseCookies (Net.set_cookie resp) (httpClient st),
     TransportSpec.after_fetch (httpClient st) (login_request p) (net st))
    st.
End WithObservers.
End AuthSpec.

(* ================================================================== *)
(** * Vocabulary for configuration files *)
(* ================================================================== *)

Module FileSpec.
Local Open Scope string_scope.

(** Reading the lines of [content] from a state of the loop. *)
Definition read (state : ConfigFile.t * string) (content : string)
  : ConfigFile.t * string :=
  fold_left ConfigService.parse_line (Js.split JsText.LF content) state.

(** The trimmed line has the form of a section header. *)
Definition header_shaped (trimmedLine : string) : bool :=
  Js.startsWith trimmedLine "[" && JsText.endsWith trimmedLine "]".

(** The configuration of a peer as the service hands it out. *)
Definition wireguard : string :=
  "[Interface]" ++ String JsText.LF
    ("PrivateKey = kEd3/Qw0=" ++ String JsText.LF
       ("Address = 10.8.0.2/24" ++ String JsText.LF
          ("" ++ String JsText.LF
             ("[Peer]" ++ String JsText.LF
                ("AllowedIPs = 0.0.0.0/0, ::/0" ++ String JsText.LF
                   "Endpoint = vpn.example.org:51820"))))).
End FileSpec.
(* ================================================================== *)
(** * More sample worlds *)
(* ================================================================== *)

Module Fixture.
(** A configuration is served as plain text; the sample encoder draws
    texts of up to 2953 characters, the capacity of a QR code. *)
Definition plain (status : Z) (body : string) : Net.Response :=
  {| Net.status := status;
     Net.statusText := "";
     Net.set_cookie := None;
     Net.retry_after := None;
     Net.content_type := Some "text/plain; charset=utf-8"%string;
     Net.text := Return body |}.

Definition draw (text : string) : Outcome string :=
  if (String.length text <=? 2953)%nat then Return ("<svg>" ++ text ++ "</svg>")%string
  else Throw (Exceptions.Error "The amount of data is too big to be stored in a QR Code").

#[export] Instance text_payload : Payload string :=
  {| JSON_parse := fun text => Some text; text_as := fun text => text |}.
#[export] Instance qr : QrHost :=
  {| host_text := text_payload; QRCode_toString := draw |}.

(** A listing, then the service is unreachable. *)
Definition outage : Net.t :=
  Sample.network [Sample.quick (Sample.json 200 "alpha,dev-1");
                  Sample.broken; Sample.broken; Sample.broken].

(** The service refuses a second dev-1. *)
Definition duplicate : Net.t :=
  Sample.network [Sample.quick (Sample.json 409 EmptyString)].

(** A listing answered at once. *)
Definition listing : Net.t :=
  Sample.network [Sample.quick (Sample.json 200 "alpha,dev-1")].
End Fixture.

Module Settings.
(** The sample host takes a text for an absolute URL when it starts with
    a scheme of the web. *)
#[export] Instance url : UrlHost :=
  {| URL_parses := fun text =>
       Js.startsWith text "http://" || Js.startsWith text "https://" |}.

(** A timeout that is no number. *)
Definition careless : Env.t :=
  {| Env.WGEASY_URL := Some "http://localhost:51821/"%string;
     Env.WGEASY_PASSWORD := Some "secret"%string;
     Env.WGEASY_TIMEOUT := Some "soon"%string;
     Env.WGEASY_RETRY_ATTEMPTS := None;
     Env.WGEASY_RETRY_DELAY := Some EmptyString |}.

Definition anonymous : Session.t :=
  Session.new 0 (ISessionData.mk false true).
End Settings.

Module Lobby.
(** The answers of /api/session are written as one letter, y or n, for
    authenticated; a password is always required. *)
Definition parse_session (text : string) : option ISessionData.t :=
  Some (ISessionData.mk (Js.startsWith text "y") true).

#[export] Instance session_payload : Payload ISessionData.t :=
  {| JSON_parse := parse_session;
     text_as := fun text => ISessionData.mk (Js.startsWith text "y") true |}.
#[export] Instance host : AuthHost :=
  {| auth_stringify := Sample.to_json;
     auth_session := session_payload;
     auth_unknown := Sample.unknown_payload |}.

(** Nobody listens. *)
Definition silent (h : HandlerRef) (data : AuthService.Payload) (obs : unit)
  : unit * EventEmitter.Run :=
  (obs, EventEmitter.mkRun [] None).

Definition nobody : EventEmitter.World (Observers := unit) :=
  {| EventEmitter.emitter := EventEmitter.new;
     EventEmitter.observers := tt;
     EventEmitter.invoked := [];
     EventEmitter.console := [] |}.

(** A service with the password of the sample, before any call. *)
Definition doorstep (script : list Net.Exchange) : AuthService.State :=
  {| AuthService.service := AuthService.new (Some "secret"%string);
     AuthService.httpClient := Sample.transport;
     AuthService.net := Sample.network script;
     AuthService.world := nobody |}.

(** The login is accepted. *)
Definition welcome : AuthService.State :=
  doorstep [Sample.quick (Sample.json 200 EmptyString)].

(** The password is wrong: 401. *)
Definition turned_away : AuthService.State :=
  doorstep [Sample.quick (Sample.bare 401)].
End Lobby.

(* ================================================================== *)
(** * Facts about the built-ins *)
(* ================================================================== *)

Section StringFacts.
Local Open Scope string_scope.





(** The small letter of a capital is what [lower_char] gives; a character
    that is no capital is left alone. *)
Lemma lower_char_cases (c : ascii) :
  (Spec.capital (nat_of_ascii c) /\ Spec.small_of c (Js.lower_char c)
   /\ ~ Spec.capital (nat_of_ascii (Js.lower_char c)))
  \/ (~ Spec.capital (nat_of_ascii c) /\ Js.lower_char c = c).
Proof.
  unfold Js.lower_char, Spec.small_of, Spec.capital. cbv zeta.
  pose proof (nat_ascii_bounded c) as B.
  destruct ((65 <=? nat_of_ascii c) && (nat_of_ascii c <=? 90)
            || (192 <=? nat_of_ascii c) && (nat_of_ascii c <=? 214)
            || (216 <=? nat_of_ascii c) && (nat_of_ascii c <=? 222))%nat eqn:E.
  - left. rewrite !orb_true_iff, !andb_true_iff, !Nat.leb_le in E.
    rewrite nat_ascii_embedding by lia. repeat split; lia.
  - right. rewrite !orb_false_iff, !andb_false_iff, !Nat.leb_gt in E.
    split; [lia | reflexivity].
Qed.

Lemma same_letter_iff (a b : ascii) :
  Spec.same_letter a b <-> Js.lower_char a = Js.lower_char b.
Proof.
  assert (Inj : forall x y : ascii, nat_of_ascii x = nat_of_ascii y -> x = y).
  { intros x y H. rewrite <- (ascii_nat_embedding x), <- (ascii_nat_embedding y).
    now rewrite H. }
  unfold Spec.same_letter.
  destruct (lower_char_cases a) as [(Ca & [_ La] & _)|[Ca La]];
    destruct (lower_char_cases b) as [(Cb & [_ Lb] & _)|[Cb Lb]]; split.
  - intros [->|[[_ H]|[_ H]]]; [reflexivity| |]; exfalso; unfold Spec.capital in *;
      destruct Ca as [?|[?|?]], Cb as [?|[?|?]]; lia.
  - intros H. left. apply Inj. rewrite H in La. lia.
  - intros [->|[[_ H]|[C _]]]; [contradiction| |contradiction].
    rewrite Lb. apply Inj. lia.
  - intros H. right. left. split; [exact Ca|]. rewrite <- Lb, <- H. exact La.
  - intros [->|[[C _]|[_ H]]]; [contradiction|contradiction|].
    rewrite La. apply Inj. lia.
  - intros H. right. right. split; [exact Cb|]. rewrite <- La, H. exact Lb.
  - intros [->|[[C _]|[C _]]]; [reflexivity | contradiction | contradiction].
  - intros H. left. congruence.
Qed.

(** Equality up to letter case is what comparing the lower-cased texts
    decides. *)
Lemma eq_ignore_case_iff (a b : string) :
  Spec.eq_ignore_case a b <-> Js.toLowerCase a = Js.toLowerCase b.
Proof.
  split.
  - induction 1 as [|x y s t Hxy Hst IH]; simpl; [reflexivity|].
    apply same_letter_iff in Hxy. now rewrite Hxy, IH.
  - revert b. induction a as [|x s IH]; intros [|y t]; simpl; intros H;
      try discriminate H; [constructor|].
    injection H as Hc Hs. constructor; [now apply same_letter_iff | now apply IH].
Qed.


End StringFacts.

(** ** White space *)

Section WhiteSpaceFacts.
Lemma is_space_iff (c : ascii) : Js.is_space c = true <-> Spec.white c.
Proof.
  unfold Js.is_space, Spec.white. cbv zeta. cbn [In].
  rewrite !orb_true_iff, andb_true_iff, !Nat.leb_le, !Nat.eqb_eq. lia.
Qed.

Lemma is_space_false_iff (c : ascii) : Js.is_space c = false <-> ~ Spec.white c.
Proof.
  rewrite <- is_space_iff. destruct (Js.is_space c).
  - split; [discriminate | intros H; now elim H].
  - split; [intros _ H; discriminate H | reflexivity].
Qed.

Lemma trimStart_white (pre s : string) :
  Spec.all_white pre -> Js.trimStart (pre ++ s) = Js.trimStart s.
Proof.
  induction 1 as [|c pre Hc _ IH]; [reflexivity|].
  cbn [append Js.trimStart]. apply is_space_iff in Hc. now rewrite Hc.
Qed.


Lemma trimStart_all_white (s : string) :
  Spec.all_white (Js.trimStart s) -> Spec.all_white s.
Proof.
  induction s as [|c s IH]; cbn [Js.trimStart]; [trivial|].
  destruct (Js.is_space c) eqn:E; [|trivial].
  intros H. constructor; [now apply is_space_iff | now apply IH].
Qed.

Lemma trimEnd_empty_iff (s : string) :
  Js.trimEnd s = EmptyString <-> Spec.all_white s.
Proof.
  induction s as [|c s IH]; cbn [Js.trimEnd]; [split; [constructor | reflexivity]|].
  destruct (Js.trimEnd s) as [|x r].
  - destruct (Js.is_space c) eqn:E; split; intros H; try reflexivity.
    + constructor; [now apply is_space_iff | now apply IH].
    + discriminate H.
    + inversion H as [|? ? Hc _]; subst. apply is_space_iff in Hc. congruence.
  - split; intros H; [discriminate H|].
    inversion H as [|? ? _ Hs]; subst. apply IH in Hs. discriminate Hs.
Qed.

(** Trimming leaves nothing exactly of a text of white space only. *)
Lemma trim_empty_iff (s : string) :
  Js.trim s = EmptyString <-> Spec.all_white s.
Proof.
  unfold Js.trim. rewrite trimEnd_empty_iff. split; [apply trimStart_all_white|].
  intros H. replace (Js.trimStart s) with EmptyString; [constructor|].
  induction H as [|c s Hc _ IH]; [reflexivity|].
  cbn [Js.trimStart]. apply is_space_iff in Hc. now rewrite Hc.
Qed.
End WhiteSpaceFacts.

Section MapFacts.
Context {V : Type}.
Implicit Types (m : Js.Map.t V) (es : list (string * V)).

Lemma Map_set_fresh k v m :
  ~ In k (Js.Map.keys m) -> Js.Map.set k v m = m ++ [(k, v)].
Proof.
  induction m as [|[k' v'] m IH]; simpl; intros H; [reflexivity|].
  destruct (String.eqb_spec k k') as [->|_].
  - exfalso. apply H. now left.
  - f_equal. apply IH. intros Hin. apply H. now right.
Qed.

Lemma Map_fold_set_fresh es : forall m,
  NoDup (Js.Map.keys m ++ map fst es) ->
  fold_left (fun m e => Js.Map.set (fst e) (snd e) m) es m = m ++ es.
Proof.
  induction es as [|[k v] es IH]; intros m H; simpl.
  - now rewrite app_nil_r.
  - simpl in H. rewrite Map_set_fresh.
    + rewrite IH.
      * now rewrite <- app_assoc.
      * unfold Js.Map.keys in *. rewrite map_app. simpl.
        rewrite <- app_assoc. exact H.
    + apply NoDup_remove_2 in H. intros Hin. apply H.
      apply in_or_app. now left.
Qed.

Lemma Map_of_entries_nodup es :
  NoDup (map fst es) -> Js.Map.of_entries es = es.
Proof.
  intros H. unfold Js.Map.of_entries. now rewrite Map_fold_set_fresh.
Qed.

Lemma Map_set_keys k v m :
  Js.Map.keys (Js.Map.set k v m)
  = if existsb (String.eqb k) (Js.Map.keys m) then Js.Map.keys m
    else Js.Map.keys m ++ [k].
Proof.
  induction m as [|[k' v'] m IH]; simpl; [reflexivity|].
  destruct (String.eqb_spec k k') as [->|Hne]; simpl; [reflexivity|].
  unfold Js.Map.keys in *. rewrite IH.
  now destruct (existsb (String.eqb k) (map fst m)).
Qed.

Lemma Map_set_keys_NoDup k v m :
  NoDup (Js.Map.keys m) -> NoDup (Js.Map.keys (Js.Map.set k v m)).
Proof.
  intros H. rewrite Map_set_keys.
  destruct (existsb (String.eqb k) (Js.Map.keys m)) eqn:E; [exact H|].
  apply NoDup_app; [exact H | repeat constructor; intros [] |].
  intros x Hx [Heq|[]]. subst x.
  assert (existsb (String.eqb k) (Js.Map.keys m) = true); [|congruence].
  apply existsb_exists. exists k. split; [exact Hx | apply String.eqb_refl].
Qed.

Lemma Map_of_entries_keys_NoDup es : NoDup (Js.Map.keys (Js.Map.of_entries es)).
Proof.
  unfold Js.Map.of_entries.
  assert (G : forall m, NoDup (Js.Map.keys m) ->
    NoDup (Js.Map.keys (fold_left (fun m e => Js.Map.set (fst e) (snd e) m) es m))).
  { induction es as [|e es IH]; intros m H; simpl; [exact H|].
    apply IH. now apply Map_set_keys_NoDup. }
  apply G. constructor.
Qed.

Lemma Map_set_Forall (P : string * V -> Prop) k v m :
  P (k, v) -> Forall P m -> Forall P (Js.Map.set k v m).
Proof.
  intros Hkv. induction 1 as [|[k' v'] m Hx Hm IH]; simpl.
  - now repeat constructor.
  - destruct (String.eqb k k'); constructor; auto.
Qed.

Lemma Map_of_entries_Forall (P : string * V -> Prop) es :
  Forall P es -> Forall P (Js.Map.of_entries es).
Proof.
  unfold Js.Map.of_entries.
  assert (G : forall m, Forall P es -> Forall P m ->
    Forall P (fold_left (fun m e => Js.Map.set (fst e) (snd e) m) es m)).
  { induction es as [|[k v] es IH]; intros m Hes Hm; simpl; [exact Hm|].
    inversion Hes; subst. apply IH; [assumption|]. now apply Map_set_Forall. }
  intros H. apply G; [exact H | constructor].
Qed.
End MapFacts.

(** Dropping entries keeps the keys distinct. *)
Lemma distinct_keys_filter (K V : Type) (key : V -> K) (keep : V -> bool) :
  forall vs : list V,
    NoDup (map key vs) -> NoDup (map key (List.filter keep vs)).
Proof.
  intros vs. induction vs as [|v vs IH]; intros Hnd; cbn [List.filter map].
  - constructor.
  - cbn [map] in Hnd. apply NoDup_cons_iff in Hnd as [Hfresh Hnd].
    destruct (keep v); cbn [map].
    + apply NoDup_cons; [|now apply IH].
      rewrite in_map_iff. intros (v' & Hkey & Hin).
      apply Hfresh. rewrite in_map_iff. exists v'.
      split; [exact Hkey|]. now apply filter_In in Hin.
    + now apply IH.
Qed.

(* ================================================================== *)
(** * The collection engine *)
(* ================================================================== *)

Section CollectionFacts.
Import ClientCollection.

Lemma new_well_keyed (cs : list Client.t) : Spec.well_keyed (clients (new cs)).
Proof.
  split; simpl.
  - apply Map_of_entries_keys_NoDup.
  - apply Map_of_entries_Forall, Forall_map, Forall_forall. reflexivity.
Qed.

Lemma entries_of_values (m : Js.Map.t Client.t) :
  Forall (fun e => fst e = Client.id (snd e)) m ->
  map (fun c => (Client.id c, c)) (Js.Map.values m) = m.
Proof.
  unfold Js.Map.values.
  induction 1 as [|[k v] m Hx Hm IH]; simpl; [reflexivity|].
  simpl in Hx. now rewrite IH, Hx.
Qed.

Lemma keys_of_values (m : Js.Map.t Client.t) :
  Forall (fun e => fst e = Client.id (snd e)) m ->
  map Client.id (Js.Map.values m) = Js.Map.keys m.
Proof.
  unfold Js.Map.values, Js.Map.keys.
  induction 1 as [|[k v] m Hx Hm IH]; simpl; [reflexivity|].
  simpl in Hx. now rewrite IH, Hx.
Qed.

(** Filtering keeps the order of the receiver and drops the rest. *)
Lemma toArray_filter (p : Client.t -> bool) (c : t) :
  Spec.well_keyed (clients c) ->
  toArray (filter p c) = List.filter p (toArray c).
Proof.
  intros [Hnd Hk]. unfold filter, new, toArray. simpl.
  rewrite Map_of_entries_nodup.
  - unfold Js.Map.values. rewrite map_map. simpl. apply map_id.
  - rewrite map_map. simpl. apply distinct_keys_filter.
    now rewrite keys_of_values.
Qed.

Lemma toArray_new_nodup (cs : list Client.t) :
  NoDup (map Client.id cs) -> toArray (new cs) = cs.
Proof.
  intros H. unfold toArray, new. simpl. rewrite Map_of_entries_nodup.
  - unfold Js.Map.values. rewrite map_map. apply map_id.
  - now rewrite map_map.
Qed.
End CollectionFacts.

(** ** filterBy: the callback decides the conjunction of the criteria *)

Section FilterFacts.
Import ClientCollection.


Lemma Date_lt_iff (a b : Js.Date) : Js.Date_lt a b = true <-> Spec.earlier a b.
Proof.
  unfold Js.Date_lt, Spec.earlier. destruct a as [x|], b as [y|].
  - rewrite Z.ltb_lt. split.
    + intros H. now exists x, y.
    + intros (x' & y' & [= <-] & [= <-] & H). exact H.
  - split; [discriminate | intros (? & ? & _ & [=] & _)].
  - split; [discriminate | intros (? & ? & [=] & _)].
  - split; [discriminate | intros (? & ? & [=] & _)].
Qed.

Lemma isOnline_iff (now : Z) (c : Client.t) :
  Client.isOnline now c = true <-> Spec.online now c.
Proof.
  unfold Client.isOnline, Spec.online, Js.Date_gt.
  destruct (Client.latestHandshakeAt c) as [h|].
  - rewrite Date_lt_iff. unfold Spec.earlier. split.
    + intros (x & y & [= <-] & -> & H). exists y. split; [reflexivity | lia].
    + intros (h' & [= ->] & H). exists (now - 3 * 60 * 1000), h'.
      repeat split; lia.
  - split; [discriminate | intros (? & [=] & _)].
Qed.







End FilterFacts.



(** ** paginate *)

Section PaginateFacts.
Context {A : Type}.
Implicit Types (l : list A).

Lemma firstn_skipn_overshoot (n k : nat) l :
  (List.length l <= k)%nat -> firstn n (skipn k l) = [].
Proof. intros H. rewrite skipn_all2 by exact H. apply firstn_nil. Qed.

Lemma firstn_min_length (n : nat) l :
  firstn (Nat.min n (List.length l)) l = firstn n l.
Proof.
  destruct (Nat.le_ge_cases n (List.length l)) as [H|H].
  - now rewrite Nat.min_l.
  - rewrite Nat.min_r by exact H. now rewrite !firstn_all2.
Qed.

(** For a non-negative offset and a positive length the slice is the
    window of [len] items that starts at [offset], cut at the end. *)
Lemma slice_window l (offset len : Z) :
  0 <= offset -> 0 < len ->
  Js.slice l offset (offset + len)
  = firstn (Z.to_nat len) (skipn (Z.to_nat offset) l).
Proof.
  intros Ho Hl. unfold Js.slice, Js.rel_index.
  destruct (Z.ltb_spec offset 0) as [|_]; [lia|].
  destruct (Z.ltb_spec (offset + len) 0) as [|_]; [lia|].
  set (S := Z.of_nat (List.length l)).
  destruct (Z.le_gt_cases S offset) as [Hge|Hlt].
  - rewrite !firstn_skipn_overshoot; [reflexivity | lia | lia].
  - rewrite (Z.min_l offset S) by lia.
    rewrite <- (firstn_min_length (Z.to_nat len)), length_skipn.
    f_equal. lia.
Qed.

(** Cutting a list into [n] consecutive windows of [L] items and gluing
    them back gives the list, as soon as [n] windows reach its end. *)
Lemma concat_windows (L : nat) : forall (n : nat) l,
  (List.length l <= n * L)%nat ->
  List.concat (map (fun q => firstn L (skipn ((q - 1) * L) l)) (seq 1 n)) = l.
Proof.
  induction n as [|n IH]; intros l H.
  - simpl in *. destruct l; [reflexivity | simpl in H; lia].
  - cbn [seq map List.concat]. rewrite <- seq_shift, map_map.
    rewrite (map_ext_in _ (fun q => firstn L (skipn ((q - 1) * L) (skipn L l)))).
    + rewrite IH.
      * simpl. apply firstn_skipn.
      * rewrite length_skipn. lia.
    + intros q Hq. apply in_seq in Hq. rewrite skipn_skipn. do 2 f_equal.
      destruct q; simpl; lia.
Qed.
End PaginateFacts.

Lemma ceil_div_is_ceil (S L : Z) :
  0 < L -> exists T, Js.ceil_div S L = Js.Num T /\ Spec.is_ceil S L T.
Proof.
  intros HL. unfold Js.ceil_div, Spec.is_ceil.
  destruct (Z.eqb_spec L 0) as [|_]; [lia|].
  exists (- (- S / L)). split; [reflexivity|].
  pose proof (Z.div_mod (- S) L ltac:(lia)) as E.
  pose proof (Z.mod_pos_bound (- S) L HL) as B.
  nia.
Qed.

Lemma is_ceil_unique (S L T T' : Z) :
  0 < L -> Spec.is_ceil S L T -> Spec.is_ceil S L T' -> T = T'.
Proof. unfold Spec.is_ceil. intros. nia. Qed.

(** C6. For a snapshot of size [S], a page [p] and a limit [L > 0]:
    [totalPages] is [ceil(S/L)], [hasNext] is [p < totalPages] and
    [hasPrev] is [p > 1].  For a page [p >= 1] the items are the window
    [(p-1)*L, (p-1)*L+L) of the snapshot cut at its end; a page beyond the
    last one is empty; every page before the last holds [L] items and the
    last one between 1 and [L].  Page 0 is empty.  For a negative page the
    window is counted from the end of the snapshot, from [S + (p-1)*L] to
    [S + p*L], each raised to 0: it is empty only when [S <= -p*L].  The
    pages 1..ceil(S/L) glued together are the snapshot, so their item
    counts sum to [S]. *)
Theorem C6_paginate_law :
  forall (cs : list Client.t) (p L : Z),
    0 < L ->
    let c := ClientCollection.new cs in
    let S := ClientCollection.size c in
    let r := ClientCollection.paginate (IPaginationOptions.mk p L) c in
    exists T : Z,
      IPaginatedResult.totalPages r = Js.Num T
      /\ Spec.is_ceil S L T
      /\ IPaginatedResult.total r = S
      /\ IPaginatedResult.hasNext r = (p <? T)
      /\ IPaginatedResult.hasPrev r = (1 <? p)
      /\ (1 <= p ->
            IPaginatedResult.items r
            = firstn (Z.to_nat L)
                (skipn (Z.to_nat ((p - 1) * L)) (ClientCollection.toArray c))
            /\ (forall i, 0 <= i < L ->
                  nth_error (IPaginatedResult.items r) (Z.to_nat i)
                  = if (p - 1) * L + i <? S
                    then nth_error (ClientCollection.toArray c)
                                   (Z.to_nat ((p - 1) * L + i))
                    else None)
            /\ (T < p -> IPaginatedResult.items r = [])
            /\ (p < T -> Z.of_nat (List.length (IPaginatedResult.items r)) = L)
            /\ (p = T -> 1 <= Z.of_nat (List.length (IPaginatedResult.items r)) <= L))
      /\ (p = 0 -> IPaginatedResult.items r = [])
      /\ (p < 0 ->
            IPaginatedResult.items r
            = firstn (Z.to_nat (Z.max (S + p * L) 0 - Z.max (S + (p - 1) * L) 0))
                (skipn (Z.to_nat (Z.max (S + (p - 1) * L) 0))
                       (ClientCollection.toArray c))
            /\ (IPaginatedResult.items r = [] <-> S <= - p * L))
      /\ List.concat (map (fun q => Spec.page_of c L (Z.of_nat q)) (seq 1 (Z.to_nat T)))
         = ClientCollection.toArray c
      /\ Z.of_nat
           (list_sum (map (fun q => List.length (Spec.page_of c L (Z.of_nat q)))
                          (seq 1 (Z.to_nat T))))
         = S.
Proof.
  intros cs p L HL c S r.
  destruct (ceil_div_is_ceil S L HL) as (T & ET & HT).
  assert (HS : S = Z.of_nat (List.length (ClientCollection.toArray c))).
  { unfold S, ClientCollection.size, Js.Map.size, ClientCollection.toArray,
      Js.Map.values. now rewrite length_map. }
  assert (Hitems : forall q, 1 <= q ->
    Spec.page_of c L q
    = firstn (Z.to_nat L)
        (skipn (Z.to_nat ((q - 1) * L)) (ClientCollection.toArray c))).
  { intros q Hq. unfold Spec.page_of, ClientCollection.paginate. simpl.
    apply slice_window; nia. }
  assert (Hlen : forall q, 1 <= q ->
    Z.of_nat (List.length (Spec.page_of c L q))
    = Z.max 0 (Z.min L (S - (q - 1) * L))).
  { intros q Hq. rewrite Hitems by exact Hq.
    rewrite length_firstn, length_skipn. nia. }
  assert (Hcat :
    List.concat (map (fun q => Spec.page_of c L (Z.of_nat q)) (seq 1 (Z.to_nat T)))
    = ClientCollection.toArray c).
  { rewrite <- (concat_windows (Z.to_nat L) (Z.to_nat T)
                              (ClientCollection.toArray c)).
    - f_equal. apply map_ext_in. intros q Hq. apply in_seq in Hq.
      rewrite Hitems by lia. do 2 f_equal. nia.
    - unfold Spec.is_ceil in HT. nia. }
  assert (Hend : p < 0 ->
    Spec.page_of c L p
    = firstn (Z.to_nat (Z.max (S + p * L) 0 - Z.max (S + (p - 1) * L) 0))
        (skipn (Z.to_nat (Z.max (S + (p - 1) * L) 0)) (ClientCollection.toArray c))).
  { intros Hp. unfold Spec.page_of, ClientCollection.paginate. simpl.
    unfold Js.slice, Js.rel_index. rewrite <- HS.
    destruct (Z.ltb_spec ((p - 1) * L) 0) as [_|]; [|nia].
    destruct (Z.ltb_spec ((p - 1) * L + L) 0) as [_|]; [|nia].
    replace (S + ((p - 1) * L + L)) with (S + p * L) by ring. reflexivity. }
  exists T.
  change (IPaginatedResult.items r) with (Spec.page_of c L p).
  split; [exact ET|]. split; [exact HT|]. split; [reflexivity|].
  unfold Spec.is_ceil in HT.
  split.
  { unfold r, ClientCollection.paginate. simpl. fold c. fold S. now rewrite ET. }
  split; [reflexivity|].
  split.
  { intros Hp. split; [apply Hitems; exact Hp|].
    split.
    { intros i Hi. rewrite Hitems by exact Hp.
      destruct (Z.ltb_spec ((p - 1) * L + i) S) as [Hin|Hout].
      - rewrite nth_error_firstn.
        destruct (Nat.ltb_spec (Z.to_nat i) (Z.to_nat L)) as [_|]; [|lia].
        rewrite nth_error_skipn. f_equal. nia.
      - apply nth_error_None. rewrite length_firstn, length_skipn. nia. }
    split.
    { intros Hout. apply length_zero_iff_nil. pose proof (Hlen p Hp). nia. }
    split.
    { intros Hlt. rewrite Hlen by exact Hp. nia. }
    intros ->. rewrite Hlen by exact Hp. nia. }
  split.
  { intros Hp. unfold Spec.page_of, ClientCollection.paginate. cbv zeta.
    cbn [IPaginatedResult.items IPaginationOptions.page IPaginationOptions.limit].
    unfold Js.slice, Js.rel_index. rewrite <- HS.
    destruct (Z.ltb_spec ((p - 1) * L) 0) as [_|]; [|nia].
    destruct (Z.ltb_spec ((p - 1) * L + L) 0) as [|_]; [nia|].
    apply length_zero_iff_nil. rewrite length_firstn. nia. }
  split.
  { intros Hp. split; [now apply Hend|].
    rewrite <- length_zero_iff_nil, (Hend Hp), length_firstn, length_skipn.
    split; intros H; nia. }
  split; [exact Hcat|].
  rewrite <- map_map, <- length_concat, Hcat. now rewrite HS.
Qed.

(* ================================================================== *)
(** * The transport *)
(* ================================================================== *)

Section TransportFacts.
Import Exceptions TransportSpec.
Context {T : Type} {P : Payload T} {St : Stringify}.
Implicit Types (h : HttpClient.t) (n : Net.t) (options : IHttpOptions.t).

Lemma delays_app (tr tr' : list Net.Event) :
  Net.delays (tr ++ tr') = Net.delays tr ++ Net.delays tr'.
Proof. apply flat_map_app. Qed.

Lemma after_fetch_facts h options n :
  Net.server (after_fetch h options n) = Net.server n
  /\ Net.fetched (after_fetch h options n) = S (Net.fetched n)
  /\ Net.delays (Net.trace (after_fetch h options n)) = Net.delays (Net.trace n)
  /\ Net.fetches (Net.trace (after_fetch h options n))
     = S (Net.fetches (Net.trace n)).
Proof.
  unfold after_fetch, Net.fetch. simpl. repeat split.
  - rewrite delays_app. simpl. apply app_nil_r.
  - unfold Net.fetches. rewrite filter_app, length_app. simpl. lia.
Qed.

Lemma delay_facts (ms : Z) n :
  Net.server (snd (Net.delay ms n)) = Net.server n
  /\ Net.fetched (snd (Net.delay ms n)) = Net.fetched n
  /\ Net.delays (Net.trace (snd (Net.delay ms n)))
     = Net.delays (Net.trace n) ++ [ms]
  /\ Net.fetches (Net.trace (snd (Net.delay ms n))) = Net.fetches (Net.trace n).
Proof.
  unfold Net.delay. simpl. repeat split.
  - now rewrite delays_app.
  - unfold Net.fetches. rewrite filter_app, length_app. simpl. lia.
Qed.

Lemma same_config_refl h : same_config h h.
Proof. repeat split. Qed.

Lemma same_config_trans h1 h2 h3 :
  same_config h1 h2 -> same_config h2 h3 -> same_config h1 h3.
Proof. unfold same_config. intuition congruence. Qed.

Lemma parseCookies_same_config (c : option string) h :
  same_config h (HttpClient.parseCookies c h).
Proof.
  unfold HttpClient.parseCookies. destruct c as [s|]; [|apply same_config_refl].
  destruct (negb (Js.truthy s)); [apply same_config_refl|]. repeat split.
Qed.

(** One attempt, spelled out on the exchange that answers it. *)
Lemma attempt_once_eq options h n :
  HttpClient.attempt_once (T := T) options (h, n)
  = let ex := Net.server n (Net.fetched n) in
    let n1 := after_fetch h options n in
    if HttpClient.timeout h <? Net.latency ex then (Throw Net.AbortError, (h, n1))
    else match Net.settles ex with
         | Throw e => (Throw e, (h, n1))
         | Return r =>
             (HttpClient.interpret r,
              (HttpClient.parseCookies (Net.set_cookie r) h, n1))
         end.
Proof.
  unfold HttpClient.attempt_once, after_fetch, bind, HttpClient.lift_net, zoom,
    Net.fetch, modify, HttpClient.lift_outcome. simpl.
  destruct (HttpClient.timeout h <? Net.latency (Net.server n (Net.fetched n)));
    [reflexivity|].
  destruct (Net.settles (Net.server n (Net.fetched n))) as [r|e]; [|reflexivity].
  now destruct (HttpClient.interpret r).
Qed.



(** An attempt that succeeds ends the loop with its payload. *)
Lemma returned_attempt_step options h n (a : IApiResponse.t T) :
  attempt_returns h (Net.server n (Net.fetched n)) a ->
  exists h1,
    same_config h h1
    /\ forall remaining attempt lastError,
         HttpClient.request_loop (S remaining) attempt lastError options (h, n)
         = (Return a, (h1, after_fetch h options n)).
Proof.
  intros (r & [Hin Hs] & Hr). unfold in_time in Hin.
  exists (HttpClient.parseCookies (Net.set_cookie r) h).
  split; [apply parseCookies_same_config|].
  intros remaining attempt lastError. simpl. unfold try_catch.
  rewrite attempt_once_eq. cbv zeta.
  destruct (Z.ltb_spec (HttpClient.timeout h)
              (Net.latency (Net.server n (Net.fetched n)))); [lia|].
  now rewrite Hs, Hr.
Qed.







End TransportFacts.

Section TransportLaws.
Import Exceptions TransportSpec.
Context {T : Type} {P : Payload T} {St : Stringify}.
Implicit Types (h : HttpClient.t) (n : Net.t) (options : IHttpOptions.t).

Lemma request_eq options h n :
  HttpClient.request (T := T) options (h, n)
  = HttpClient.request_loop (Z.to_nat (HttpClient.retryAttempts h)) 1 None
      options (h, n).
Proof. reflexivity. Qed.


Lemma aborted_attempt_step options h n :
  exceeds_timeout h (Net.server n (Net.fetched n)) ->
  forall remaining attempt lastError,
    HttpClient.request_loop (T := T) (S remaining) attempt lastError options (h, n)
    = (Throw (TimeoutException (HttpClient.timeout h)),
       (h, after_fetch h options n)).
Proof.
  unfold exceeds_timeout. intros Hlate remaining attempt lastError.
  cbn [HttpClient.request_loop]. unfold try_catch. rewrite attempt_once_eq.
  cbv zeta.
  destruct (Z.ltb_spec (HttpClient.timeout h)
              (Net.latency (Net.server n (Net.fetched n)))); [|lia].
  reflexivity.
Qed.

(** A 5xx response and a rejected fetch are failures the loop retries. *)
Lemma server_error_is_retried h (ex : Net.Exchange) (r : Net.Response) :
  answers h ex r -> 500 <= Net.status r ->
  attempt_throws (T := T) h ex
    (ServerException ("Server error: " ++ Net.statusText r) (Net.status r))
  /\ retriable
       (ServerException ("Server error: " ++ Net.statusText r) (Net.status r))
     = true.
Proof.
  intros [Hin Hs] H5. split; [|reflexivity]. split; [exact Hin|].
  right. exists r. split; [exact Hs|]. unfold HttpClient.interpret.
  destruct (Z.eqb_spec (Net.status r) 401); [lia|].
  destruct (Z.eqb_spec (Net.status r) 429); [lia|].
  destruct (Z.leb_spec 500 (Net.status r)); [reflexivity | lia].
Qed.

Lemma network_failure_is_retried h (ex : Net.Exchange) (name message : string) :
  in_time h ex ->
  Net.settles ex = Throw (NativeError name message) ->
  name <> "AbortError"%string ->
  attempt_throws (T := T) h ex (NativeError name message)
  /\ retriable (NativeError name message) = true.
Proof.
  intros Hin Hs Hname. split; [split; [exact Hin | now left]|].
  unfold retriable. simpl. apply negb_true_iff. now apply String.eqb_neq.
Qed.

End TransportLaws.

(** ** The number read off a retry-after header *)

Section RetryAfterFacts.
Import TransportSpec.











End RetryAfterFacts.


(** C4, as the code has it.  An attempt that outlasts the timeout is aborted
    and [request] raises [TimeoutException], carrying the timeout, as the
    result of the whole call: after that single fetch, with no further
    attempt and no wait, at the first attempt and at any later one, whatever
    remains of the budget. *)
Theorem C4_timeout_is_final :
  forall (T : Type) (P : Payload T) (St : Stringify)
         (h : HttpClient.t) (n : Net.t) (options : IHttpOptions.t),
    TransportSpec.exceeds_timeout h (Net.server n (Net.fetched n)) ->
    let n' := TransportSpec.after_fetch h options n in
    (1 <= HttpClient.retryAttempts h ->
       HttpClient.request (T := T) options (h, n)
       = (Throw (Exceptions.TimeoutException (HttpClient.timeout h)), (h, n')))
    /\ (forall (remaining : nat) (attempt : Z) (lastError : option Exceptions.JsError),
          HttpClient.request_loop (T := T) (S remaining) attempt lastError
            options (h, n)
          = (Throw (Exceptions.TimeoutException (HttpClient.timeout h)), (h, n')))
    /\ Net.fetched n' = S (Net.fetched n)
    /\ Net.fetches (Net.trace n') = S (Net.fetches (Net.trace n))
    /\ Net.delays (Net.trace n') = Net.delays (Net.trace n)
    /\ Net.now n' = Net.now n + Z.max 0 (HttpClient.timeout h).
Proof.
  intros T P St h n options Hlate n'.
  destruct (after_fetch_facts h options n) as (_ & F2 & F3 & F4).
  split; [|split; [|repeat split; try assumption]].
  - intros HR. rewrite request_eq.
    replace (Z.to_nat (HttpClient.retryAttempts h))
      with (S (Z.to_nat (HttpClient.retryAttempts h) - 1)) by lia.
    now apply aborted_attempt_step.
  - intros remaining attempt lastError. now apply aborted_attempt_step.
  - unfold n', TransportSpec.after_fetch, Net.fetch. simpl.
    unfold TransportSpec.exceeds_timeout in Hlate.
    destruct (Z.ltb_spec (HttpClient.timeout h)
                (Net.latency (Net.server n (Net.fetched n)))); [reflexivity | lia].
Qed.


(* ================================================================== *)
(** * The repository *)
(* ================================================================== *)

Section RepositoryFacts.
Import ClientRepository RepositorySpec.
Context {host : Host}.
Implicit Types (r : t) (n : Net.t) (h : HttpClient.t).

Lemma find_last_spec {A : Type} (p : A -> bool) (l : list A) :
  match Js.find p (rev l) with
  | Some c => exists older newer,
      l = older ++ c :: newer /\ p c = true
      /\ forall x, In x newer -> p x = false
  | None => forall x, In x l -> p x = false
  end.
Proof.
  unfold Js.find. induction l as [|a l IH] using rev_ind; simpl.
  - intros x [].
  - rewrite rev_app_distr. simpl. destruct (p a) eqn:E.
    + exists l, []. repeat split; [assumption | intros x []].
    + destruct (find p (rev l)) as [c|].
      * destruct IH as (older & newer & -> & Hc & Hn).
        exists older, (newer ++ [a]). rewrite <- app_assoc. simpl.
        repeat split; [assumption|].
        intros x Hx. apply in_app_or in Hx as [Hx|[<-|[]]]; auto.
      * intros x Hx. apply in_app_or in Hx as [Hx|[<-|[]]]; auto.
Qed.

Lemma http_run {A B : Type} (m : M HttpClient.State A) (k : A -> M State B)
      r n (a : A) h1 n1 :
  m (httpClient r, n) = (Return a, (h1, n1)) ->
  bind (http m) k (r, n) = k a (with_httpClient h1 r, n1).
Proof. intros E. unfold bind, http, zoom. simpl. now rewrite E. Qed.

Lemma http_run_throw {A B : Type} (m : M HttpClient.State A) (k : A -> M State B)
      r n (e : Exceptions.JsError) h1 n1 :
  m (httpClient r, n) = (Throw e, (h1, n1)) ->
  bind (http m) k (r, n) = (Throw e, (with_httpClient h1 r, n1)).
Proof. intros E. unfold bind, http, zoom. simpl. now rewrite E. Qed.

Lemma validate_ok {B : Type} (o : Outcome unit) (k : unit -> M State B) (s : State) :
  o = Return tt -> bind (validate o) k s = k tt s.
Proof. intros ->. reflexivity. Qed.

Lemma invalidate_run {B : Type} (k : unit -> M State B) r n :
  bind invalidateCache k (r, n) = k tt (invalidated (httpClient r) r, n).
Proof. reflexivity. Qed.

(** The path of a forced refresh, on the outcome of the GET. *)
Lemma findAll_refresh r n :
  findAll true (r, n)
  = match HttpClient.get clients_path (httpClient r, n) with
    | (Return g, (h', n')) =>
        match usable g with
        | Some data =>
            (Return (ClientCollection.fromRawData data),
             (mk h' (Some (ClientCollection.fromRawData data))
                 (Some (Net.now n')) (cacheTTL r), n'))
        | None => (Return (ClientCollection.new []), (with_httpClient h' r, n'))
        end
    | (Throw e, (h', n')) => (Throw e, (with_httpClient h' r, n'))
    end.
Proof.
  unfold findAll, bind, get_state, http, zoom, clients_path, usable. simpl.
  destruct (HttpClient.get "/api/wireguard/client" (httpClient r, n))
    as [[g|e] [h' n']]; [|reflexivity].
  now destruct (IApiResponse.success g), (IApiResponse.data g).
Qed.

Lemma isCacheValid_cache (now : Z) r :
  isCacheValid now r = true -> exists c, cache r = Some c.
Proof.
  unfold isCacheValid. destruct (cache r) as [c|]; [now exists c | discriminate].
Qed.

(** Without a valid cache [findAll()] is a forced refresh. *)
Lemma findAll_stale r n :
  isCacheValid (Net.now n) r = false -> findAll false (r, n) = findAll true (r, n).
Proof.
  intros E. unfold findAll, bind, get_state. simpl. now rewrite E.
Qed.

(** With a valid cache it returns the cached snapshot and does nothing. *)
Lemma findAll_cached r n (c : ClientCollection.t) :
  isCacheValid (Net.now n) r = true -> cache r = Some c ->
  findAll false (r, n) = (Return c, (r, n)).
Proof.
  intros E Hc. unfold findAll, bind, get_state. simpl. now rewrite E, Hc.
Qed.

(** A refresh from an invalidated repository leaves it fresh. *)
Lemma refresh_fresh h1 r n1 :
  fresh_after h1 n1 (snd (findAll true (invalidated h1 r, n1))).
Proof.
  rewrite findAll_refresh. simpl.
  destruct (HttpClient.get clients_path (h1, n1)) as [[g|e] [h' n']] eqn:E.
  - destruct (usable g) as [data|] eqn:U.
    + right. exists g, data. simpl. now repeat split.
    + left. now split.
  - left. now split.
Qed.

Lemma fresh_next_read h1 n1 (st' : State) :
  fresh_after h1 n1 st' -> next_read_is_fresh h1 n1 st'.
Proof.
  destruct st' as [r' n']. unfold fresh_after, next_read_is_fresh. simpl.
  intros Hf dt.
  destruct (isCacheValid (Net.now (Net.elapse dt n')) r') eqn:V.
  - destruct Hf as [[Hc _] | (g & data & Hg & Hu & Hc & Ht)].
    + apply isCacheValid_cache in V as [c V]. congruence.
    + right. exists g, data. simpl in *. repeat split; try assumption.
      now apply findAll_cached.
  - left. now apply findAll_stale.
Qed.

(** The state [findById] leaves is the one its [findAll()] leaves. *)
Lemma findById_state (id : string) (s : State) :
  Validator.validateId id = Return tt ->
  snd (findById id s) = snd (findAll false s).
Proof.
  intros V. unfold findById. rewrite validate_ok by exact V.
  unfold bind. destruct (findAll false s) as [[c|e] s']; [|reflexivity].
  simpl. now destruct (ClientCollection.get id c).
Qed.

Lemma update_tail_fresh (id : string) (response : IApiResponse.t IClientData.t)
      h1 r n1 :
  Validator.validateId id = Return tt ->
  fresh_after h1 n1 (snd (update_tail id response (invalidated h1 r, n1))).
Proof.
  intros V. unfold update_tail. destruct (usable response).
  - left. now split.
  - rewrite findById_state by exact V.
    rewrite findAll_stale by reflexivity. apply refresh_fresh.
Qed.

Lemma create_tail_fresh (dto : IClientCreateDTO.t)
      (response : IApiResponse.t IClientData.t) h1 r n1 :
  fresh_after h1 n1 (snd (create_tail dto response (invalidated h1 r, n1))).
Proof.
  unfold create_tail. destruct (negb (IApiResponse.success response)).
  - left. now split.
  - unfold bind. pose proof (refresh_fresh h1 r n1) as F.
    destruct (findAll true (invalidated h1 r, n1)) as [[c|e] s']; [|exact F].
    simpl in F. now destruct (Js.find _ _).
Qed.
End RepositoryFacts.

Section RepositoryLaws.
Import ClientRepository RepositorySpec.
Context {host : Host}.
Implicit Types (r : t) (n : Net.t) (h : HttpClient.t).

(** Each mutation is its remote call, then [invalidateCache], then the
    rest, run from the invalidated repository. *)
Lemma delete_run (id : string) r n (resp : IApiResponse.t unit) h1 n1 :
  Validator.validateId id = Return tt ->
  HttpClient.delete ("/api/wireguard/client/" ++ id)%string (httpClient r, n)
  = (Return resp, (h1, n1)) ->
  delete id (r, n) = (Return tt, (invalidated h1 r, n1)).
Proof.
  intros V E. unfold delete. rewrite validate_ok by exact V.
  now rewrite (http_run _ _ _ _ _ _ _ E).
Qed.

Lemma updateName_run (id name : string) r n
      (resp : IApiResponse.t IClientData.t) h1 n1 :
  Validator.validateId id = Return tt ->
  Validator.validateClientName name = Return tt ->
  HttpClient.put ("/api/wireguard/client/" ++ id ++ "/name")%string
    (Some [("name", name)]%string) (httpClient r, n)
  = (Return resp, (h1, n1)) ->
  updateName id name (r, n) = update_tail id resp (invalidated h1 r, n1).
Proof.
  intros V1 V2 E. unfold updateName. rewrite !validate_ok by assumption.
  now rewrite (http_run _ _ _ _ _ _ _ E).
Qed.

Lemma updateAddress_run (id address : string) r n
      (resp : IApiResponse.t IClientData.t) h1 n1 :
  Validator.validateId id = Return tt ->
  Validator.validateIPAddress address = Return tt ->
  HttpClient.put ("/api/wireguard/client/" ++ id ++ "/address")%string
    (Some [("address", address)]%string) (httpClient r, n)
  = (Return resp, (h1, n1)) ->
  updateAddress id address (r, n) = update_tail id resp (invalidated h1 r, n1).
Proof.
  intros V1 V2 E. unfold updateAddress. rewrite !validate_ok by assumption.
  now rewrite (http_run _ _ _ _ _ _ _ E).
Qed.

Lemma enable_run (id : string) r n (resp : IApiResponse.t IClientData.t) h1 n1 :
  Validator.validateId id = Return tt ->
  HttpClient.post ("/api/wireguard/client/" ++ id ++ "/enable")%string None
    (httpClient r, n)
  = (Return resp, (h1, n1)) ->
  enable id (r, n) = update_tail id resp (invalidated h1 r, n1).
Proof.
  intros V E. unfold enable. rewrite validate_ok by exact V.
  now rewrite (http_run _ _ _ _ _ _ _ E).
Qed.

Lemma disable_run (id : string) r n (resp : IApiResponse.t IClientData.t) h1 n1 :
  Validator.validateId id = Return tt ->
  HttpClient.post ("/api/wireguard/client/" ++ id ++ "/disable")%string None
    (httpClient r, n)
  = (Return resp, (h1, n1)) ->
  disable id (r, n) = update_tail id resp (invalidated h1 r, n1).
Proof.
  intros V E. unfold disable. rewrite validate_ok by exact V.
  now rewrite (http_run _ _ _ _ _ _ _ E).
Qed.

Lemma create_run (dto : IClientCreateDTO.t) r n
      (resp : IApiResponse.t IClientData.t) h1 n1 :
  Validator.validateClientCreateDTO dto = Return tt ->
  HttpClient.post "/api/wireguard/client"
    (Some [("name", IClientCreateDTO.name dto)]%string) (httpClient r, n)
  = (Return resp, (h1, n1)) ->
  create dto (r, n) = create_tail dto resp (invalidated h1 r, n1).
Proof.
  intros V E. unfold create. rewrite validate_ok by exact V.
  now rewrite (http_run _ _ _ _ _ _ _ E).
Qed.
End RepositoryLaws.

(** C1, as the code has it.  For each of create, delete, updateName,
    updateAddress, enable and disable: once the remote call has returned, the
    cache is invalidated before anything else happens, whatever the response
    carried.  When the operation is over the repository holds no snapshot, or
    holds the snapshot of a GET the operation itself issued after its remote
    call (the forced refetch of create, the [findById] of an update without
    a body).  So the next [findAll()] never serves the snapshot cached before
    the mutation: it takes the path of a forced refresh, or returns that
    post-mutation snapshot. *)
Theorem C1_invalidate_on_write :
  forall (host : Host) (r : ClientRepository.t) (n : Net.t),
    let after {A : Type} (run : Outcome A * ClientRepository.State)
              (h1 : HttpClient.t) (n1 : Net.t) : Prop :=
      RepositorySpec.fresh_after h1 n1 (snd run)
      /\ RepositorySpec.next_read_is_fresh h1 n1 (snd run) in
    (forall (dto : IClientCreateDTO.t) resp h1 n1,
        Validator.validateClientCreateDTO dto = Return tt ->
        HttpClient.post "/api/wireguard/client"
          (Some [("name", IClientCreateDTO.name dto)]%string)
          (ClientRepository.httpClient r, n)
        = (Return resp, (h1, n1)) ->
        ClientRepository.create dto (r, n)
        = RepositorySpec.create_tail dto resp (RepositorySpec.invalidated h1 r, n1)
        /\ after (ClientRepository.create dto (r, n)) h1 n1)
    /\ (forall (id : string) resp h1 n1,
          Validator.validateId id = Return tt ->
          HttpClient.delete ("/api/wireguard/client/" ++ id)%string
            (ClientRepository.httpClient r, n)
          = (Return resp, (h1, n1)) ->
          ClientRepository.delete id (r, n)
          = (Return tt, (RepositorySpec.invalidated h1 r, n1))
          /\ after (ClientRepository.delete id (r, n)) h1 n1)
    /\ (forall (id name : string) resp h1 n1,
          Validator.validateId id = Return tt ->
          Validator.validateClientName name = Return tt ->
          HttpClient.put ("/api/wireguard/client/" ++ id ++ "/name")%string
            (Some [("name", name)]%string) (ClientRepository.httpClient r, n)
          = (Return resp, (h1, n1)) ->
          ClientRepository.updateName id name (r, n)
          = RepositorySpec.update_tail id resp (RepositorySpec.invalidated h1 r, n1)
          /\ after (ClientRepository.updateName id name (r, n)) h1 n1)
    /\ (forall (id address : string) resp h1 n1,
          Validator.validateId id = Return tt ->
          Validator.validateIPAddress address = Return tt ->
          HttpClient.put ("/api/wireguard/client/" ++ id ++ "/address")%string
            (Some [("address", address)]%string) (ClientRepository.httpClient r, n)
          = (Return resp, (h1, n1)) ->
          ClientRepository.updateAddress id address (r, n)
          = RepositorySpec.update_tail id resp (RepositorySpec.invalidated h1 r, n1)
          /\ after (ClientRepository.updateAddress id address (r, n)) h1 n1)
    /\ (forall (id : string) resp h1 n1,
          Validator.validateId id = Return tt ->
          HttpClient.post ("/api/wireguard/client/" ++ id ++ "/enable")%string None
            (ClientRepository.httpClient r, n)
          = (Return resp, (h1, n1)) ->
          ClientRepository.enable id (r, n)
          = RepositorySpec.update_tail id resp (RepositorySpec.invalidated h1 r, n1)
          /\ after (ClientRepository.enable id (r, n)) h1 n1)
    /\ (forall (id : string) resp h1 n1,
          Validator.validateId id = Return tt ->
          HttpClient.post ("/api/wireguard/client/" ++ id ++ "/disable")%string None
            (ClientRepository.httpClient r, n)
          = (Return resp, (h1, n1)) ->
          ClientRepository.disable id (r, n)
          = RepositorySpec.update_tail id resp (RepositorySpec.invalidated h1 r, n1)
          /\ after (ClientRepository.disable id (r, n)) h1 n1).
Proof.
  intros host r n after.
  assert (A : forall (B : Type) (run : Outcome B * ClientRepository.State) h1 n1,
             RepositorySpec.fresh_after h1 n1 (snd run) -> after B run h1 n1).
  { intros B run h1 n1 F. split; [exact F | now apply fresh_next_read]. }
  split; [|split; [|split; [|split; [|split]]]];
    intros; (split; [|apply A]).
  - now apply create_run.
  - rewrite (create_run dto r n resp h1 n1) by assumption.
    apply create_tail_fresh.
  - eapply delete_run; eassumption.
  - rewrite (delete_run id r n resp h1 n1) by assumption.
    left. now split.
  - now apply updateName_run.
  - rewrite (updateName_run id name r n resp h1 n1) by assumption.
    now apply update_tail_fresh.
  - now apply updateAddress_run.
  - rewrite (updateAddress_run id address r n resp h1 n1) by assumption.
    now apply update_tail_fresh.
  - now apply enable_run.
  - rewrite (enable_run id r n resp h1 n1) by assumption.
    now apply update_tail_fresh.
  - now apply disable_run.
  - rewrite (disable_run id r n resp h1 n1) by assumption.
    now apply update_tail_fresh.
Qed.

Section CreateThenRead.
Import (hints) Sample.

(** C1 as the spec words it fails for create: the forced refetch of create
  fills the cache again, so the [findAll()] that follows is served from
  that snapshot and makes no call to the service. *)
Lemma C1_read_after_create_is_cached :
let st0 := (Sample.repository, Sample.creation) in
let st1 := snd (ClientRepository.create Sample.dev1 st0) in
fst (ClientRepository.create Sample.dev1 st0)
= Return (Client.new (Sample.record "dev-1"))
/\ ~ RepositorySpec.next_read_refetches st1
/\ ClientRepository.findAll false st1
   = (Return (ClientCollection.fromRawData
                [Sample.record "alpha"; Sample.record "dev-1"]), st1).
Proof.
cbv zeta. split; [vm_compute; reflexivity|]. split.
- unfold RepositorySpec.next_read_refetches. vm_compute. lia.
- vm_compute. reflexivity.
Qed.
End CreateThenRead.

Section CreateFacts.
Context {A : Type} (p : A -> bool).

Lemma find_skips (l1 l2 : list A) :
  (forall x, In x l1 -> p x = false) -> find p (l1 ++ l2) = find p l2.
Proof.
  induction l1 as [|a l1 IH]; intros H; simpl; [reflexivity|].
  rewrite (H a) by now left. apply IH. intros x Hx. apply H. now right.
Qed.

Lemma find_last_intro (l older newer : list A) (c : A) :
  l = older ++ c :: newer -> p c = true ->
  (forall x, In x newer -> p x = false) ->
  Js.find p (rev l) = Some c.
Proof.
  intros -> Hc Hn. unfold Js.find. rewrite rev_app_distr. simpl.
  rewrite <- app_assoc, find_skips.
  - simpl. now rewrite Hc.
  - intros x Hx. apply Hn. now apply in_rev.
Qed.

Lemma find_none_intro (l : list A) :
  (forall x, In x l -> p x = false) -> Js.find p (rev l) = None.
Proof.
  intros H. unfold Js.find.
  rewrite <- (app_nil_r (rev l)), find_skips; [reflexivity|].
  intros x Hx. apply H. now apply in_rev.
Qed.
End CreateFacts.

Lemma same_name_iff (a b : string) :
  String.eqb (Js.toLowerCase a) (Js.toLowerCase b) = true
  <-> Spec.eq_ignore_case a b.
Proof. rewrite eq_ignore_case_iff. apply String.eqb_eq. Qed.

Lemma same_name_false_iff (a b : string) :
  String.eqb (Js.toLowerCase a) (Js.toLowerCase b) = false
  <-> ~ Spec.eq_ignore_case a b.
Proof. rewrite eq_ignore_case_iff. apply String.eqb_neq. Qed.

(** C2. When the POST of [create(dto)] reports success, the repository
    fetches the whole collection again, whatever its cache held.  If that
    GET throws, the error propagates.  Otherwise, in the snapshot of its
    response, the record returned is the last one whose name equals
    [dto.name] up to letter case; when there is none, create raises
    [Failed to find created client with name: ...] although the remote call
    succeeded.  One of the two cases always applies. *)
Theorem C2_create_locates_newest :
  forall (host : Host) (dto : IClientCreateDTO.t)
         (r : ClientRepository.t) (n : Net.t)
         (resp : IApiResponse.t IClientData.t) (h1 : HttpClient.t) (n1 : Net.t)
         (og : Outcome (IApiResponse.t (list IClientData.t)))
         (h2 : HttpClient.t) (n2 : Net.t),
    Validator.validateClientCreateDTO dto = Return tt ->
    HttpClient.post "/api/wireguard/client"
      (Some [("name", IClientCreateDTO.name dto)]%string)
      (ClientRepository.httpClient r, n)
    = (Return resp, (h1, n1)) ->
    IApiResponse.success resp = true ->
    HttpClient.get RepositorySpec.clients_path (h1, n1) = (og, (h2, n2)) ->
    match og with
    | Throw e =>
        ClientRepository.create dto (r, n)
        = (Throw e, (RepositorySpec.invalidated h2 r, n2))
    | Return g =>
        let name := IClientCreateDTO.name dto in
        let records := ClientCollection.toArray (RepositorySpec.snapshot_of g) in
        let st' :=
          (match RepositorySpec.usable g with
           | Some data =>
               ClientRepository.mk h2 (Some (ClientCollection.fromRawData data))
                 (Some (Net.now n2)) (ClientRepository.cacheTTL r)
           | None => RepositorySpec.invalidated h2 r
           end, n2) in
        (forall c, RepositorySpec.newest_named name records c ->
                   ClientRepository.create dto (r, n) = (Return c, st'))
        /\ (RepositorySpec.none_named name records ->
            ClientRepository.create dto (r, n)
            = (Throw (Exceptions.Error
                        ("Failed to find created client with name: " ++ name)%string),
               st'))
        /\ ((exists c, RepositorySpec.newest_named name records c)
            \/ RepositorySpec.none_named name records)
    end.
Proof.
  intros host dto r n resp h1 n1 og h2 n2 V Epost Hok Eget.
  rewrite (create_run dto r n resp h1 n1 V Epost).
  unfold RepositorySpec.create_tail. rewrite Hok. cbn [negb].
  unfold bind. rewrite findAll_refresh. cbn [ClientRepository.httpClient
    RepositorySpec.invalidated ClientRepository.cacheTTL]. rewrite Eget.
  destruct og as [g|e]; [|reflexivity].
  cbv zeta. unfold RepositorySpec.snapshot_of.
  set (p := fun c : Client.t =>
              String.eqb (Js.toLowerCase (Client.name c))
                         (Js.toLowerCase (IClientCreateDTO.name dto))).
  assert (G : forall (snapshot : ClientCollection.t) (st' : ClientRepository.State),
    let records := ClientCollection.toArray snapshot in
    let run :=
      match Js.find p (rev records) with
      | Some client => ret client
      | None =>
          throw (Exceptions.Error
                   ("Failed to find created client with name: "
                    ++ IClientCreateDTO.name dto)%string)
      end st' in
    (forall c, RepositorySpec.newest_named (IClientCreateDTO.name dto) records c ->
               run = (Return c, st'))
    /\ (RepositorySpec.none_named (IClientCreateDTO.name dto) records ->
        run = (Throw (Exceptions.Error
                        ("Failed to find created client with name: "
                         ++ IClientCreateDTO.name dto)%string), st'))
    /\ ((exists c, RepositorySpec.newest_named (IClientCreateDTO.name dto) records c)
        \/ RepositorySpec.none_named (IClientCreateDTO.name dto) records)).
  { intros snapshot st' records run. split; [|split].
    - intros c (older & newer & Hl & Hc & Hn). unfold run.
      rewrite (find_last_intro p records older newer c Hl).
      + reflexivity.
      + now apply same_name_iff.
      + intros x Hx. apply same_name_false_iff. now apply Hn.
    - intros Hnone. unfold run. rewrite (find_none_intro p records).
      + reflexivity.
      + intros x Hx. apply same_name_false_iff. now apply Hnone.
    - pose proof (find_last_spec p records) as S.
      destruct (Js.find p (rev records)) as [c|].
      + left. exists c. destruct S as (older & newer & Hl & Hc & Hn).
        exists older, newer. split; [exact Hl|]. split.
        * now apply same_name_iff.
        * intros x Hx. apply same_name_false_iff. now apply Hn.
      + right. intros x Hx. apply same_name_false_iff. now apply S. }
  destruct (RepositorySpec.usable g) as [data|]; apply G.
Qed.

(** C10. When the GET behind [findAll] returns (no error is thrown) with a
    non-success status or without a body, [findAll] returns an empty
    collection and leaves the cache and its timestamp as they were; a
    [findById] whose [findAll()] meets that response raises
    [ClientNotFoundException] for the id, for every id that passes
    [validateId] (the others never reach the network). *)
Theorem C10_unusable_fetch_is_empty :
  forall (host : Host) (r : ClientRepository.t) (n : Net.t)
         (g : IApiResponse.t (list IClientData.t)) (h1 : HttpClient.t) (n1 : Net.t),
    HttpClient.get RepositorySpec.clients_path (ClientRepository.httpClient r, n)
    = (Return g, (h1, n1)) ->
    IApiResponse.success g = false \/ IApiResponse.data g = None ->
    let r' := ClientRepository.with_httpClient h1 r in
    (forall forceRefresh : bool,
        forceRefresh = true
        \/ ClientRepository.isCacheValid (Net.now n) r = false ->
        ClientRepository.findAll forceRefresh (r, n)
        = (Return (ClientCollection.new []), (r', n1)))
    /\ ClientCollection.toArray (ClientCollection.new []) = []
    /\ ClientCollection.size (ClientCollection.new []) = 0
    /\ ClientRepository.cache r' = ClientRepository.cache r
    /\ ClientRepository.cacheTimestamp r' = ClientRepository.cacheTimestamp r
    /\ (ClientRepository.isCacheValid (Net.now n) r = false ->
        forall id : string,
          Validator.validateId id = Return tt ->
          ClientRepository.findById id (r, n)
          = (Throw (Exceptions.ClientNotFoundException id), (r', n1))).
Proof.
  intros host r n g h1 n1 Eget Hbad r'.
  assert (U : RepositorySpec.usable g = None).
  { unfold RepositorySpec.usable. destruct Hbad as [-> | ->]; [reflexivity|].
    now destruct (IApiResponse.success g). }
  assert (F : ClientRepository.findAll true (r, n)
              = (Return (ClientCollection.new []), (r', n1))).
  { rewrite findAll_refresh, Eget. now rewrite U. }
  split; [|repeat split].
  - intros [|] [Hf|Hs]; try discriminate; try exact F.
    now rewrite findAll_stale.
  - intros Hs id V. unfold ClientRepository.findById.
    rewrite validate_ok by exact V. unfold bind.
    rewrite findAll_stale by exact Hs. rewrite F. reflexivity.
Qed.

(* ================================================================== *)
(** * The notifier *)
(* ================================================================== *)

Section MapLookupFacts.
Context {V : Type}.
Implicit Types (m : Js.Map.t V).

Lemma Map_get_set_same (k : string) (v : V) m :
  Js.Map.get k (Js.Map.set k v m) = Some v.
Proof.
  induction m as [|[k' v'] m IH]; simpl.
  - now rewrite String.eqb_refl.
  - destruct (String.eqb_spec k k') as [->|Hne]; simpl.
    + now rewrite String.eqb_refl.
    + destruct (String.eqb_spec k k'); [contradiction | exact IH].
Qed.

Lemma Map_get_set_other (k k' : string) (v : V) m :
  k <> k' -> Js.Map.get k (Js.Map.set k' v m) = Js.Map.get k m.
Proof.
  intros Hne. induction m as [|[k0 v0] m IH]; simpl.
  - destruct (String.eqb_spec k k'); [contradiction | reflexivity].
  - destruct (String.eqb_spec k' k0) as [->|Hne0]; simpl.
    + destruct (String.eqb_spec k k0); [contradiction | reflexivity].
    + now rewrite IH.
Qed.
End MapLookupFacts.

Lemma EventType_eq_dec (a b : EventType.t) : {a = b} + {a <> b}.
Proof. decide equality. Qed.

Lemma EventType_name_inj (a b : EventType.t) :
  EventType.name a = EventType.name b -> a = b.
Proof. destruct a, b; simpl; intros H; try reflexivity; discriminate H. Qed.

Section HandlerSetFacts.
Import HandlerSet.

Lemma delete_absent (x : HandlerRef) (s : t) :
  ~ In x (values s) -> delete x s = s.
Proof.
  induction s as [|[y|] s IH]; simpl; intros H; [reflexivity| |].
  - destruct (Nat.eqb_spec x y) as [->|_].
    + exfalso. apply H. now left.
    + f_equal. apply IH. intros Hin. apply H. now right.
  - f_equal. now apply IH.
Qed.

Lemma delete_idem (x : HandlerRef) (s : t) : delete x (delete x s) = delete x s.
Proof.
  unfold delete. rewrite map_map. apply map_ext. intros [y|]; simpl; [|reflexivity].
  destruct (Nat.eqb_spec x y); simpl; [reflexivity|].
  now destruct (Nat.eqb_spec x y).
Qed.

(** A set never lists a member twice: [add] and [delete] keep it so. *)
Lemma has_iff (x : HandlerRef) (s : t) : has x s = true <-> In x (values s).
Proof.
  unfold has, values. induction s as [|[y|] s IH]; simpl.
  - split; [discriminate | intros []].
  - rewrite orb_true_iff, IH, Nat.eqb_eq. split; intros [H|H]; auto.
  - exact IH.
Qed.

Lemma values_app (s s' : t) : values (s ++ s') = values s ++ values s'.
Proof. apply flat_map_app. Qed.

Lemma add_NoDup (x : HandlerRef) (s : t) :
  NoDup (values s) -> NoDup (values (add x s)).
Proof.
  intros H. unfold add. destruct (has x s) eqn:E; [exact H|].
  rewrite values_app. simpl. apply NoDup_app; [exact H | repeat constructor; intros [] |].
  intros y Hy [Hxy|[]]. subst y. apply has_iff in Hy. congruence.
Qed.

Lemma values_delete (x : HandlerRef) (s : t) :
  values (delete x s) = List.filter (fun y => negb (Nat.eqb x y)) (values s).
Proof.
  unfold delete, values. induction s as [|[y|] s IH]; simpl; [reflexivity| |exact IH].
  destruct (Nat.eqb x y); simpl; now rewrite IH.
Qed.

Lemma delete_NoDup (x : HandlerRef) (s : t) :
  NoDup (values s) -> NoDup (values (delete x s)).
Proof. intros H. rewrite values_delete. now apply NoDup_filter. Qed.

Lemma skipn_delete (i : nat) (x : HandlerRef) (s : t) :
  skipn i (delete x s) = delete x (skipn i s).
Proof. unfold delete. apply skipn_map. Qed.

Lemma skipn_cons_inv {A : Type} (i : nat) (l r : list A) (e : A) :
  skipn i l = e :: r -> nth_error l i = Some e /\ skipn (S i) l = r.
Proof.
  revert l. induction i as [|i IH]; intros l H.
  - destruct l; simpl in *; [discriminate|]. injection H as -> ->. now split.
  - destruct l; simpl in H; [discriminate|]. now apply IH in H.
Qed.

Lemma skipn_nil_inv {A : Type} (i : nat) (l : list A) :
  skipn i l = [] -> nth_error l i = None.
Proof.
  revert l. induction i as [|i IH]; intros l H.
  - now destruct l.
  - destruct l; simpl in *; [reflexivity | now apply IH].
Qed.
End HandlerSetFacts.

Section EmitterFacts.
Import EventEmitter NotifierSpec.

Lemma off_same (event : EventType.t) (h : HandlerRef) (em : t) (cur : HandlerSet.t) :
  Js.Map.get (EventType.name event) (handlers em) = Some cur ->
  Js.Map.get (EventType.name event) (handlers (off event h em))
  = Some (HandlerSet.delete h cur).
Proof. intros E. unfold off. rewrite E. simpl. apply Map_get_set_same. Qed.

Lemma off_other (event event' : EventType.t) (h : HandlerRef) (em : t) :
  event' <> event ->
  Js.Map.get (EventType.name event) (handlers (off event' h em))
  = Js.Map.get (EventType.name event) (handlers em).
Proof.
  intros Hne. unfold off.
  destruct (Js.Map.get (EventType.name event') (handlers em)); [|reflexivity].
  simpl. apply Map_get_set_other. intros E. apply Hne.
  symmetry. now apply EventType_name_inj.
Qed.

Lemma on_other (event event' : EventType.t) (h : HandlerRef) (em : t) :
  event' <> event ->
  Js.Map.get (EventType.name event) (handlers (on event' h em))
  = Js.Map.get (EventType.name event) (handlers em).
Proof.
  intros Hne.
  assert (N : EventType.name event <> EventType.name event').
  { intros E. apply Hne. symmetry. now apply EventType_name_inj. }
  unfold on.
  destruct (Js.Map.has (EventType.name event') (handlers em)).
  - destruct (Js.Map.get (EventType.name event') (handlers em)); [|reflexivity].
    simpl. now apply Map_get_set_other.
  - rewrite Map_get_set_same. simpl.
    now rewrite !Map_get_set_other by exact N.
Qed.

(** The calls of a run that keeps to itself leave the set of the event as
    it was, or without the handler that ran. *)
Lemma calls_keep_set (event : EventType.t) (self : HandlerRef) (cs : list Call) :
  forall (em : t) (cur : HandlerSet.t),
    Forall (fun c => match c with
                     | On event' _ => event' <> event
                     | Off event' handler => event' = event -> handler = self
                     end) cs ->
    Js.Map.get (EventType.name event) (handlers em) = Some cur ->
    Js.Map.get (EventType.name event)
      (handlers (fold_left (fun em c => perform c em) cs em)) = Some cur
    \/ Js.Map.get (EventType.name event)
         (handlers (fold_left (fun em c => perform c em) cs em))
       = Some (HandlerSet.delete self cur).
Proof.
  induction cs as [|c cs IH]; intros em cur Hk E; simpl; [now left|].
  inversion Hk as [|? ? Hc Hcs]; subst.
  assert (S1 : Js.Map.get (EventType.name event) (handlers (perform c em)) = Some cur
               \/ Js.Map.get (EventType.name event) (handlers (perform c em))
                  = Some (HandlerSet.delete self cur)).
  { destruct c as [event' h|event' h]; cbn [perform].
    - left. now rewrite on_other.
    - destruct (EventType_eq_dec event' event) as [->|Hne].
      + right. rewrite (Hc eq_refl). now apply off_same.
      + left. now rewrite off_other. }
  destruct S1 as [S1|S1].
  - now apply IH.
  - destruct (IH _ _ Hcs S1) as [H|H]; right; [exact H|].
    now rewrite delete_idem in H.
Qed.
End EmitterFacts.

Section EmitLaws.
Import EventEmitter NotifierSpec.
Context {Data Observers : Type}.
Variable code : HandlerRef -> Data -> Observers -> Observers * Run.
Implicit Types (w : World (Observers := Observers)).

Lemma invoke_emitter (event : EventType.t) (data : Data) (h : HandlerRef) w :
  emitter (invoke code event data h w)
  = fold_left (fun em c => perform c em)
      (calls (snd (code h data (observers w)))) (emitter w).
Proof. unfold invoke. now destruct (code h data (observers w)). Qed.

Lemma invoke_invoked (event : EventType.t) (data : Data) (h : HandlerRef) w :
  invoked (invoke code event data h w) = invoked w ++ [h].
Proof. unfold invoke. now destruct (code h data (observers w)). Qed.

Lemma invoke_console (event : EventType.t) (data : Data) (h : HandlerRef) w :
  console (invoke code event data h w)
  = console w
    ++ match thrown (snd (code h data (observers w))) with
       | Some e =>
           [(("Error in event handler for " ++ EventType.name event ++ ":")%string, e)]
       | None => []
       end.
Proof.
  unfold invoke. destruct (code h data (observers w)) as [obs run]. simpl.
  destruct (thrown run); [reflexivity | now rewrite app_nil_r].
Qed.

Lemma notify_all_invoked (event : EventType.t) (data : Data) (hs : list HandlerRef) :
  forall w, invoked (notify_all code event data hs w) = invoked w ++ hs.
Proof.
  unfold notify_all. induction hs as [|h hs IH]; intros w; cbn [fold_left].
  - now rewrite app_nil_r.
  - rewrite IH, invoke_invoked, <- app_assoc. reflexivity.
Qed.

(** The loop over the entries still to visit, when the handlers keep to
    themselves: each of them is invoked, in order. *)
Lemma forEach_from_keeps (event : EventType.t) (data : Data) :
  forall (rest : HandlerSet.t) (index steps : nat) w (cur : HandlerSet.t),
    Js.Map.get (EventType.name event) (handlers (emitter w)) = Some cur ->
    skipn index cur = rest ->
    NoDup (HandlerSet.values rest) ->
    (forall h, In h (HandlerSet.values rest) ->
               forall d obs, keeps_to_itself event h (snd (code h d obs))) ->
    (List.length rest < steps)%nat ->
    forEach_from code steps index event data w
    = Some (notify_all code event data (HandlerSet.values rest) w).
Proof.
  induction rest as [|e rest IH]; intros index steps w cur E Hskip Hnd Hk Hsteps;
    (destruct steps as [|steps]; [simpl in Hsteps; lia|]);
    cbn [forEach_from]; rewrite E.
  - now rewrite (skipn_nil_inv _ _ Hskip).
  - destruct (skipn_cons_inv _ _ _ _ Hskip) as [Hnth Hrest]. rewrite Hnth.
    destruct e as [h|].
    + cbn [HandlerSet.values flat_map app] in *.
      apply NoDup_cons_iff in Hnd as [Hnin Hnd'].
      assert (Hset : exists cur',
        Js.Map.get (EventType.name event)
          (handlers (emitter (invoke code event data h w))) = Some cur'
        /\ skipn (S index) cur' = rest).
      { rewrite invoke_emitter.
        destruct (calls_keep_set event h _ (emitter w) cur
                    (Hk h (or_introl eq_refl) data (observers w)) E) as [H|H].
        - now exists cur.
        - exists (HandlerSet.delete h cur). split; [exact H|].
          rewrite skipn_delete, Hrest. now apply delete_absent. }
      destruct Hset as (cur' & E' & Hskip').
      rewrite (IH (S index) steps _ cur' E' Hskip' Hnd').
      * reflexivity.
      * intros h' Hin. apply Hk. now right.
      * simpl in Hsteps. lia.
    + cbn [HandlerSet.values flat_map app] in *.
      apply (IH (S index) steps w cur E Hrest Hnd Hk). simpl in Hsteps. lia.
Qed.

(** *** The iteration over the live set *)

Lemma turns_succ (event : EventType.t) (data : Data) w (j : nat) :
  turns code event data w (S j)
  = match nth_error (entries event (emitter (turns code event data w j))) j with
    | Some (Some handler) => invoke code event data handler (turns code event data w j)
    | _ => turns code event data w j
    end.
Proof. reflexivity. Qed.

(** Once no entry is left nothing happens any more. *)
Lemma ended_stable (event : EventType.t) (data : Data) w (k : nat) :
  ended code event data w k ->
  forall m, turns code event data w (k + m) = turns code event data w k.
Proof.
  intros Hend m. induction m as [|m IH].
  - now rewrite Nat.add_0_r.
  - rewrite Nat.add_succ_r, turns_succ, IH.
    unfold ended in Hend. apply nth_error_None in Hend.
    replace (nth_error _ (k + m)) with (@None (option HandlerRef));
      [reflexivity|].
    symmetry. apply nth_error_None. lia.
Qed.

(** The loop of [emit], from entry [index] on, ends in the world of the
    turn at which no entry is left. *)
Lemma forEach_from_turns (event : EventType.t) (data : Data) w (k : nat) :
  ended code event data w k ->
  forall (steps index : nat),
    (index <= k)%nat -> (k - index < steps)%nat ->
    forEach_from code steps index event data (turns code event data w index)
    = Some (turns code event data w k).
Proof.
  intros Hend. induction steps as [|steps IH]; intros index Hle Hsteps; [lia|].
  cbn [forEach_from]. fold (entries event (emitter (turns code event data w index))).
  destruct (nth_error (entries event (emitter (turns code event data w index))) index)
    as [e|] eqn:E.
  - assert (Hlt : (index < k)%nat).
    { destruct (Nat.eq_dec index k) as [->|]; [|lia].
      unfold ended in Hend. congruence. }
    assert (Hnext : turns code event data w (S index)
                    = match e with
                      | Some handler =>
                          invoke code event data handler
                                 (turns code event data w index)
                      | None => turns code event data w index
                      end).
    { rewrite turns_succ, E. now destruct e. }
    destruct e as [handler|]; rewrite <- Hnext; apply IH; lia.
  - f_equal. replace k with (index + (k - index))%nat by lia.
    symmetry. now apply ended_stable.
Qed.

(** Whatever the loop returns is the world of such a turn. *)
Lemma forEach_from_result (event : EventType.t) (data : Data) w :
  forall (steps index : nat) w',
    forEach_from code steps index event data (turns code event data w index)
    = Some w' ->
    exists k, (index <= k)%nat /\ ended code event data w k
              /\ w' = turns code event data w k.
Proof.
  induction steps as [|steps IH]; intros index w' H; [discriminate H|].
  cbn [forEach_from] in H.
  fold (entries event (emitter (turns code event data w index))) in H.
  destruct (nth_error (entries event (emitter (turns code event data w index))) index)
    as [e|] eqn:E.
  - assert (Hnext : turns code event data w (S index)
                    = match e with
                      | Some handler =>
                          invoke code event data handler
                                 (turns code event data w index)
                      | None => turns code event data w index
                      end).
    { rewrite turns_succ, E. now destruct e. }
    destruct e as [handler|]; rewrite <- Hnext in H;
      destruct (IH _ _ H) as (k & Hk & Hend & ->); exists k; (split; [lia|]);
      now split.
  - injection H as <-. exists index. split; [lia|]. now split.
Qed.

(** A call other than [off(event, h)] leaves the entry of [h] in place. *)
Lemma perform_keeps_entry (event : EventType.t) (h : HandlerRef) (i : nat)
      (c : Call) (em : t) :
  nth_error (entries event em) i = Some (Some h) ->
  c <> Off event h ->
  nth_error (entries event (perform c em)) i = Some (Some h).
Proof.
  intros Hi Hc. unfold entries in *.
  destruct (Js.Map.get (EventType.name event) (handlers em)) as [cur|] eqn:E;
    [|destruct i; discriminate Hi].
  destruct c as [event' h'|event' h']; cbn [perform].
  - destruct (EventType_eq_dec event' event) as [->|Hne].
    + unfold on. unfold Js.Map.has. rewrite E, E. cbn [handlers].
      rewrite Map_get_set_same. unfold HandlerSet.add.
      destruct (HandlerSet.has h' cur); [exact Hi|].
      rewrite nth_error_app1; [exact Hi|].
      apply nth_error_Some. congruence.
    + rewrite on_other by exact Hne. now rewrite E.
  - destruct (EventType_eq_dec event' event) as [->|Hne].
    + rewrite (off_same event h' em cur E). unfold HandlerSet.delete.
      rewrite nth_error_map, Hi. cbn [option_map HandlerSet.is_entry].
      destruct (Nat.eqb_spec h' h) as [->|_]; [now elim Hc | reflexivity].
    + rewrite off_other by exact Hne. now rewrite E.
Qed.

Lemma calls_keep_entry (event : EventType.t) (h : HandlerRef) (i : nat)
      (cs : list Call) :
  forall em : t,
    nth_error (entries event em) i = Some (Some h) ->
    ~ In (Off event h) cs ->
    nth_error (entries event (fold_left (fun em c => perform c em) cs em)) i
    = Some (Some h).
Proof.
  induction cs as [|c cs IH]; intros em Hi Hn; cbn [fold_left]; [exact Hi|].
  apply IH.
  - apply perform_keeps_entry; [exact Hi|]. intros ->. apply Hn. now left.
  - intros H. apply Hn. now right.
Qed.

(** A handler that nobody deregisters before its turn is still in its
    place when its turn comes. *)
Lemma entry_persists (event : EventType.t) (data : Data) w (i : nat)
      (h : HandlerRef) :
  nth_error (entries event (emitter w)) i = Some (Some h) ->
  (forall j g, (j < i)%nat -> visits code event data w j g ->
               ~ In (Off event h) (calls (run_at code event data w j g))) ->
  forall j, (j <= i)%nat ->
            nth_error (entries event (emitter (turns code event data w j))) i
            = Some (Some h).
Proof.
  intros Hi Hoff. induction j as [|j IH]; intros Hj; [exact Hi|].
  rewrite turns_succ.
  destruct (nth_error (entries event (emitter (turns code event data w j))) j)
    as [[g|]|] eqn:E; try (apply IH; lia).
  rewrite invoke_emitter. apply calls_keep_entry; [apply IH; lia|].
  apply (Hoff j g); [lia | exact E].
Qed.

(** The handlers invoked so far are those the turns have found. *)
Lemma invoked_turns (event : EventType.t) (data : Data) w (k : nat) :
  exists l, invoked (turns code event data w k) = invoked w ++ l
            /\ forall i h, (i < k)%nat -> visits code event data w i h -> In h l.
Proof.
  induction k as [|k (l & El & Hl)].
  - exists []. split; [now rewrite app_nil_r | intros i h Hi; lia].
  - rewrite turns_succ.
    destruct (nth_error (entries event (emitter (turns code event data w k))) k)
      as [[g|]|] eqn:E.
    + exists (l ++ [g]). rewrite invoke_invoked, El, app_assoc.
      split; [reflexivity|]. intros i h Hi Hv. apply in_or_app.
      destruct (Nat.eq_dec i k) as [->|Hne].
      * right. unfold visits in Hv. rewrite E in Hv. injection Hv as ->. now left.
      * left. apply (Hl i h); [lia | exact Hv].
    + exists l. split; [exact El|]. intros i h Hi Hv.
      destruct (Nat.eq_dec i k) as [->|Hne].
      * unfold visits in Hv. congruence.
      * apply (Hl i h); [lia | exact Hv].
    + exists l. split; [exact El|]. intros i h Hi Hv.
      destruct (Nat.eq_dec i k) as [->|Hne].
      * unfold visits in Hv. congruence.
      * apply (Hl i h); [lia | exact Hv].
Qed.

(** A call that registers nothing for [event] leaves the number of its
    entries as it was. *)
Lemma perform_keeps_length (event : EventType.t) (c : Call) (em : t) :
  (forall h', c <> On event h') ->
  List.length (entries event (perform c em)) = List.length (entries event em).
Proof.
  intros Hc. unfold entries.
  destruct c as [event' h'|event' h']; cbn [perform].
  - destruct (EventType_eq_dec event' event) as [->|Hne]; [now elim (Hc h')|].
    now rewrite on_other.
  - destruct (EventType_eq_dec event' event) as [->|Hne].
    + destruct (Js.Map.get (EventType.name event) (handlers em)) as [cur|] eqn:E.
      * rewrite (off_same event h' em cur E). unfold HandlerSet.delete.
        apply length_map.
      * unfold off. now rewrite E, E.
    + now rewrite off_other.
Qed.

Lemma calls_keep_length (event : EventType.t) (cs : list Call) :
  forall em : t,
    (forall h', ~ In (On event h') cs) ->
    List.length (entries event (fold_left (fun em c => perform c em) cs em))
    = List.length (entries event em).
Proof.
  induction cs as [|c cs IH]; intros em Hn; cbn [fold_left]; [reflexivity|].
  rewrite IH.
  - apply perform_keeps_length. intros h' ->. apply (Hn h'). now left.
  - intros h' H. apply (Hn h'). now right.
Qed.

(** When the handlers that run register nothing for the kind, the
    iteration is over after the entries there were at the call. *)
Lemma quiet_emission_ends (event : EventType.t) (data : Data) w :
  (forall j g, visits code event data w j g ->
               forall h', ~ In (On event h') (calls (run_at code event data w j g))) ->
  ended code event data w (List.length (entries event (emitter w))).
Proof.
  intros Hq.
  assert (L : forall j, List.length (entries event (emitter (turns code event data w j)))
                        = List.length (entries event (emitter w))).
  { induction j as [|j IH]; [reflexivity|]. rewrite turns_succ.
    destruct (nth_error (entries event (emitter (turns code event data w j))) j)
      as [[g|]|] eqn:E; try exact IH.
    rewrite invoke_emitter, calls_keep_length; [exact IH|].
    apply (Hq j g). exact E. }
  unfold ended. apply nth_error_None. now rewrite L.
Qed.

Lemma values_nth (s : HandlerSet.t) (h : HandlerRef) :
  In h (HandlerSet.values s) <-> exists i, nth_error s i = Some (Some h).
Proof.
  unfold HandlerSet.values. rewrite in_flat_map. split.
  - intros ([x|] & Hin & Hx); [|destruct Hx].
    destruct Hx as [->|[]]. now apply In_nth_error in Hin.
  - intros (i & Hi). exists (Some h). split; [|now left].
    now apply nth_error_In in Hi.
Qed.
End EmitLaws.

(** C9, as the code has it.  [emit] goes through the entries of the live
    set of the kind, one turn per entry.  A turn that finds a handler
    invokes it, and an exception it throws is caught and written to
    [console.error]; the next turn is taken all the same.  When the turns
    come to an end [emit] returns normally, and it never returns otherwise
    than normally.  Every handler registered for the kind at the call is
    invoked, provided no handler that ran before its turn has deregistered
    it; handlers registered during the emission get their turn too, and the
    turns end with the entries of the call when nothing is registered
    meanwhile.  When the handlers neither register for the kind nor
    deregister another handler, they are invoked once each, in registration
    order. *)
Theorem C9_emit_isolates_handlers :
  forall (Data Observers : Type)
         (code : HandlerRef -> Data -> Observers -> Observers * EventEmitter.Run)
         (event : EventType.t) (data : Data)
         (w : EventEmitter.World (Observers := Observers))
         (cur : HandlerSet.t),
    Js.Map.get (EventType.name event)
      (EventEmitter.handlers (EventEmitter.emitter w)) = Some cur ->
    let turn := NotifierSpec.turns code event data w in
    let visits := NotifierSpec.visits code event data w in
    let ended := NotifierSpec.ended code event data w in
    let run_at := NotifierSpec.run_at code event data w in
    (forall j h,
        visits j h ->
        EventEmitter.invoked (turn (S j)) = EventEmitter.invoked (turn j) ++ [h]
        /\ EventEmitter.console (turn (S j))
           = EventEmitter.console (turn j)
             ++ match EventEmitter.thrown (run_at j h) with
                | Some e =>
                    [(("Error in event handler for " ++ EventType.name event ++ ":")%string,
                      e)]
                | None => []
                end)
    /\ (forall k steps,
          ended k -> (k < steps)%nat ->
          EventEmitter.emit code steps event data w = Some (Return tt, turn k))
    /\ (forall steps r,
          EventEmitter.emit code steps event data w = Some r ->
          exists k, ended k /\ r = (Return tt, turn k))
    /\ (forall h,
          In h (EventEmitter.registered event (EventEmitter.emitter w)) ->
          exists i,
            nth_error cur i = Some (Some h)
            /\ ((forall j g, (j < i)%nat -> visits j g ->
                             ~ In (EventEmitter.Off event h)
                                  (EventEmitter.calls (run_at j g))) ->
                visits i h
                /\ forall k, ended k ->
                             In h (skipn (List.length (EventEmitter.invoked w))
                                         (EventEmitter.invoked (turn k)))))
    /\ ((forall j g, visits j g ->
                     forall h', ~ In (EventEmitter.On event h')
                                     (EventEmitter.calls (run_at j g))) ->
        ended (List.length cur))
    /\ (NoDup (HandlerSet.values cur) ->
        (forall h, In h (HandlerSet.values cur) ->
                   forall d obs,
                     NotifierSpec.keeps_to_itself event h (snd (code h d obs))) ->
        forall steps,
          (List.length cur < steps)%nat ->
          EventEmitter.emit code steps event data w
          = Some (Return tt,
                  NotifierSpec.notify_all code event data (HandlerSet.values cur) w)
          /\ EventEmitter.invoked
               (NotifierSpec.notify_all code event data (HandlerSet.values cur) w)
             = EventEmitter.invoked w ++ HandlerSet.values cur).
Proof.
  intros Data Observers code event data w cur E turn visits ended run_at.
  assert (Ecur : NotifierSpec.entries event (EventEmitter.emitter w) = cur).
  { unfold NotifierSpec.entries. now rewrite E. }
  split; [|split; [|split; [|split; [|split]]]].
  - intros j h Hv. unfold turn. rewrite turns_succ. unfold visits in Hv.
    unfold NotifierSpec.visits in Hv. rewrite Hv.
    split; [apply invoke_invoked | apply invoke_console].
  - intros k steps Hend Hsteps. unfold EventEmitter.emit. rewrite E.
    change w with (NotifierSpec.turns code event data w 0) at 1.
    rewrite (forEach_from_turns code event data w k Hend steps 0); [reflexivity|lia|lia].
  - intros steps r H. unfold EventEmitter.emit in H. rewrite E in H.
    destruct (EventEmitter.forEach_from code steps 0 event data w) as [w'|] eqn:F;
      [|discriminate H].
    injection H as <-.
    change w with (NotifierSpec.turns code event data w 0) in F at 1.
    destruct (forEach_from_result code event data w steps 0 w' F) as (k & _ & Hend & ->).
    now exists k.
  - intros h Hreg. unfold EventEmitter.registered in Hreg. rewrite E in Hreg.
    apply values_nth in Hreg as [i Hi]. exists i. split; [exact Hi|].
    intros Hoff.
    assert (Hp : forall j, (j <= i)%nat ->
               nth_error (NotifierSpec.entries event
                            (EventEmitter.emitter
                               (NotifierSpec.turns code event data w j))) i
               = Some (Some h)).
    { apply entry_persists; [now rewrite Ecur | exact Hoff]. }
    assert (Hv : visits i h) by (apply Hp; lia).
    split; [exact Hv|].
    intros k Hend.
    destruct (invoked_turns code event data w k) as (l & El & Hl).
    unfold turn. rewrite El, skipn_app, skipn_all, Nat.sub_diag. cbn [app skipn].
    apply (Hl i h); [|exact Hv].
    destruct (Nat.lt_ge_cases i k) as [Hlt|Hge]; [exact Hlt|].
    exfalso. pose proof (ended_stable code event data w k Hend (i - k)) as St.
    replace (k + (i - k))%nat with i in St by lia.
    unfold visits, NotifierSpec.visits in Hv. rewrite St in Hv.
    unfold ended, NotifierSpec.ended in Hend. apply nth_error_None in Hend.
    assert (N : nth_error (NotifierSpec.entries event
                             (EventEmitter.emitter
                                (NotifierSpec.turns code event data w k))) i = None)
      by (apply nth_error_None; lia).
    congruence.
  - intros Hq. rewrite <- Ecur. now apply quiet_emission_ends.
  - intros Hnd Hk steps Hsteps. split; [|apply notify_all_invoked].
    unfold EventEmitter.emit. rewrite E.
    now rewrite (forEach_from_keeps code event data cur 0 steps w cur E eq_refl Hnd Hk Hsteps).
Qed.

(** C9 as the spec words it fails when a handler deregisters one that has
    not run yet: with handlers 1 and 2 registered for peer-created, in that
    order, and handler 1 calling [off] for handler 2, [emit] invokes
    handler 1 only. *)
Lemma C9_deregistered_handler_is_skipped :
  let w := Sample.listening [1; 2]%nat in
  EventEmitter.registered EventType.client_created (EventEmitter.emitter w)
  = [1; 2]%nat
  /\ option_map (fun r => EventEmitter.invoked (snd r))
       (EventEmitter.emit Sample.handler_code 10 EventType.client_created tt w)
     = Some [1%nat]
  /\ ~ NotifierSpec.invokes_every_registered Sample.handler_code 10
         EventType.client_created tt w.
Proof.
  cbv zeta. split; [reflexivity|]. split; [reflexivity|].
  unfold NotifierSpec.invokes_every_registered. vm_compute.
  intros H. destruct (H 2%nat (or_intror (or_introl eq_refl))) as [X|[]].
  discriminate X.
Qed.

(** A throwing handler, one that registers handler 7 while it runs, a
    plain one and a once-wrapper: all four run, then handler 7, and the
    error of the first is logged. *)
Lemma C9_emit_isolates_handlers_witness :
  option_map (fun r => (fst r, EventEmitter.invoked (snd r),
                        List.length (EventEmitter.console (snd r))))
    (EventEmitter.emit Sample.handler_code 6 EventType.client_created tt
       (Sample.listening [3; 6; 5; 4]%nat))
  = Some (Return tt, [3; 6; 5; 4; 7]%nat, 1%nat)
  /\ In 5%nat
       (EventEmitter.invoked
          (NotifierSpec.turns Sample.handler_code EventType.client_created tt
             (Sample.listening [3; 6; 5; 4]%nat) 5)).
Proof.
  destruct (C9_emit_isolates_handlers unit unit Sample.handler_code
              EventType.client_created tt (Sample.listening [3; 6; 5; 4]%nat)
              [Some 3; Some 6; Some 5; Some 4]%nat eq_refl)
    as (_ & Hret & _ & Hreg & _).
  split.
  - rewrite (Hret 5%nat 6%nat); [reflexivity | reflexivity | lia].
  - destruct (Hreg 5%nat) as (i & Hi & Hrun).
    + vm_compute. tauto.
    + assert (Ei : i = 2%nat).
      { destruct i as [|[|[|[|i]]]]; try discriminate Hi; [reflexivity|].
        destruct i; discriminate Hi. }
      subst i. destruct Hrun as [_ Hin].
      * intros j g Hj Hv.
        destruct j as [|[|j]]; [| |lia]; vm_compute in Hv; injection Hv as <-;
          vm_compute; intuition discriminate.
      * apply (Hin 5%nat). reflexivity.
Defined.

(* ================================================================== *)
(** * The laws at work on the sample worlds *)
(* ================================================================== *)

Section Witnesses.
Import (hints) Sample.


(** After a listing has filled the cache, a deletion empties it. *)
Lemma C1_invalidate_on_write_witness :
let st1 := snd (ClientRepository.findAll false
                  (Sample.repository, Sample.deletion)) in
ClientRepository.cache (fst st1)
= Some (ClientCollection.fromRawData [Sample.record "alpha"; Sample.record "dev-1"])
/\ ClientRepository.cache
     (fst (snd (ClientRepository.delete "id-dev-1" (fst st1, snd st1))))
   = None.
Proof.
cbv zeta. split; [vm_compute; reflexivity|].
set (st1 := snd (ClientRepository.findAll false
                   (Sample.repository, Sample.deletion))).
destruct (HttpClient.delete (T := unit) "/api/wireguard/client/id-dev-1"
            (ClientRepository.httpClient (fst st1), snd st1))
  as [[resp|e] [h1 n1]] eqn:E; [|vm_compute in E; discriminate E].
destruct (C1_invalidate_on_write Sample.host (fst st1) (snd st1))
  as (_ & Hdelete & _).
destruct (Hdelete "id-dev-1"%string resp h1 n1 eq_refl E) as [Hrun _].
rewrite Hrun. reflexivity.
Defined.

(** Of dev-1 and DEV-1, create returns the one listed last. *)
Lemma C2_create_locates_newest_witness :
fst (ClientRepository.create Sample.dev1 (Sample.repository, Sample.homonyms))
= Return (Client.new (Sample.record "DEV-1")).
Proof.
destruct (HttpClient.post (T := IClientData.t) "/api/wireguard/client"
            (Some [("name", IClientCreateDTO.name Sample.dev1)]%string)
            (ClientRepository.httpClient Sample.repository, Sample.homonyms))
  as [[resp|e] [h1 n1]] eqn:Epost; [|vm_compute in Epost; discriminate Epost].
assert (Hok : IApiResponse.success resp = true).
{ vm_compute in Epost. now injection Epost as <- _ _. }
destruct (HttpClient.get (T := list IClientData.t) RepositorySpec.clients_path (h1, n1))
  as [og [h2 n2]] eqn:Eget.
assert (Hg : og = Return (IApiResponse.mk true
                            (Some (map Sample.record ["alpha"; "dev-1"; "beta"; "DEV-1"]%string))
                            200)).
{ vm_compute in Epost. injection Epost as _ <- <-.
  vm_compute in Eget. now injection Eget as <- _ _. }
pose proof (C2_create_locates_newest Sample.host Sample.dev1 Sample.repository
              Sample.homonyms resp h1 n1 og h2 n2 eq_refl Epost Hok Eget) as H.
rewrite Hg in H. cbv zeta in H. destruct H as [H _].
rewrite (H (Client.new (Sample.record "DEV-1"))); [reflexivity|].
exists (map Client.new (map Sample.record ["alpha"; "dev-1"; "beta"]%string)), [].
split; [reflexivity|].
split; [apply eq_ignore_case_iff; reflexivity | intros x []].
Defined.


(** The first call outlasts the timeout: [TimeoutException], one fetch. *)
Lemma C4_timeout_is_final_witness :
HttpClient.request (T := list IClientData.t) Sample.list_clients
  (Sample.transport, Sample.sluggish)
= (Throw (Exceptions.TimeoutException 30000),
   (Sample.transport,
    TransportSpec.after_fetch Sample.transport Sample.list_clients Sample.sluggish))
/\ Net.fetched
     (TransportSpec.after_fetch Sample.transport Sample.list_clients Sample.sluggish)
   = 1%nat.
Proof.
destruct (C4_timeout_is_final (list IClientData.t) _ _ Sample.transport
            Sample.sluggish Sample.list_clients)
  as (Hreq & _ & Hf & _).
- unfold TransportSpec.exceeds_timeout. simpl. lia.
- split; [apply Hreq; simpl; lia | exact Hf].
Defined.


(** Five records in pages of two: the second page, and the page before
  page 0, which holds the second and the third record. *)
Lemma C6_paginate_law_witness :
IPaginatedResult.totalPages
  (ClientCollection.paginate (IPaginationOptions.mk 2 2)
     (ClientCollection.new Sample.peers))
= Js.Num 3
/\ IPaginatedResult.items
     (ClientCollection.paginate (IPaginationOptions.mk 2 2)
        (ClientCollection.new Sample.peers))
   = [Sample.peer "charlie" true 0; Sample.peer "delta" true 7]
/\ IPaginatedResult.items
     (ClientCollection.paginate (IPaginationOptions.mk (-1) 2)
        (ClientCollection.new Sample.peers))
   = [Sample.peer "Bravo" false 0; Sample.peer "charlie" true 0].
Proof.
split; [|split].
- destruct (C6_paginate_law Sample.peers 2 2 ltac:(lia))
    as (T & HT & Hceil & _).
  rewrite HT. f_equal. unfold Spec.is_ceil in Hceil.
  change (ClientCollection.size (ClientCollection.new Sample.peers)) with 5 in Hceil.
  lia.
- destruct (C6_paginate_law Sample.peers 2 2 ltac:(lia))
    as (T & _ & _ & _ & _ & _ & Hpage & _).
  destruct (Hpage ltac:(lia)) as [Hitems _]. rewrite Hitems. reflexivity.
- destruct (C6_paginate_law Sample.peers (-1) 2 ltac:(lia))
    as (T & _ & _ & _ & _ & _ & _ & _ & Hneg & _).
  destruct (Hneg ltac:(lia)) as [Hitems _]. rewrite Hitems. reflexivity.
Defined.



(** A 404 behind [findById]: the id is reported as not found. *)
Lemma C10_unusable_fetch_is_empty_witness :
ClientRepository.findById "id-dev-1" (Sample.repository, Sample.missing)
= (Throw (Exceptions.ClientNotFoundException "id-dev-1"),
   (ClientRepository.with_httpClient Sample.transport Sample.repository,
    TransportSpec.after_fetch Sample.transport Sample.list_clients Sample.missing)).
Proof.
destruct (C10_unusable_fetch_is_empty Sample.host Sample.repository Sample.missing
            (IApiResponse.mk false None 404) Sample.transport
            (TransportSpec.after_fetch Sample.transport Sample.list_clients
               Sample.missing))
  as (_ & _ & _ & _ & _ & Hfind).
- reflexivity.
- now left.
- apply Hfind; reflexivity.
Defined.
End Witnesses.

(** C6 as the spec words it fails: of five records in pages of two, page
    -1 is out of range, and it holds the second and the third record. *)
Lemma C6_page_before_first_is_not_empty :
  Spec.out_of_range (ClientCollection.new Sample.peers) 2 (-1)
  /\ Spec.page_of (ClientCollection.new Sample.peers) 2 (-1)
     = [Sample.peer "Bravo" false 0; Sample.peer "charlie" true 0]
  /\ ~ Spec.empty_out_of_range (ClientCollection.new Sample.peers) 2.
Proof.
  assert (O : Spec.out_of_range (ClientCollection.new Sample.peers) 2 (-1))
    by (left; lia).
  split; [exact O|]. split; [reflexivity|].
  intros H. specialize (H (-1) O). discriminate H.
Qed.

(** C4 as the spec words it fails: with three attempts in the budget and a
    first call that outlasts the timeout, [request] raises
    [TimeoutException] after that one fetch, although the service would
    have answered the second call. *)
Lemma C4_timeout_is_not_retried :
  TransportSpec.exceeds_timeout Sample.transport
    (Net.server Sample.sluggish (Net.fetched Sample.sluggish))
  /\ 1 < HttpClient.retryAttempts Sample.transport
  /\ fst (HttpClient.request (payload := Sample.clients_payload)
            (stringify := Sample.to_json)
            Sample.list_clients (Sample.transport, Sample.sluggish))
     = Throw (Exceptions.TimeoutException 30000)
  /\ Net.fetched
       (snd (snd (HttpClient.request (payload := Sample.clients_payload)
                    (stringify := Sample.to_json)
                    Sample.list_clients (Sample.transport, Sample.sluggish))))
     = 1%nat
  /\ ~ TransportSpec.proceeds_after_timeout (payload := Sample.clients_payload)
         (stringify := Sample.to_json)
         Sample.transport Sample.list_clients Sample.sluggish.
Proof.
  split; [unfold TransportSpec.exceeds_timeout; simpl; lia|].
  split; [simpl; lia|]. split; [reflexivity|]. split; [reflexivity|].
  unfold TransportSpec.proceeds_after_timeout. intros H.
  assert (L : TransportSpec.exceeds_timeout Sample.transport
                (Net.server Sample.sluggish (Net.fetched Sample.sluggish)))
    by (unfold TransportSpec.exceeds_timeout; simpl; lia).
  assert (B : 1 < HttpClient.retryAttempts Sample.transport) by (simpl; lia).
  specialize (H L B). vm_compute in H. lia.
Qed.

(* ================================================================== *)
(** * The scenarios of the specification, run on the model *)
(* ================================================================== *)

Section Scenarios.
Import (hints) Sample.
Local Open Scope m_scope.

(** Twenty-five records in pages of ten. *)
Example scenario_paginate_25 :
let c := ClientCollection.new Sample.crowd in
let first := ClientCollection.paginate (IPaginationOptions.mk 1 10) c in
let third := ClientCollection.paginate (IPaginationOptions.mk 3 10) c in
(List.length (IPaginatedResult.items first),
 IPaginatedResult.totalPages first,
 IPaginatedResult.hasNext first, IPaginatedResult.hasPrev first)
= (10%nat, Js.Num 3, true, false)
/\ (List.length (IPaginatedResult.items third),
    IPaginatedResult.hasNext third, IPaginatedResult.hasPrev third)
   = (5%nat, false, true).
Proof. cbv zeta. split; vm_compute; reflexivity. Qed.

(** A page before the first one is not empty: [slice] counts a negative
  offset from the end. *)
Example scenario_negative_page :
List.length
  (IPaginatedResult.items
     (ClientCollection.paginate (IPaginationOptions.mk (-1) 2)
        (ClientCollection.new Sample.peers)))
= 2%nat.
Proof. vm_compute. reflexivity. Qed.

(** 500, 500, then 200, with three attempts. *)
Example scenario_500_500_200 :
let run := HttpClient.request (T := list IClientData.t) Sample.list_clients
             (Sample.transport, Sample.recovering) in
fst run = Return (IApiResponse.mk true (Some [Sample.record "alpha"]) 200)
/\ Net.delays (Net.trace (snd (snd run))) = [1000; 2000]
/\ Net.now (snd (snd run)) = 3060.
Proof. cbv zeta. repeat split; vm_compute; reflexivity. Qed.

(** A handshake two minutes ago is recent, one four minutes ago is not. *)
Example scenario_freshness_window :
let now := 1700000600000 in
Client.isOnline now (Sample.seen_at (now - 2 * 60 * 1000)) = true
/\ Client.isOnline now (Sample.seen_at (now - 4 * 60 * 1000)) = false
/\ Client.isOnline now (Sample.seen_at (now - 3 * 60 * 1000)) = false.
Proof. cbv zeta. repeat split; vm_compute; reflexivity. Qed.

(** dev-1 is created with its name, then deleted, then not found. *)
Example scenario_create_delete_find :
let run :=
  (created <- ClientRepository.create Sample.dev1 ;;
   ClientRepository.delete (Client.id created) ;;;
   found <- ClientRepository.findById (Client.id created) ;;
   ret (created, found))
    (Sample.repository, Sample.lifecycle) in
fst (ClientRepository.create Sample.dev1 (Sample.repository, Sample.lifecycle))
= Return (Client.new (Sample.record "dev-1"))
/\ fst run = Throw (Exceptions.ClientNotFoundException "id-dev-1")
/\ Net.fetched (snd (snd run)) = 4%nat.
Proof. cbv zeta. repeat split; vm_compute; reflexivity. Qed.

(** Within the TTL a second listing is served from the cache; after it, the
  service is asked again. *)
Example scenario_ttl :
let st1 := snd (ClientRepository.findAll false
                  (Sample.repository, Sample.deletion)) in
let soon := (fst st1, Net.elapse 4000 (snd st1)) in
let late := (fst st1, Net.elapse 5000 (snd st1)) in
Net.fetched (snd st1) = 1%nat
/\ Net.fetched (snd (snd (ClientRepository.findAll false soon))) = 1%nat
/\ fst (ClientRepository.findAll false soon)
   = fst (ClientRepository.findAll false (Sample.repository, Sample.deletion))
/\ Net.fetched (snd (snd (ClientRepository.findAll false late))) = 2%nat.
Proof. cbv zeta. repeat split; vm_compute; reflexivity. Qed.

(** What [parseInt] reads: leading white space is skipped, the no-break
  space included; an integer beyond 2^53 becomes the nearest Number. *)
Example scenario_parseInt :
Js.parseInt (Sample.nbsp ++ " 42 seconds") = Js.Num 42
/\ Js.parseInt "9007199254740993" = Js.Num 9007199254740992
/\ Js.parseInt "9007199254740995" = Js.Num 9007199254740996
/\ Js.parseInt "0x1F" = Js.Num 31
/\ Js.parseInt "soon" = Js.NaN.
Proof. repeat split; vm_compute; reflexivity. Qed.
End Scenarios.

(* ================================================================== *)
(** * More on the transport: bounds and what it surfaces *)
(* ================================================================== *)

Section TransportInvariants.
Import Exceptions TransportSpec SurfaceSpec.
Context {T : Type} {payload : Payload T} {stringify : Stringify}.
Implicit Types (h : HttpClient.t) (n : Net.t) (options : IHttpOptions.t).

Lemma interpret_Return (r : Net.Response) (a : IApiResponse.t T) :
  HttpClient.interpret r = Return a ->
  Net.status r <> 401 /\ Net.status r <> 429 /\ Net.status r < 500
  /\ IApiResponse.statusCode a = Net.status r
  /\ (IApiResponse.success a = true <-> 200 <= Net.status r <= 299).
Proof.
  unfold HttpClient.interpret.
  destruct (Z.eqb_spec (Net.status r) 401); [discriminate|].
  destruct (Z.eqb_spec (Net.status r) 429); [discriminate|].
  destruct (Z.leb_spec 500 (Net.status r)); [discriminate|].
  destruct (HttpClient.read_data r); [|discriminate].
  intros [= <-]. simpl. unfold Net.ok. rewrite andb_true_iff, !Z.leb_le.
  repeat split; try assumption; lia.
Qed.

Lemma after_fetch_now h options n :
  Net.now n <= Net.now (after_fetch h options n).
Proof. unfold after_fetch, Net.fetch. simpl. lia. Qed.

Lemma delay_now (ms : Z) n : Net.now n <= Net.now (snd (Net.delay ms n)).
Proof. unfold Net.delay. simpl. lia. Qed.

(** The state after the [catch] block of a failed attempt. *)
Lemma on_error_cases (attempt : Z) (e : JsError) h n :
  exists rethrown n',
    HttpClient.on_error attempt e (h, n) = (Return rethrown, (h, n'))
    /\ Net.server n' = Net.server n
    /\ Net.fetched n' = Net.fetched n
    /\ Net.now n <= Net.now n'
    /\ match rethrown with
       | Some e' => surfaced h e' /\ n' = n
       | None => True
       end.
Proof.
  unfold HttpClient.on_error, bind. cbn [fst].
  destruct (is_UnauthorizedException e || is_RateLimitException e) eqn:E1.
  - exists (Some e), n. repeat split; try lia.
    apply orb_true_iff in E1 as [E1|E1]; [now left | right; now left].
  - destruct (String.eqb (Exceptions.name e) "AbortError").
    + exists (Some (TimeoutException (HttpClient.timeout h))), n.
      repeat split; try lia. right; right; now left.
    + destruct (attempt <? HttpClient.retryAttempts h).
      * exists None, (snd (Net.delay (HttpClient.retryDelay h * attempt) n)).
        destruct (delay_facts (HttpClient.retryDelay h * attempt) n)
          as (D1 & D2 & _).
        repeat split; try assumption. apply delay_now.
      * exists None, n. repeat split; lia.
Qed.

(** Whatever the service does, the loop makes at most [remaining] calls,
    never goes back in time, keeps the settings of the client, and ends
    with a payload or a surfaced exception. *)
Lemma request_loop_inv options :
  forall (remaining : nat) (attempt : Z) (lastError : option JsError) h n,
    let run := HttpClient.request_loop (T := T) remaining attempt lastError
                 options (h, n) in
    same_config h (fst (snd run))
    /\ Net.server (snd (snd run)) = Net.server n
    /\ (Net.fetched n <= Net.fetched (snd (snd run)) <= Net.fetched n + remaining)%nat
    /\ Net.now n <= Net.now (snd (snd run))
    /\ produced h n (snd (snd run)) (fst run).
Proof.
  induction remaining as [|remaining IH]; intros attempt lastError h n; cbv zeta.
  - cbn. repeat split; try lia.
    right; right; right. now exists lastError.
  - cbn [HttpClient.request_loop]. unfold try_catch. rewrite attempt_once_eq.
    cbv zeta.
    destruct (after_fetch_facts h options n) as (F1 & F2 & _).
    pose proof (after_fetch_now h options n) as F3.
    set (n1 := after_fetch h options n) in *.
    assert (Fail : forall e h1,
      same_config h h1 ->
      let run := bind (HttpClient.on_error attempt e)
                   (fun rethrown =>
                      match rethrown with
                      | Some e' => throw e'
                      | None =>
                          HttpClient.request_loop (T := T) remaining (attempt + 1)
                            (Some e) options
                      end) (h1, n1) in
      same_config h (fst (snd run))
      /\ Net.server (snd (snd run)) = Net.server n
      /\ (Net.fetched n <= Net.fetched (snd (snd run))
          <= Net.fetched n + S remaining)%nat
      /\ Net.now n <= Net.now (snd (snd run))
      /\ produced h n (snd (snd run)) (fst run)).
    { intros e h1 Hc. cbv zeta. unfold bind.
      destruct (on_error_cases attempt e h1 n1)
        as (rethrown & n2 & -> & S2 & G2 & N2 & R2).
      destruct rethrown as [e'|].
      - destruct R2 as [Hs ->]. cbn [fst snd throw].
        split; [exact Hc|]. split; [exact F1|]. split; [lia|].
        split; [exact F3|].
        destruct Hc as (_ & Ht & HR & _).
        unfold produced, surfaced in *. now rewrite Ht, HR in Hs.
      - specialize (IH (attempt + 1) (Some e) h1 n2). cbv zeta in IH.
        destruct IH as (I1 & I2 & I3 & I4 & I5).
        split; [eapply same_config_trans; eassumption|].
        split; [congruence|]. split; [lia|]. split; [lia|].
        destruct (HttpClient.request_loop remaining (attempt + 1) (Some e)
                    options (h1, n2)) as [[a|e'] [h' n']]; cbn [fst snd] in *.
        + destruct I5 as (r & K1 & K2 & K3). exists r.
          split; [lia|]. split; [rewrite <- F1, <- S2; exact K2 | exact K3].
        + destruct Hc as (_ & Ht & HR & _).
          unfold produced, surfaced in *. now rewrite Ht, HR in I5. }
    destruct (HttpClient.timeout h <? Net.latency (Net.server n (Net.fetched n))) eqn:L.
    + apply (Fail Net.AbortError h). apply same_config_refl.
    + destruct (Net.settles (Net.server n (Net.fetched n))) as [r|e] eqn:Es.
      * destruct (HttpClient.interpret r) as [a|e] eqn:Ei.
        -- cbn [fst snd]. split; [apply parseCookies_same_config|].
           split; [exact F1|]. split; [lia|]. split; [exact F3|].
           exists r. split; [lia|]. rewrite F2.
           replace (S (Net.fetched n) - 1)%nat with (Net.fetched n) by lia.
           split; [exact Es|]. split; [exact Ei|]. now apply interpret_Return.
        -- apply (Fail e). apply parseCookies_same_config.
      * apply (Fail e h). apply same_config_refl.
Qed.
End TransportInvariants.

(** X1. Whatever the service answers, a call of [request] makes at most
    [retryAttempts] fetches (none when the setting is zero or negative),
    never moves the clock back, and leaves the settings of the client and
    the service as they were. *)
Theorem request_stays_within_budget :
  forall (T : Type) (payload : Payload T) (stringify : Stringify)
         (h : HttpClient.t) (n : Net.t) (options : IHttpOptions.t),
    let run := HttpClient.request (T := T) options (h, n) in
    (Net.fetched n <= Net.fetched (snd (snd run))
     <= Net.fetched n + Z.to_nat (HttpClient.retryAttempts h))%nat
    /\ Net.now n <= Net.now (snd (snd run))
    /\ TransportSpec.same_config h (fst (snd run))
    /\ Net.server (snd (snd run)) = Net.server n.
Proof.
  intros T payload stringify h n options. cbv zeta. rewrite request_eq.
  destruct (request_loop_inv (T := T) options
              (Z.to_nat (HttpClient.retryAttempts h)) 1 None h n)
    as (H1 & H2 & H3 & H4 & _).
  split; [exact H3|]. split; [exact H4|]. split; [exact H1 | exact H2].
Qed.

(** X2. Whatever the service answers, [request] ends in one of five ways:
    it returns the payload of the response to its last fetch, whose status
    is neither 401 nor 429 nor 5xx and whose [success] flag is set exactly
    for a 2xx status (a 404 is returned, not thrown); or it raises
    [UnauthorizedException], [RateLimitException], [TimeoutException] or
    [NetworkException].  A [ServerException] or an error of [fetch] never
    leaves [request] as such. *)
Theorem request_surfaces_four_errors :
  forall (T : Type) (payload : Payload T) (stringify : Stringify)
         (h : HttpClient.t) (n : Net.t) (options : IHttpOptions.t),
    let run := HttpClient.request (T := T) options (h, n) in
    SurfaceSpec.produced h n (snd (snd run)) (fst run)
    /\ (forall message status,
          fst run <> Throw (Exceptions.ServerException message status))
    /\ (forall name message,
          fst run <> Throw (Exceptions.NativeError name message)).
Proof.
  intros T payload stringify h n options. cbv zeta. rewrite request_eq.
  destruct (request_loop_inv (T := T) options
              (Z.to_nat (HttpClient.retryAttempts h)) 1 None h n)
    as (_ & _ & _ & _ & H).
  split; [exact H|].
  destruct (HttpClient.request_loop (Z.to_nat (HttpClient.retryAttempts h)) 1 None
              options (h, n)) as [[a|e] st]; cbn [fst snd] in *.
  - split; intros; discriminate.
  - unfold SurfaceSpec.produced, SurfaceSpec.surfaced in H.
    split; intros; intros [= ->];
      destruct H as [H|[H|[H|[c H]]]]; discriminate H.
Qed.

(** X3. With [retryAttempts] zero (which the configuration accepts) or
    negative, [request] raises [NetworkException] with no cause at once:
    no fetch, no wait, nothing changed. *)
Theorem request_without_attempts :
  forall (T : Type) (payload : Payload T) (stringify : Stringify)
         (h : HttpClient.t) (n : Net.t) (options : IHttpOptions.t),
    HttpClient.retryAttempts h <= 0 ->
    HttpClient.request (T := T) options (h, n)
    = (Throw (Exceptions.NetworkException
                ("Request failed after "
                 ++ Js.String_of_Z (HttpClient.retryAttempts h) ++ " attempts")%string
                None),
       (h, n)).
Proof.
  intros T payload stringify h n options H. rewrite request_eq.
  replace (Z.to_nat (HttpClient.retryAttempts h)) with 0%nat by lia. reflexivity.
Qed.

Lemma request_without_attempts_witness :
  HttpClient.request (payload := Sample.clients_payload) (stringify := Sample.to_json)
    Sample.list_clients
    (HttpClient.new "http://localhost:51821" 30000 0 1000, Sample.flaky)
  = (Throw (Exceptions.NetworkException "Request failed after 0 attempts" None),
     (HttpClient.new "http://localhost:51821" 30000 0 1000, Sample.flaky)).
Proof.
  apply (request_without_attempts _ Sample.clients_payload Sample.to_json
           (HttpClient.new "http://localhost:51821" 30000 0 1000)
           Sample.flaky Sample.list_clients).
  simpl. lia.
Defined.

(* ================================================================== *)
(** * The cookie jar *)
(* ================================================================== *)

Section CookieFacts.
Import SurfaceSpec.
Local Open Scope string_scope.

Lemma occurs_app (c : ascii) (a b : string) :
  occurs c (a ++ b) = occurs c a || occurs c b.
Proof. induction a as [|x a IH]; simpl; [reflexivity|]. now rewrite IH, orb_assoc. Qed.

Lemma split_not_nil (sep : ascii) (s : string) : Js.split sep s <> [].
Proof.
  destruct s as [|x s]; simpl; [discriminate|].
  destruct (Ascii.eqb x sep); [discriminate|].
  destruct (Js.split sep s); discriminate.
Qed.

Lemma split_none (sep : ascii) (s : string) :
  occurs sep s = false -> Js.split sep s = [s].
Proof.
  induction s as [|x s IH]; simpl; [reflexivity|].
  intros H. apply orb_false_iff in H as [Hx Hs].
  rewrite Hx, (IH Hs). reflexivity.
Qed.

Lemma split_at (sep : ascii) (a b : string) :
  occurs sep a = false ->
  Js.split sep (a ++ String sep b) = a :: Js.split sep b.
Proof.
  induction a as [|x a IH]; simpl.
  - intros _. now rewrite Ascii.eqb_refl.
  - intros H. apply orb_false_iff in H as [Hx Ha].
    rewrite Hx, (IH Ha). reflexivity.
Qed.



Lemma trimEnd_spaceless (s : string) : spaceless s = true -> Js.trimEnd s = s.
Proof.
  induction s as [|x s IH]; simpl; [reflexivity|].
  intros H. apply andb_true_iff in H as [Hx Hs].
  apply negb_true_iff in Hx. rewrite (IH Hs), Hx. now destruct s.
Qed.



Lemma with_cookies_same (h : HttpClient.t) :
  HttpClient.with_cookies (HttpClient.cookies h) h = h.
Proof. now destruct h. Qed.
End CookieFacts.

Section CookieLaws.
Import SurfaceSpec.
Local Open Scope string_scope.



Lemma parseCookies_eq (header : string) (h : HttpClient.t) :
  HttpClient.parseCookies (Some header) h
  = if negb (Js.truthy header) then h
    else HttpClient.with_cookies
           (fold_left cookie_step (Js.split "," header) (HttpClient.cookies h)) h.
Proof. reflexivity. Qed.

End CookieLaws.



Section JarFacts.
Import SurfaceSpec.

Lemma cookie_step_keys (jar : Js.Map.t string) (cookie : string) :
  (NoDup (Js.Map.keys jar) -> NoDup (Js.Map.keys (cookie_step jar cookie)))
  /\ (forall k, In k (Js.Map.keys jar) -> In k (Js.Map.keys (cookie_step jar cookie))).
Proof.
  unfold cookie_step. cbv zeta.
  destruct (Js.split "=" (Js.trim (hd EmptyString (Js.split ";" cookie))))
    as [|name [|value more]]; try (split; auto).
  - destruct (Js.truthy name && Js.truthy value); [|auto].
    now apply Map_set_keys_NoDup.
  - destruct (Js.truthy name && Js.truthy value); [|auto].
    intros k Hk. rewrite Map_set_keys.
    destruct (existsb (String.eqb name) (Js.Map.keys jar)); [exact Hk|].
    apply in_or_app. now left.
Qed.

Lemma fold_cookie_step_keys (pieces : list string) :
  forall jar : Js.Map.t string,
    (NoDup (Js.Map.keys jar) ->
     NoDup (Js.Map.keys (fold_left cookie_step pieces jar)))
    /\ (forall k, In k (Js.Map.keys jar) ->
                  In k (Js.Map.keys (fold_left cookie_step pieces jar))).
Proof.
  induction pieces as [|p pieces IH]; intros jar; simpl; [split; auto|].
  destruct (cookie_step_keys jar p) as [S1 S2].
  destruct (IH (cookie_step jar p)) as [I1 I2]. split; auto.
Qed.

Lemma fold_set_get (custom base : Js.Map.t string) (k : string) :
  NoDup (Js.Map.keys custom) ->
  Js.Map.get k (fold_left (fun m e => Js.Map.set (fst e) (snd e) m) custom base)
  = match Js.Map.get k custom with
    | Some v => Some v
    | None => Js.Map.get k base
    end.
Proof.
  revert base. induction custom as [|[k0 v0] custom IH]; intros base Hnd;
    cbn [fold_left Js.Map.get fst snd]; [reflexivity|].
  cbn [Js.Map.keys map fst] in Hnd. apply NoDup_cons_iff in Hnd as [Hfresh Hnd].
  rewrite (IH _ Hnd).
  destruct (String.eqb_spec k k0) as [->|Hne].
  - assert (G : Js.Map.get k0 custom = None).
    { clear -Hfresh. induction custom as [|[k1 v1] custom IHc]; simpl; [reflexivity|].
      destruct (String.eqb_spec k0 k1) as [->|_].
      - exfalso. apply Hfresh. now left.
      - apply IHc. intros Hin. apply Hfresh. now right. }
    rewrite G. apply Map_get_set_same.
  - destruct (Js.Map.get k custom); [reflexivity|].
    now apply Map_get_set_other.
Qed.
End JarFacts.

(** X5. A set-cookie header is read piece by piece: the pieces are what
    the commas separate, and reading [first,rest] is reading [first], then
    [rest].  The header that is absent or empty changes nothing. *)
Theorem parseCookies_reads_in_sequence :
  forall (h : HttpClient.t) (first rest : string),
    SurfaceSpec.occurs "," first = false ->
    HttpClient.parseCookies (Some (first ++ "," ++ rest)%string) h
    = HttpClient.parseCookies (Some rest)
        (HttpClient.parseCookies (Some first) h)
    /\ HttpClient.parseCookies None h = h
    /\ HttpClient.parseCookies (Some EmptyString) h = h.
Proof.
  intros h first rest Hfirst. split; [|split; reflexivity].
  rewrite !parseCookies_eq.
  assert (T : Js.truthy (first ++ "," ++ rest) = true) by now destruct first.
  rewrite T. cbn [negb].
  change ("," ++ rest)%string with (String "," rest).
  rewrite split_at by exact Hfirst. cbn [fold_left].
  assert (F : (if negb (Js.truthy first) then h
               else HttpClient.with_cookies
                      (fold_left SurfaceSpec.cookie_step (Js.split "," first)
                         (HttpClient.cookies h)) h)
              = HttpClient.with_cookies
                  (SurfaceSpec.cookie_step (HttpClient.cookies h) first) h).
  { destruct first as [|c first].
    - cbn. symmetry. apply with_cookies_same.
    - cbn [Js.truthy negb]. now rewrite split_none by exact Hfirst. }
  rewrite F. destruct rest as [|c rest].
  - reflexivity.
  - reflexivity.
Qed.

Lemma parseCookies_reads_in_sequence_witness :
  HttpClient.cookies
    (HttpClient.parseCookies (Some "a=1; Path=/,b=2"%string) Sample.transport)
  = [("a", "1"); ("b", "2")]%string.
Proof.
  destruct (parseCookies_reads_in_sequence Sample.transport "a=1; Path=/" "b=2"
              eq_refl) as [E _].
  change ("a=1; Path=/" ++ "," ++ "b=2")%string with "a=1; Path=/,b=2"%string in E.
  rewrite E. reflexivity.
Defined.

(** X6. Reading a set-cookie header never drops a cookie from the jar and
    never lists a name twice: a cookie can only be added or have its value
    replaced (there is no expiry and no deletion by the service). *)
Theorem parseCookies_only_adds :
  forall (h : HttpClient.t) (header : option string),
    (NoDup (Js.Map.keys (HttpClient.cookies h)) ->
     NoDup (Js.Map.keys (HttpClient.cookies (HttpClient.parseCookies header h))))
    /\ (forall name,
          In name (Js.Map.keys (HttpClient.cookies h)) ->
          In name (Js.Map.keys (HttpClient.cookies (HttpClient.parseCookies header h))))
    /\ TransportSpec.same_config h (HttpClient.parseCookies header h).
Proof.
  intros h header. split; [|split; [|apply parseCookies_same_config]];
    (destruct header as [s|]; [|auto]); rewrite parseCookies_eq;
    (destruct (negb (Js.truthy s)); [auto|]); cbn [HttpClient.with_cookies HttpClient.cookies];
    apply fold_cookie_step_keys.
Qed.

(** X7. The headers of a request: a header given by the caller replaces
    the default of the same name (Content-Type, Accept), and when the jar
    holds a cookie the Cookie header is the jar, [name=value] pairs joined
    by semicolons, whatever the caller gave for it; with an empty jar no
    Cookie header is added. *)
Theorem buildHeaders_precedence :
  forall (h : HttpClient.t) (customHeaders : option (Js.Map.t string)) (k : string),
    let custom := match customHeaders with Some c => c | None => [] end in
    NoDup (Js.Map.keys custom) ->
    Js.Map.get k (HttpClient.buildHeaders h customHeaders)
    = if String.eqb k "Cookie" && negb (Js.Map.size (HttpClient.cookies h) =? 0)
      then Some (SurfaceSpec.cookie_header (HttpClient.cookies h))
      else match Js.Map.get k custom with
           | Some v => Some v
           | None =>
               Js.Map.get k [("Content-Type", "application/json");
                             ("Accept", "application/json")]%string
           end.
Proof.
  intros h customHeaders k custom Hnd. unfold HttpClient.buildHeaders.
  set (base := [("Content-Type", "application/json");
                ("Accept", "application/json")]%string).
  assert (Hh : Js.Map.get k
                 match customHeaders with
                 | Some c => fold_left (fun m e => Js.Map.set (fst e) (snd e) m) c base
                 | None => base
                 end
               = match Js.Map.get k custom with
                 | Some v => Some v
                 | None => Js.Map.get k base
                 end).
  { unfold custom in *. destruct customHeaders as [c|]; [|reflexivity].
    now apply fold_set_get. }
  assert (Hsize : (0 <? Js.Map.size (HttpClient.cookies h))
                  = negb (Js.Map.size (HttpClient.cookies h) =? 0)).
  { unfold Js.Map.size. destruct (HttpClient.cookies h); [reflexivity|].
    cbn [List.length]. destruct (Z.ltb_spec 0 (Z.of_nat (S (List.length t))));
      destruct (Z.eqb_spec (Z.of_nat (S (List.length t))) 0); try reflexivity; lia. }
  rewrite Hsize.
  destruct (negb (Js.Map.size (HttpClient.cookies h) =? 0)).
  - destruct (String.eqb_spec k "Cookie") as [->|Hne]; cbn [andb].
    + apply Map_get_set_same.
    + rewrite Map_get_set_other by exact Hne. exact Hh.
  - rewrite andb_false_r. exact Hh.
Qed.

Lemma buildHeaders_precedence_witness :
  Js.Map.get "Cookie"
    (HttpClient.buildHeaders
       (HttpClient.with_cookies [("a", "1"); ("b", "2")]%string Sample.transport)
       (Some [("Cookie", "mine"); ("Accept", "text/plain")]%string))
  = Some "a=1; b=2"%string.
Proof.
  rewrite (buildHeaders_precedence
             (HttpClient.with_cookies [("a", "1"); ("b", "2")]%string Sample.transport)
             (Some [("Cookie", "mine"); ("Accept", "text/plain")]%string) "Cookie").
  - reflexivity.
  - repeat constructor; simpl; intuition discriminate.
Defined.
(* ================================================================== *)
(** * The repository beyond its cache laws *)
(* ================================================================== *)

Section StoreFacts.
Import ClientRepository ClientRepositoryReads RepositorySpec StoreSpec.
Context {host : Host} {qr : QrHost}.
Implicit Types (r : t) (n : Net.t) (h : HttpClient.t).

Lemma validateId_blank (id : string) :
  blank id -> Validator.validateId id = Throw (blank_id_error id).
Proof.
  unfold blank, Validator.validateId, blank_id_error. intros B.
  apply trim_empty_iff in B.
  destruct id as [|c id]; [reflexivity|]. cbn [Js.truthy negb]. now rewrite B.
Qed.

Lemma validateId_ok (id : string) :
  Validator.validateId id = Return tt <-> ~ blank id.
Proof.
  split.
  - intros V B. rewrite (validateId_blank id B) in V. discriminate V.
  - unfold blank, Validator.validateId. rewrite <- trim_empty_iff. intros B.
    destruct id as [|c id]; [now elim B|]. cbn [Js.truthy negb].
    destruct (Js.trim (String c id)); [now elim B | reflexivity].
Qed.

Lemma validate_throw {B : Type} (o : Outcome unit) (k : unit -> M State B)
      (e : Exceptions.JsError) (s : State) :
  o = Throw e -> bind (validate o) k s = (Throw e, s).
Proof. intros ->. reflexivity. Qed.

Lemma same_snapshot_refl r : same_snapshot r r.
Proof. repeat split. Qed.

Lemma same_snapshot_transport h r : same_snapshot r (with_httpClient h r).
Proof. repeat split. Qed.

Lemma elapse_now (dt : Z) n : Net.now (Net.elapse dt n) = Net.now n + Z.max 0 dt.
Proof. reflexivity. Qed.

(** [getConfiguration] on the outcome of its GET. *)
Lemma getConfiguration_eq (id : string) r n :
  Validator.validateId id = Return tt ->
  getConfiguration id (r, n)
  = match HttpClient.get (T := string)
            ("/api/wireguard/client/" ++ id ++ "/configuration")%string
            (httpClient r, n) with
    | (Return g, (h', n')) =>
        (match usable g with
         | Some data =>
             if Js.truthy data then Return data
             else Throw (Exceptions.Error "Failed to get configuration")
         | None => Throw (Exceptions.Error "Failed to get configuration")
         end, (with_httpClient h' r, n'))
    | (Throw e, (h', n')) => (Throw e, (with_httpClient h' r, n'))
    end.
Proof.
  intros V. unfold getConfiguration. rewrite validate_ok by exact V.
  unfold bind, http, zoom, usable. cbn [fst snd].
  destruct (HttpClient.get _ (httpClient r, n)) as [[g|e] [h' n']]; [|reflexivity].
  cbn [fst snd]. destruct (IApiResponse.success g); [|reflexivity].
  destruct (IApiResponse.data g) as [data|]; [|reflexivity].
  now destruct (Js.truthy data).
Qed.

Lemma getConfiguration_state (id : string) (s : State) :
  same_snapshot (fst s) (fst (snd (getConfiguration id s)))
  /\ forall text, fst (getConfiguration id s) = Return text -> Js.truthy text = true.
Proof.
  destruct s as [r n]. destruct (Validator.validateId id) as [[]|e] eqn:V.
  - rewrite getConfiguration_eq by exact V.
    destruct (HttpClient.get _ (httpClient r, n)) as [[g|e] [h' n']];
      cbn [fst snd]; (split; [apply same_snapshot_transport|]).
    + intros text. destruct (usable g) as [data|]; [|discriminate].
      destruct (Js.truthy data) eqn:Tr; [|discriminate]. now intros [= <-].
    + discriminate.
  - unfold getConfiguration. rewrite (validate_throw _ _ e) by exact V.
    split; [apply same_snapshot_refl | discriminate].
Qed.

(** [getQrCode] on the outcome of [getConfiguration]. *)
Lemma getQrCode_eq (id : string) (s : State) :
  getQrCode id s
  = match getConfiguration id s with
    | (Return configuration, s') =>
        (match QRCode_toString configuration with
         | Return svg => Return svg
         | Throw _ => Throw (Exceptions.Error "Failed to generate QR code")
         end, s')
    | (Throw e, s') => (Throw e, s')
    end.
Proof.
  unfold getQrCode. destruct (Validator.validateId id) as [[]|e] eqn:V.
  - rewrite validate_ok by reflexivity. unfold bind, try_catch.
    destruct (getConfiguration id s) as [[c|e] s']; [|reflexivity].
    now destruct (QRCode_toString c).
  - destruct s as [r n]. rewrite (validate_throw _ _ e) by reflexivity.
    unfold getConfiguration. now rewrite (validate_throw _ _ e) by exact V.
Qed.

Lemma exists_eq (id : string) (s : State) :
  exists_ id s
  = (Return (match fst (findById id s) with Return _ => true | Throw _ => false end),
     snd (findById id s)).
Proof.
  unfold exists_, try_catch, bind.
  now destruct (findById id s) as [[c|e] s'].
Qed.
End StoreFacts.

(** X8. The life of a snapshot.  When the listing returns records, the
    forced read stores them with the time of the answer; from then on, as
    long as less than [cacheTTL] milliseconds have passed, a plain read
    returns that very snapshot and does nothing else (no call, no change of
    state); once [cacheTTL] milliseconds or more have passed it takes the
    path of a forced read.  With a TTL of zero or less nothing is ever
    served from the cache. *)
Theorem snapshot_lives_for_ttl :
  forall (host : Host) (r : ClientRepository.t) (n : Net.t)
         (g : IApiResponse.t (list IClientData.t)) (h' : HttpClient.t) (n' : Net.t)
         (data : list IClientData.t),
    HttpClient.get RepositorySpec.clients_path (ClientRepository.httpClient r, n)
    = (Return g, (h', n')) ->
    RepositorySpec.usable g = Some data ->
    let c := ClientCollection.fromRawData data in
    let r' := ClientRepository.mk h' (Some c) (Some (Net.now n'))
                (ClientRepository.cacheTTL r) in
    ClientRepository.findAll true (r, n) = (Return c, (r', n'))
    /\ (forall dt : Z,
          let st := (r', Net.elapse dt n') in
          (Z.max 0 dt < ClientRepository.cacheTTL r ->
           ClientRepository.findAll false st = (Return c, st))
          /\ (ClientRepository.cacheTTL r <= Z.max 0 dt ->
              ClientRepository.findAll false st = ClientRepository.findAll true st))
    /\ (ClientRepository.cacheTTL r <= 0 ->
        forall dt : Z,
          ClientRepository.findAll false (r', Net.elapse dt n')
          = ClientRepository.findAll true (r', Net.elapse dt n')).
Proof.
  intros host r n g h' n' data Hget Hu c r'.
  assert (Valid : forall dt,
            ClientRepository.isCacheValid (Net.now (Net.elapse dt n')) r'
            = (Z.max 0 dt <? ClientRepository.cacheTTL r)).
  { intros dt. unfold ClientRepository.isCacheValid, r'.
    cbn [ClientRepository.cache ClientRepository.cacheTimestamp
         ClientRepository.cacheTTL]. rewrite elapse_now. f_equal. lia. }
  split; [|split].
  - rewrite findAll_refresh, Hget, Hu. reflexivity.
  - intros dt st. split; intros H.
    + apply findAll_cached; [|reflexivity]. cbn [snd]. rewrite Valid.
      now apply Z.ltb_lt.
    + apply findAll_stale. cbn [snd]. rewrite Valid. now apply Z.ltb_ge.
  - intros H dt. apply findAll_stale. cbn [snd]. rewrite Valid.
    apply Z.ltb_ge. lia.
Qed.

(** X9. [exists] never throws: it answers true exactly when [findById]
    returns a record, and false for every failure of the lookup, a missing
    record as well as an error of the transport; the state it leaves is the
    one [findById] leaves. *)
Theorem exists_never_throws :
  forall (host : Host) (id : string) (s : ClientRepository.State),
    (exists b : bool,
        ClientRepositoryReads.exists_ id s
        = (Return b, snd (ClientRepository.findById id s)))
    /\ (fst (ClientRepositoryReads.exists_ id s) = Return true
        <-> exists c, fst (ClientRepository.findById id s) = Return c)
    /\ (forall e, fst (ClientRepository.findById id s) = Throw e ->
                  fst (ClientRepositoryReads.exists_ id s) = Return false).
Proof.
  intros host id s. rewrite exists_eq. cbn [fst].
  destruct (fst (ClientRepository.findById id s)) as [c|e].
  - split; [now exists true|]. split; [|discriminate].
    split; [now exists c | reflexivity].
  - split; [now exists false|]. split; [|reflexivity].
    split; [discriminate | intros [c Hc]; discriminate Hc].
Qed.

(** X10. A blank id (empty, or white space only) never reaches the
    service: every method that takes an id raises the [ValidationException]
    of [validateId] for the field id, with the id as value, and leaves the
    repository, the cookies and the network as they were; [exists] answers
    false. *)
Theorem blank_id_is_rejected_offline :
  forall (host : Host) (qr : QrHost) (id : string) (s : ClientRepository.State),
    StoreSpec.blank id ->
    let e := StoreSpec.blank_id_error id in
    StoreSpec.rejected (ClientRepository.findById id s) e s
    /\ StoreSpec.rejected (ClientRepository.delete id s) e s
    /\ (forall name, StoreSpec.rejected (ClientRepository.updateName id name s) e s)
    /\ (forall address,
          StoreSpec.rejected (ClientRepository.updateAddress id address s) e s)
    /\ StoreSpec.rejected (ClientRepository.enable id s) e s
    /\ StoreSpec.rejected (ClientRepository.disable id s) e s
    /\ StoreSpec.rejected (ClientRepositoryReads.getConfiguration id s) e s
    /\ StoreSpec.rejected (ClientRepositoryReads.getQrCode id s) e s
    /\ ClientRepositoryReads.exists_ id s = (Return false, s).
Proof.
  intros host qr id s B e. pose proof (validateId_blank id B) as V.
  assert (F : StoreSpec.rejected (ClientRepository.findById id s) e s).
  { unfold StoreSpec.rejected, ClientRepository.findById.
    now rewrite (validate_throw _ _ e). }
  assert (C : StoreSpec.rejected (ClientRepositoryReads.getConfiguration id s) e s).
  { unfold StoreSpec.rejected, ClientRepositoryReads.getConfiguration.
    now rewrite (validate_throw _ _ e). }
  split; [exact F|].
  split; [unfold StoreSpec.rejected, ClientRepository.delete;
          now rewrite (validate_throw _ _ e)|].
  split; [intros name; unfold StoreSpec.rejected, ClientRepository.updateName;
          now rewrite (validate_throw _ _ e)|].
  split; [intros address; unfold StoreSpec.rejected, ClientRepository.updateAddress;
          now rewrite (validate_throw _ _ e)|].
  split; [unfold StoreSpec.rejected, ClientRepository.enable;
          now rewrite (validate_throw _ _ e)|].
  split; [unfold StoreSpec.rejected, ClientRepository.disable;
          now rewrite (validate_throw _ _ e)|].
  split; [exact C|].
  split.
  - unfold StoreSpec.rejected in *. rewrite getQrCode_eq. now rewrite C.
  - rewrite exists_eq. unfold StoreSpec.rejected in F. now rewrite F.
Qed.

(** X11. A mutation whose remote call throws leaves the snapshot alone:
    [invalidateCache] comes after the call, so when the transport gives up
    (a timeout, a refusal, the retries used up) the error goes to the caller
    as it is and the repository keeps the snapshot and the stamp it had,
    which the next reads within the TTL are served from. *)
Theorem failed_call_keeps_snapshot :
  forall (host : Host) (r : ClientRepository.t) (n : Net.t)
         (e : Exceptions.JsError) (h1 : HttpClient.t) (n1 : Net.t),
    (forall dto : IClientCreateDTO.t,
        Validator.validateClientCreateDTO dto = Return tt ->
        HttpClient.post (T := IClientData.t) "/api/wireguard/client"
          (Some [("name", IClientCreateDTO.name dto)]%string)
          (ClientRepository.httpClient r, n)
        = (Throw e, (h1, n1)) ->
        StoreSpec.failed_at_call (ClientRepository.create dto (r, n)) r e h1 n1)
    /\ (forall id : string,
          Validator.validateId id = Return tt ->
          HttpClient.delete (T := unit) ("/api/wireguard/client/" ++ id)%string
            (ClientRepository.httpClient r, n)
          = (Throw e, (h1, n1)) ->
          StoreSpec.failed_at_call (ClientRepository.delete id (r, n)) r e h1 n1)
    /\ (forall id name : string,
          Validator.validateId id = Return tt ->
          Validator.validateClientName name = Return tt ->
          HttpClient.put (T := IClientData.t)
            ("/api/wireguard/client/" ++ id ++ "/name")%string
            (Some [("name", name)]%string) (ClientRepository.httpClient r, n)
          = (Throw e, (h1, n1)) ->
          StoreSpec.failed_at_call (ClientRepository.updateName id name (r, n))
            r e h1 n1)
    /\ (forall id address : string,
          Validator.validateId id = Return tt ->
          Validator.validateIPAddress address = Return tt ->
          HttpClient.put (T := IClientData.t)
            ("/api/wireguard/client/" ++ id ++ "/address")%string
            (Some [("address", address)]%string) (ClientRepository.httpClient r, n)
          = (Throw e, (h1, n1)) ->
          StoreSpec.failed_at_call (ClientRepository.updateAddress id address (r, n))
            r e h1 n1)
    /\ (forall id : string,
          Validator.validateId id = Return tt ->
          HttpClient.post (T := IClientData.t)
            ("/api/wireguard/client/" ++ id ++ "/enable")%string None
            (ClientRepository.httpClient r, n)
          = (Throw e, (h1, n1)) ->
          StoreSpec.failed_at_call (ClientRepository.enable id (r, n)) r e h1 n1)
    /\ (forall id : string,
          Validator.validateId id = Return tt ->
          HttpClient.post (T := IClientData.t)
            ("/api/wireguard/client/" ++ id ++ "/disable")%string None
            (ClientRepository.httpClient r, n)
          = (Throw e, (h1, n1)) ->
          StoreSpec.failed_at_call (ClientRepository.disable id (r, n)) r e h1 n1).
Proof.
  intros host r n e h1 n1.
  assert (K : forall A (run : Outcome A * ClientRepository.State),
             run = (Throw e, (ClientRepository.with_httpClient h1 r, n1)) ->
             StoreSpec.failed_at_call run r e h1 n1).
  { intros A run ->. split; [reflexivity | apply same_snapshot_transport]. }
  split; [|split; [|split; [|split; [|split]]]].
  - intros dto V E. apply K. unfold ClientRepository.create.
    rewrite validate_ok by exact V. now apply http_run_throw.
  - intros id V E. apply K. unfold ClientRepository.delete.
    rewrite validate_ok by exact V. now apply http_run_throw.
  - intros id name V V' E. apply K. unfold ClientRepository.updateName.
    rewrite validate_ok by exact V. rewrite validate_ok by exact V'.
    now apply http_run_throw.
  - intros id address V V' E. apply K. unfold ClientRepository.updateAddress.
    rewrite validate_ok by exact V. rewrite validate_ok by exact V'.
    now apply http_run_throw.
  - intros id V E. apply K. unfold ClientRepository.enable.
    rewrite validate_ok by exact V. now apply http_run_throw.
  - intros id V E. apply K. unfold ClientRepository.disable.
    rewrite validate_ok by exact V. now apply http_run_throw.
Qed.

(** X12. A creation the service refuses.  When the POST is answered in
    time with a status that is neither a success nor 401, 429 or a server
    error (a 409 for a name that is taken, a 400), and the body can be read,
    [create] raises the plain [Error] 'Failed to create client' after that
    single call: the snapshot is dropped, no listing is fetched, and nothing
    of the answer (status, body) reaches the caller. *)
Theorem refused_creation :
  forall (host : Host) (dto : IClientCreateDTO.t) (r : ClientRepository.t)
         (n : Net.t) (resp : Net.Response) (a : IApiResponse.t IClientData.t),
    Validator.validateClientCreateDTO dto = Return tt ->
    1 <= HttpClient.retryAttempts (ClientRepository.httpClient r) ->
    TransportSpec.answers (ClientRepository.httpClient r)
      (Net.server n (Net.fetched n)) resp ->
    HttpClient.interpret resp = Return a ->
    ~ 200 <= Net.status resp <= 299 ->
    exists h1 n1,
      ClientRepository.create dto (r, n)
      = (Throw (Exceptions.Error "Failed to create client"),
         (RepositorySpec.invalidated h1 r, n1))
      /\ Net.fetched n1 = S (Net.fetched n)
      /\ Net.delays (Net.trace n1) = Net.delays (Net.trace n)
      /\ TransportSpec.same_config (ClientRepository.httpClient r) h1.
Proof.
  intros host dto r n resp a V Hbudget Hans Hint Hstatus.
  set (options := IHttpOptions.mk IHttpOptions.POST "/api/wireguard/client"
                    (Some [("name", IClientCreateDTO.name dto)]%string) None).
  destruct (returned_attempt_step (T := IClientData.t) options
              (ClientRepository.httpClient r) n a) as (h1 & Hcfg & Hloop).
  { exists resp. split; assumption. }
  exists h1, (TransportSpec.after_fetch (ClientRepository.httpClient r) options n).
  destruct (after_fetch_facts (ClientRepository.httpClient r) options n)
    as (_ & Hf & Hd & _).
  split; [|split; [exact Hf | split; [exact Hd | exact Hcfg]]].
  assert (E : HttpClient.post (T := IClientData.t) "/api/wireguard/client"
                (Some [("name", IClientCreateDTO.name dto)]%string)
                (ClientRepository.httpClient r, n)
              = (Return a, (h1, TransportSpec.after_fetch
                                  (ClientRepository.httpClient r) options n))).
  { unfold HttpClient.post. fold options. rewrite request_eq.
    destruct (Z.to_nat (HttpClient.retryAttempts (ClientRepository.httpClient r)))
      as [|k] eqn:Ek; [lia|]. apply Hloop. }
  rewrite (create_run dto r n a h1 _ V E). unfold RepositorySpec.create_tail.
  destruct (interpret_Return resp a Hint) as (_ & _ & _ & _ & Hs).
  destruct (IApiResponse.success a); [|reflexivity].
  exfalso. apply Hstatus. now apply Hs.
Qed.

(** X13. Asking for a configuration or its QR code is no business of the
    cache: whatever happens, the snapshot, its stamp and the TTL are left as
    they were.  A configuration that is returned is never the empty text,
    the drawing is that of the configuration, and a failure of the encoder
    surfaces as the plain [Error] 'Failed to generate QR code' whatever the
    encoder threw. *)
Theorem configuration_reads_bypass_cache :
  forall (host : Host) (qr : QrHost) (id : string) (s : ClientRepository.State),
    let cfg := ClientRepositoryReads.getConfiguration id s in
    let code := ClientRepositoryReads.getQrCode id s in
    StoreSpec.same_snapshot (fst s) (fst (snd cfg))
    /\ StoreSpec.same_snapshot (fst s) (fst (snd code))
    /\ snd code = snd cfg
    /\ (forall text, fst cfg = Return text -> Js.truthy text = true)
    /\ (forall svg, fst code = Return svg <->
                    exists text, fst cfg = Return text
                                 /\ QRCode_toString text = Return svg)
    /\ (forall text e, fst cfg = Return text -> QRCode_toString text = Throw e ->
                       fst code = Throw (Exceptions.Error "Failed to generate QR code"))
    /\ (forall e, fst cfg = Throw e -> fst code = Throw e).
Proof.
  intros host qr id s cfg code.
  destruct (getConfiguration_state id s) as [Hsnap Htruthy].
  assert (Hcode : code = match cfg with
                         | (Return configuration, s') =>
                             (match QRCode_toString configuration with
                              | Return svg => Return svg
                              | Throw _ =>
                                  Throw (Exceptions.Error "Failed to generate QR code")
                              end, s')
                         | (Throw e, s') => (Throw e, s')
                         end) by apply getQrCode_eq.
  fold cfg in Hsnap, Htruthy. clearbody cfg code. subst code.
  destruct cfg as [[text|e] s']; cbn [fst snd] in *.
  - split; [exact Hsnap|]. split; [exact Hsnap|]. split; [reflexivity|].
    split; [exact Htruthy|]. split; [|split].
    + intros svg. split.
      * intros H. exists text. split; [reflexivity|].
        destruct (QRCode_toString text); [exact H | discriminate H].
      * intros (text' & [= <-] & H). now rewrite H.
    + intros text' e [= <-] H. now rewrite H.
    + discriminate.
  - split; [exact Hsnap|]. split; [exact Hsnap|]. split; [reflexivity|].
    split; [exact Htruthy|]. split; [|split].
    + intros svg. split; [discriminate | intros (text & H & _); discriminate H].
    + discriminate.
    + now intros e' [= <-].
Qed.

Section StoreWitnesses.
Import (hints) Sample.
Import (hints) Fixture.

(** The default TTL of 5000 ms: a read 4999 ms after the listing is served
  from the snapshot. *)
Lemma snapshot_lives_for_ttl_witness :
let st := snd (ClientRepository.findAll true (Sample.repository, Fixture.listing)) in
ClientRepository.findAll false (fst st, Net.elapse 4999 (snd st))
= (Return (ClientCollection.fromRawData [Sample.record "alpha"; Sample.record "dev-1"]),
   (fst st, Net.elapse 4999 (snd st))).
Proof.
cbv zeta.
destruct (HttpClient.get (T := list IClientData.t) RepositorySpec.clients_path
            (ClientRepository.httpClient Sample.repository, Fixture.listing))
  as [[g|e] [h' n']] eqn:E; [|vm_compute in E; discriminate E].
assert (U : RepositorySpec.usable g
            = Some [Sample.record "alpha"; Sample.record "dev-1"]).
{ vm_compute in E. now injection E as <- _ _. }
destruct (snapshot_lives_for_ttl Sample.host Sample.repository Fixture.listing
            g h' n' _ E U) as (Hrun & Hlife & _).
rewrite Hrun. cbn [fst snd]. apply (Hlife 4999). simpl. lia.
Defined.

(** A space followed by a no-break space is no id. *)
Lemma blank_id_is_rejected_offline_witness :
ClientRepository.delete (String " " Sample.nbsp) (Sample.repository, Sample.deletion)
= (Throw (Exceptions.ValidationException "id" "ID cannot be empty"
            (String " " Sample.nbsp)),
   (Sample.repository, Sample.deletion)).
Proof.
assert (B : StoreSpec.blank (String " " Sample.nbsp)).
{ constructor; [do 5 right; left; reflexivity|].
  constructor; [do 6 right; left; reflexivity | constructor]. }
destruct (blank_id_is_rejected_offline Sample.host Fixture.qr (String " " Sample.nbsp)
            (Sample.repository, Sample.deletion) B) as (_ & H & _).
exact H.
Defined.

(** The listing is cached, then the service is unreachable: the deletion
  fails after three attempts and the snapshot still lists dev-1. *)
Lemma failed_call_keeps_snapshot_witness :
let st := snd (ClientRepository.findAll false (Sample.repository, Fixture.outage)) in
let run := ClientRepository.delete "id-dev-1" (fst st, snd st) in
ClientRepository.cache (fst (snd run))
= Some (ClientCollection.fromRawData [Sample.record "alpha"; Sample.record "dev-1"])
/\ Net.fetched (snd (snd run)) = 4%nat.
Proof.
cbv zeta.
set (st := snd (ClientRepository.findAll false (Sample.repository, Fixture.outage))).
destruct (HttpClient.delete (T := unit) "/api/wireguard/client/id-dev-1"
            (ClientRepository.httpClient (fst st), snd st))
  as [[resp|e] [h1 n1]] eqn:E; [vm_compute in E; discriminate E|].
destruct (failed_call_keeps_snapshot Sample.host (fst st) (snd st) e h1 n1)
  as (_ & Hdelete & _).
destruct (Hdelete "id-dev-1"%string eq_refl E) as [Hrun (Hc & _ & _)].
split.
- rewrite Hc. vm_compute. reflexivity.
- rewrite Hrun. cbn [snd]. vm_compute in E. now injection E as _ _ <-.
Defined.

(** A 409 for a second dev-1. *)
Lemma refused_creation_witness :
fst (ClientRepository.create Sample.dev1 (Sample.repository, Fixture.duplicate))
= Throw (Exceptions.Error "Failed to create client").
Proof.
destruct (refused_creation Sample.host Sample.dev1 Sample.repository
            Fixture.duplicate (Sample.json 409 EmptyString)
            (IApiResponse.mk false None 409))
  as (h1 & n1 & H & _).
- reflexivity.
- simpl. lia.
- split; [unfold TransportSpec.in_time; simpl; lia | reflexivity].
- reflexivity.
- simpl. lia.
- now rewrite H.
Defined.
End StoreWitnesses.
(* ================================================================== *)
(** * The collection: updates, order and statistics *)
(* ================================================================== *)

Section MapUpdateFacts.
Context {V : Type}.
Implicit Types (m : Js.Map.t V).

Lemma Map_get_set (k k' : string) (v : V) m :
  Js.Map.get k (Js.Map.set k' v m)
  = if String.eqb k k' then Some v else Js.Map.get k m.
Proof.
  destruct (String.eqb_spec k k') as [->|Hne].
  - apply Map_get_set_same.
  - now apply Map_get_set_other.
Qed.

Lemma Map_get_absent (k : string) m :
  ~ In k (Js.Map.keys m) <-> Js.Map.get k m = None.
Proof.
  induction m as [|[k' v'] m IH]; simpl; [tauto|].
  destruct (String.eqb_spec k k') as [->|Hne].
  - split; [intros H; elim H; now left | discriminate].
  - rewrite <- IH. split; [tauto | intros H [E|E]; [congruence | tauto]].
Qed.

Lemma Map_has_keys (k : string) m :
  Js.Map.has k m = false <-> ~ In k (Js.Map.keys m).
Proof.
  rewrite Map_get_absent. unfold Js.Map.has.
  destruct (Js.Map.get k m); split; congruence.
Qed.

Lemma Map_delete_absent (k : string) m :
  ~ In k (Js.Map.keys m) -> JsArray.Map_delete k m = m.
Proof.
  induction m as [|[k' v'] m IH]; simpl; intros H; [reflexivity|].
  destruct (String.eqb_spec k k') as [->|_]; [elim H; now left|].
  f_equal. apply IH. tauto.
Qed.

Lemma Map_delete_keys (k : string) m :
  forall x, In x (Js.Map.keys (JsArray.Map_delete k m)) -> In x (Js.Map.keys m).
Proof.
  induction m as [|[k' v'] m IH]; simpl; intros x H; [exact H|].
  destruct (String.eqb k k'); simpl in *; [now right|].
  destruct H as [H|H]; [now left | right; now apply IH].
Qed.

Lemma Map_delete_NoDup (k : string) m :
  NoDup (Js.Map.keys m) -> NoDup (Js.Map.keys (JsArray.Map_delete k m)).
Proof.
  induction m as [|[k' v'] m IH]; simpl; intros H; [exact H|].
  apply NoDup_cons_iff in H as [Hfresh Hnd].
  destruct (String.eqb k k'); [exact Hnd|]. simpl.
  apply NoDup_cons; [|now apply IH].
  intros Hin. apply Hfresh. now apply (Map_delete_keys k).
Qed.

Lemma Map_delete_Forall (P : string * V -> Prop) (k : string) m :
  Forall P m -> Forall P (JsArray.Map_delete k m).
Proof.
  induction 1 as [|[k' v'] m Hx Hm IH]; simpl; [constructor|].
  destruct (String.eqb k k'); [exact Hm | now constructor].
Qed.

Lemma Map_get_delete (k k' : string) m :
  NoDup (Js.Map.keys m) ->
  Js.Map.get k (JsArray.Map_delete k' m)
  = if String.eqb k k' then None else Js.Map.get k m.
Proof.
  induction m as [|[k0 v0] m IH]; simpl; intros H.
  - now destruct (String.eqb k k').
  - apply NoDup_cons_iff in H as [Hfresh Hnd].
    destruct (String.eqb_spec k' k0) as [->|Hne0].
    + destruct (String.eqb_spec k k0) as [->|Hne]; [|reflexivity].
      now apply Map_get_absent.
    + simpl. rewrite (IH Hnd).
      destruct (String.eqb_spec k k0) as [->|Hne]; [|reflexivity].
      destruct (String.eqb_spec k0 k'); [congruence | reflexivity].
Qed.

Lemma Map_delete_last (k : string) (v : V) m :
  ~ In k (Js.Map.keys m) -> JsArray.Map_delete k (m ++ [(k, v)]) = m.
Proof.
  induction m as [|[k' v'] m IH]; simpl; intros H.
  - now rewrite String.eqb_refl.
  - destruct (String.eqb_spec k k') as [->|_]; [elim H; now left|].
    f_equal. apply IH. tauto.
Qed.

Lemma Map_copy_same m : NoDup (Js.Map.keys m) -> JsArray.Map_copy m = m.
Proof. apply Map_of_entries_nodup. Qed.

(** With one entry per key, a lookup finds the entry wherever it stands. *)
Lemma Map_get_In (k : string) (v : V) m :
  NoDup (Js.Map.keys m) -> (Js.Map.get k m = Some v <-> In (k, v) m).
Proof.
  induction m as [|[k' v'] m IH]; simpl; intros H.
  - split; [discriminate | intros []].
  - apply NoDup_cons_iff in H as [Hfresh Hnd].
    destruct (String.eqb_spec k k') as [->|Hne].
    + split.
      * intros [= ->]. now left.
      * intros [[= ->]|Hin]; [reflexivity|].
        elim Hfresh. apply (in_map fst) in Hin. exact Hin.
    + rewrite (IH Hnd). split; [tauto|]. intros [[= E _]|Hin]; [congruence | exact Hin].
Qed.

Lemma Map_get_permutation (k : string) m m' :
  NoDup (Js.Map.keys m) -> Permutation m m' ->
  Js.Map.get k m' = Js.Map.get k m.
Proof.
  intros Hnd Hp.
  assert (Hnd' : NoDup (Js.Map.keys m')).
  { eapply Permutation_NoDup; [|exact Hnd]. now apply Permutation_map. }
  destruct (Js.Map.get k m) as [v|] eqn:E.
  - apply (Map_get_In k v m' Hnd'). apply (Permutation_in _ Hp).
    now apply (Map_get_In k v m Hnd).
  - apply Map_get_absent. apply Map_get_absent in E. intros Hin. apply E.
    apply (Permutation_in k (Permutation_sym (Permutation_map fst Hp))). exact Hin.
Qed.

(** [new Map(entries)]: of the entries of one key the last one wins. *)
Lemma Map_of_entries_get (k : string) (es : list (string * V)) :
  Js.Map.get k (Js.Map.of_entries es)
  = option_map snd (find (fun e => String.eqb k (fst e)) (rev es)).
Proof.
  unfold Js.Map.of_entries.
  induction es as [|[k' v'] es IH] using rev_ind; [reflexivity|].
  rewrite fold_left_app, rev_app_distr. cbn [fold_left rev app find fst snd].
  rewrite Map_get_set. destruct (String.eqb k k'); [reflexivity | exact IH].
Qed.

Lemma Map_set_length (k : string) (v : V) m :
  (List.length (Js.Map.set k v m) <= S (List.length m))%nat.
Proof.
  induction m as [|[k' v'] m IH]; simpl; [lia|].
  destruct (String.eqb k k'); simpl; lia.
Qed.

Lemma Map_of_entries_length (es : list (string * V)) :
  (List.length (Js.Map.of_entries es) <= List.length es)%nat.
Proof.
  unfold Js.Map.of_entries.
  induction es as [|e es IH] using rev_ind; [simpl; lia|].
  rewrite fold_left_app, length_app. cbn [fold_left List.length].
  pose proof (Map_set_length (fst e) (snd e)
                (fold_left (fun m e => Js.Map.set (fst e) (snd e) m) es Js.Map.empty)).
  lia.
Qed.

Lemma Map_of_entries_keys (es : list (string * V)) (k : string) :
  In k (Js.Map.keys (Js.Map.of_entries es)) <-> In k (map fst es).
Proof.
  unfold Js.Map.of_entries.
  induction es as [|e es IH] using rev_ind; [reflexivity|].
  rewrite fold_left_app, map_app, in_app_iff. cbn [fold_left map].
  rewrite Map_set_keys.
  destruct (existsb (String.eqb (fst e)) _) eqn:E.
  - rewrite IH. split; [tauto|]. intros [H|[<-|[]]]; [exact H|].
    apply IH. apply existsb_exists in E as (x & Hx & Ex).
    apply String.eqb_eq in Ex. now subst x.
  - rewrite in_app_iff, IH. reflexivity.
Qed.
End MapUpdateFacts.

Section SortFacts.
Context {A : Type} (compareFn : A -> A -> Z).

Lemma insert_Permutation (x : A) (l : list A) :
  Permutation (x :: l) (JsArray.insert compareFn x l).
Proof.
  induction l as [|y l IH]; simpl; [apply Permutation_refl|].
  destruct (compareFn x y <=? 0); [apply Permutation_refl|].
  eapply Permutation_trans; [apply perm_swap|]. now apply perm_skip.
Qed.

Lemma sort_Permutation (l : list A) : Permutation l (JsArray.sort compareFn l).
Proof.
  induction l as [|x l IH]; simpl; [constructor|].
  eapply Permutation_trans; [|apply insert_Permutation]. now apply perm_skip.
Qed.

(** Elements that the comparator does not separate keep their order. *)
Lemma insert_filter (p : A -> bool) (x : A) (l : list A) :
  (forall y, p x = true -> 0 < compareFn x y -> p y = false) ->
  List.filter p (JsArray.insert compareFn x l) = List.filter p (x :: l).
Proof.
  intros H. induction l as [|y l IH]; [reflexivity|]. cbn [JsArray.insert].
  destruct (Z.leb_spec (compareFn x y) 0) as [|Hgt]; [reflexivity|].
  cbn [List.filter] in *. rewrite IH.
  destruct (p x) eqn:Px; [|reflexivity].
  now rewrite (H y eq_refl Hgt).
Qed.

Lemma sort_filter (p : A -> bool) (l : list A) :
  (forall x y, p x = true -> 0 < compareFn x y -> p y = false) ->
  List.filter p (JsArray.sort compareFn l) = List.filter p l.
Proof.
  intros H. induction l as [|x l IH]; [reflexivity|]. simpl.
  rewrite insert_filter by apply H. simpl. now rewrite IH.
Qed.

Section Consistent.
Hypothesis transitive :
  forall a b c, compareFn a b <= 0 -> compareFn b c <= 0 -> compareFn a c <= 0.
Hypothesis total : forall a b, 0 < compareFn a b -> compareFn b a <= 0.

Lemma insert_sorted (x : A) (l : list A) :
  StronglySorted (fun a b => compareFn a b <= 0) l ->
  StronglySorted (fun a b => compareFn a b <= 0) (JsArray.insert compareFn x l).
Proof.
  induction 1 as [|y l Hs IH Hy]; simpl; [repeat constructor|].
  destruct (Z.leb_spec (compareFn x y) 0) as [Hle|Hgt].
  - constructor; [now constructor|]. constructor; [exact Hle|].
    eapply Forall_impl; [|exact Hy]. intros z Hz. now apply (transitive x y z).
  - constructor; [exact IH|].
    apply (Permutation_Forall (insert_Permutation x l)).
    constructor; [now apply total | exact Hy].
Qed.

Lemma sort_sorted (l : list A) :
  StronglySorted (fun a b => compareFn a b <= 0) (JsArray.sort compareFn l).
Proof.
  induction l as [|x l IH]; simpl; [constructor | now apply insert_sorted].
Qed.
End Consistent.
End SortFacts.

Section CollectionUpdateFacts.
Import ClientCollection ClientCollectionOps.

Lemma clients_new_nodup (cs : list Client.t) :
  NoDup (map Client.id cs) ->
  clients (new cs) = map (fun c => (Client.id c, c)) cs.
Proof.
  intros H. unfold new. cbn [clients]. apply Map_of_entries_nodup.
  now rewrite map_map.
Qed.

Lemma new_of_values (m : Js.Map.t Client.t) :
  Spec.well_keyed m -> clients (new (Js.Map.values m)) = m.
Proof.
  intros [Hnd Hk]. unfold new. cbn [clients].
  rewrite (entries_of_values m Hk). now apply Map_of_entries_nodup.
Qed.

Lemma add_clients (client : Client.t) (c : t) :
  Spec.well_keyed (clients c) ->
  clients (add client c) = Js.Map.set (Client.id client) client (clients c).
Proof.
  intros [Hnd Hk]. unfold add. cbv zeta. rewrite Map_copy_same by exact Hnd.
  apply new_of_values. split.
  - now apply Map_set_keys_NoDup.
  - now apply Map_set_Forall.
Qed.

Lemma remove_clients (id : string) (c : t) :
  Spec.well_keyed (clients c) ->
  clients (remove id c) = JsArray.Map_delete id (clients c).
Proof.
  intros [Hnd Hk]. unfold remove. cbv zeta. rewrite Map_copy_same by exact Hnd.
  apply new_of_values. split.
  - now apply Map_delete_NoDup.
  - now apply Map_delete_Forall.
Qed.

Lemma collection_eq (c c' : t) : clients c = clients c' -> c = c'.
Proof. destruct c, c'. simpl. now intros ->. Qed.

Lemma toArray_well_keyed (c : t) :
  Spec.well_keyed (clients c) -> NoDup (map Client.id (toArray c)).
Proof.
  intros [Hnd Hk]. unfold toArray. now rewrite (keys_of_values _ Hk).
Qed.

Lemma size_toArray (c : t) : size c = Z.of_nat (List.length (toArray c)).
Proof. unfold size, Js.Map.size, toArray, Js.Map.values. now rewrite length_map. Qed.

Lemma fold_sum (key : Client.t -> Z) (l : list Client.t) : forall acc,
  fold_left (fun sum c => sum + key c) l acc
  = acc + fold_right (fun c sum => key c + sum) 0 l.
Proof.
  induction l as [|x l IH]; intros acc; simpl; [lia|]. rewrite IH. lia.
Qed.

Lemma filter_split_length (p : Client.t -> bool) (l : list Client.t) :
  (List.length (List.filter p l)
   + List.length (List.filter (fun c => negb (p c)) l))%nat
  = List.length l.
Proof.
  induction l as [|x l IH]; simpl; [reflexivity|].
  destruct (p x); simpl; lia.
Qed.

Lemma filter_at_still (callback : Z -> Client.t -> bool) (clock : nat -> Z)
      (l : list Client.t) : forall k,
  (forall i, clock i = clock 0%nat) ->
  Js.filter_at callback clock k l = List.filter (callback (clock 0%nat)) l.
Proof.
  induction l as [|x l IH]; intros k H; simpl; [reflexivity|].
  rewrite (H k), IH by exact H. reflexivity.
Qed.

Lemma isOnline_earlier (t1 t2 : Z) (c : Client.t) :
  t1 <= t2 -> Client.isOnline t2 c = true -> Client.isOnline t1 c = true.
Proof.
  intros Ht. rewrite !isOnline_iff. intros (h & Hh & Hlt). exists h.
  split; [exact Hh | lia].
Qed.

Lemma online_offline_cover (clock : nat -> Z) (l : list Client.t) :
  (forall i j, (i <= j)%nat -> clock i <= clock j) ->
  forall k m, (k <= m)%nat ->
    (List.length l
     <= List.length (Js.filter_at Client.isOnline clock k l)
        + List.length (Js.filter_at (fun now c => negb (Client.isOnline now c))
                         clock m l))%nat.
Proof.
  intros Hmono. induction l as [|x l IH]; intros k m Hkm; simpl; [lia|].
  specialize (IH (S k) (S m) ltac:(lia)).
  destruct (Client.isOnline (clock k) x) eqn:E1;
    destruct (Client.isOnline (clock m) x) eqn:E2; simpl; try lia.
  pose proof (isOnline_earlier (clock k) (clock m) x (Hmono k m Hkm) E2).
  congruence.
Qed.

Lemma filter_at_length (callback : Z -> Client.t -> bool) (clock : nat -> Z)
      (l : list Client.t) : forall k,
  (List.length (Js.filter_at callback clock k l) <= List.length l)%nat.
Proof.
  induction l as [|x l IH]; intros k; simpl; [lia|].
  specialize (IH (S k)). destruct (callback (clock k) x); simpl; lia.
Qed.
End CollectionUpdateFacts.

(** X14. [add] and [remove] on a collection, which they leave as it is
    and copy.  After [add] the record is found under its id and the other
    ids are as before; a new id goes to the end, an id already there keeps
    its place, so the sequence of ids does not change.  After [remove] the
    id is gone and the others are as before; removing an id that is not
    there gives the same collection, and so does removing a record that was
    just added under a new id. *)
Theorem add_and_remove :
  forall (cs : list Client.t) (client : Client.t) (id : string),
    let c := ClientCollection.new cs in
    let added := ClientCollectionOps.add client c in
    ClientCollection.get id added
    = (if String.eqb id (Client.id client) then Some client
       else ClientCollection.get id c)
    /\ ClientCollection.get id (ClientCollectionOps.remove id c) = None
    /\ (forall id', id' <> id ->
          ClientCollection.get id' (ClientCollectionOps.remove id c)
          = ClientCollection.get id' c)
    /\ (ClientCollection.has (Client.id client) c = false ->
        ClientCollection.toArray added = ClientCollection.toArray c ++ [client]
        /\ ClientCollectionOps.remove (Client.id client) added = c)
    /\ (ClientCollection.has (Client.id client) c = true ->
        map Client.id (ClientCollection.toArray added)
        = map Client.id (ClientCollection.toArray c))
    /\ (ClientCollection.has id c = false -> ClientCollectionOps.remove id c = c).
Proof.
  intros cs client id c added.
  pose proof (new_well_keyed cs) as W. fold c in W.
  assert (Wa : Spec.well_keyed (ClientCollection.clients added)).
  { unfold added. rewrite add_clients by exact W. destruct W as [Hnd Hk]. split.
    - now apply Map_set_keys_NoDup.
    - now apply Map_set_Forall. }
  assert (Ea : ClientCollection.clients added
               = Js.Map.set (Client.id client) client (ClientCollection.clients c))
    by now apply add_clients.
  split; [|split; [|split; [|split; [|split]]]].
  - unfold ClientCollection.get. rewrite Ea. apply Map_get_set.
  - unfold ClientCollection.get. rewrite remove_clients by exact W.
    rewrite Map_get_delete by apply W. now rewrite String.eqb_refl.
  - intros id' Hne. unfold ClientCollection.get. rewrite remove_clients by exact W.
    rewrite Map_get_delete by apply W.
    destruct (String.eqb_spec id' id); [contradiction | reflexivity].
  - intros Hfresh. apply Map_has_keys in Hfresh.
    assert (Es : ClientCollection.clients added
                 = ClientCollection.clients c ++ [(Client.id client, client)]).
    { rewrite Ea. now apply Map_set_fresh. }
    split.
    + unfold ClientCollection.toArray, Js.Map.values. rewrite Es, map_app. reflexivity.
    + apply collection_eq. rewrite remove_clients by exact Wa. rewrite Es.
      now apply Map_delete_last.
  - intros Hthere. destruct W as [Hnd Hk], Wa as [Hnda Hka].
    unfold ClientCollection.toArray. rewrite !keys_of_values by assumption.
    rewrite Ea, Map_set_keys.
    destruct (existsb (String.eqb (Client.id client))
                (Js.Map.keys (ClientCollection.clients c))) eqn:E; [reflexivity|].
    exfalso. unfold ClientCollection.has in Hthere.
    assert (Hno : ~ In (Client.id client) (Js.Map.keys (ClientCollection.clients c))).
    { intros Hin. apply Bool.not_true_iff_false in E. apply E.
      apply existsb_exists. exists (Client.id client). split; [exact Hin|].
      apply String.eqb_refl. }
    apply Map_has_keys in Hno. congruence.
  - intros Habsent. apply Map_has_keys in Habsent. apply collection_eq.
    rewrite remove_clients by exact W. now apply Map_delete_absent.
Qed.

(** X15. The counts of [getStatistics] that do not read the clock: the
    records enabled and the records disabled are those of [getEnabled] and
    [getDisabled], every record is in one of the two, so the two counts add
    up to the total; the two transfer totals add up to the sum of
    [totalTransfer] over the records. *)
Theorem statistics_partition :
  forall (cs : list Client.t) (clock : nat -> Z),
    let c := ClientCollection.new cs in
    let s := ClientCollectionOps.getStatistics clock c in
    Statistics.enabled s + Statistics.disabled s = Statistics.total s
    /\ Statistics.enabled s = ClientCollection.size (ClientCollectionOps.getEnabled c)
    /\ Statistics.disabled s = ClientCollection.size (ClientCollectionOps.getDisabled c)
    /\ (forall x, In x (ClientCollection.toArray c) <->
                  In x (ClientCollection.toArray (ClientCollectionOps.getEnabled c))
                  \/ In x (ClientCollection.toArray (ClientCollectionOps.getDisabled c)))
    /\ Statistics.totalTransferRx s + Statistics.totalTransferTx s
       = fold_right (fun x sum => Client.totalTransfer x + sum) 0
           (ClientCollection.toArray c).
Proof.
  intros cs clock c s. pose proof (new_well_keyed cs) as W. fold c in W.
  unfold s, ClientCollectionOps.getStatistics, ClientCollectionOps.getEnabled,
    ClientCollectionOps.getDisabled. cbn [Statistics.enabled Statistics.disabled
    Statistics.total Statistics.totalTransferRx Statistics.totalTransferTx].
  rewrite !size_toArray, !toArray_filter by exact W.
  split; [|split; [reflexivity | split; [reflexivity | split]]].
  - pose proof (filter_split_length Client.enabled (ClientCollection.toArray c)). lia.
  - intros x. rewrite !filter_In. destruct (Client.enabled x); simpl; intuition congruence.
  - rewrite !fold_sum. unfold Client.totalTransfer.
    induction (ClientCollection.toArray c) as [|x l IH]; simpl; lia.
Qed.

(** X16. The counts of [getStatistics] that read the clock.  The records
    online are counted in one pass and the records offline in a second one,
    each record being judged at the time its turn comes.  As time does not go
    back, a record counted in neither pass does not exist: the two counts
    add up to the total at least, and to more when the last handshake of a
    record turns three minutes old between its two turns.  When the clock
    stands still during the call they add up to the total and are the sizes
    of [getOnline] and [getOffline]. *)
Theorem statistics_presence :
  forall (cs : list Client.t) (clock : nat -> Z),
    (forall i j, (i <= j)%nat -> clock i <= clock j) ->
    let c := ClientCollection.new cs in
    let s := ClientCollectionOps.getStatistics clock c in
    Statistics.total s <= Statistics.online s + Statistics.offline s
    /\ 0 <= Statistics.online s <= Statistics.total s
    /\ 0 <= Statistics.offline s <= Statistics.total s
    /\ ((forall i, clock i = clock 0%nat) ->
        Statistics.online s + Statistics.offline s = Statistics.total s
        /\ Statistics.online s
           = ClientCollection.size (ClientCollectionOps.getOnline (clock 0%nat) c)
        /\ Statistics.offline s
           = ClientCollection.size (ClientCollectionOps.getOffline (clock 0%nat) c)).
Proof.
  intros cs clock Hmono c s. pose proof (new_well_keyed cs) as W. fold c in W.
  unfold s, ClientCollectionOps.getStatistics, ClientCollectionOps.getOnline,
    ClientCollectionOps.getOffline.
  cbn [Statistics.online Statistics.offline Statistics.total].
  rewrite !size_toArray, !toArray_filter by exact W.
  set (l := ClientCollection.toArray c).
  pose proof (online_offline_cover clock l Hmono 0 (List.length l) ltac:(lia)) as Hc.
  pose proof (filter_at_length Client.isOnline clock l 0) as H1.
  pose proof (filter_at_length (fun now x => negb (Client.isOnline now x)) clock l
                (List.length l)) as H2.
  split; [lia|]. split; [lia|]. split; [lia|].
  intros Hstill. rewrite !filter_at_still by exact Hstill.
  split; [|split; reflexivity].
  pose proof (filter_split_length (Client.isOnline (clock 0%nat)) l). lia.
Qed.

(** X17. [sortByTransfer] arranges the records by total transfer, the
    largest first unless [ascending] is asked for.  The result holds the
    same records under the same ids, no more and no less; records of equal
    total transfer keep the order they had. *)
Theorem sortByTransfer_arranges :
  forall (cs : list Client.t) (ascending : bool),
    let c := ClientCollection.new cs in
    let sorted := ClientCollectionOps.sortByTransfer ascending c in
    Permutation (ClientCollection.toArray c) (ClientCollection.toArray sorted)
    /\ ClientCollection.size sorted = ClientCollection.size c
    /\ StronglySorted
         (fun a b => if ascending
                     then Client.totalTransfer a <= Client.totalTransfer b
                     else Client.totalTransfer b <= Client.totalTransfer a)
         (ClientCollection.toArray sorted)
    /\ (forall v : Z,
          List.filter (fun x => Client.totalTransfer x =? v)
            (ClientCollection.toArray sorted)
          = List.filter (fun x => Client.totalTransfer x =? v)
              (ClientCollection.toArray c))
    /\ (forall id, ClientCollection.get id sorted = ClientCollection.get id c).
Proof.
  intros cs ascending c sorted. pose proof (new_well_keyed cs) as W. fold c in W.
  set (compareFn := fun a b : Client.t =>
         let result := Client.totalTransfer a - Client.totalTransfer b in
         if ascending then result else - result).
  assert (Hp : Permutation (ClientCollection.toArray c)
                 (JsArray.sort compareFn (ClientCollection.toArray c)))
    by apply sort_Permutation.
  assert (Hnd : NoDup (map Client.id (JsArray.sort compareFn (ClientCollection.toArray c)))).
  { eapply Permutation_NoDup; [apply Permutation_map, Hp|].
    now apply toArray_well_keyed. }
  assert (Ht : ClientCollection.toArray sorted
               = JsArray.sort compareFn (ClientCollection.toArray c)).
  { unfold sorted, ClientCollectionOps.sortByTransfer, ClientCollectionOps.sort.
    fold compareFn. now apply toArray_new_nodup. }
  split; [now rewrite Ht|]. split; [|split; [|split]].
  - rewrite !size_toArray, Ht. f_equal. symmetry. now apply Permutation_length.
  - rewrite Ht.
    assert (S : StronglySorted (fun a b => compareFn a b <= 0)
                  (JsArray.sort compareFn (ClientCollection.toArray c))).
    { apply sort_sorted; unfold compareFn; destruct ascending; intros; lia. }
    eapply StronglySorted_ind with (P := StronglySorted _); [constructor| |exact S].
    intros a l _ IH Ha. constructor; [exact IH|].
    eapply Forall_impl; [|exact Ha]. intros b. unfold compareFn.
    destruct ascending; lia.
  - intros v. rewrite Ht. apply sort_filter. intros x y Hx Hgt.
    apply Z.eqb_eq in Hx. apply Z.eqb_neq. unfold compareFn in Hgt.
    destruct ascending; lia.
  - intros id. unfold ClientCollection.get.
    assert (Ec : ClientCollection.clients sorted
                 = map (fun x => (Client.id x, x))
                     (JsArray.sort compareFn (ClientCollection.toArray c))).
    { unfold sorted, ClientCollectionOps.sortByTransfer, ClientCollectionOps.sort.
      fold compareFn. now apply clients_new_nodup. }
    rewrite Ec. destruct W as [Hk Hf].
    transitivity (Js.Map.get id (map (fun x => (Client.id x, x))
                                   (ClientCollection.toArray c))).
    + apply Map_get_permutation.
      * unfold ClientCollection.toArray.
        rewrite entries_of_values by exact Hf. exact Hk.
      * apply Permutation_map. exact Hp.
    + unfold ClientCollection.toArray. now rewrite entries_of_values by exact Hf.
Qed.



(** X19. A collection built from records that repeat an id holds one
    record per id: under each id the last of the records given with it, so
    the collection is never larger than the list it was built from and has
    its size when the ids are distinct; the ids of the collection are those
    of the list. *)
Theorem new_keeps_last_of_each_id :
  forall (cs : list Client.t),
    let c := ClientCollection.new cs in
    (forall id, ClientCollection.get id c
                = Js.find (fun x => String.eqb id (Client.id x)) (rev cs))
    /\ ClientCollection.size c <= Z.of_nat (List.length cs)
    /\ (NoDup (map Client.id cs) -> ClientCollection.toArray c = cs)
    /\ (forall id, ClientCollection.has id c = true <-> In id (map Client.id cs))
    /\ NoDup (map Client.id (ClientCollection.toArray c)).
Proof.
  intros cs c. split; [|split; [|split; [|split]]].
  - intros id. unfold c, ClientCollection.get, ClientCollection.new, Js.find.
    cbn [ClientCollection.clients]. rewrite Map_of_entries_get, <- map_rev.
    induction (rev cs) as [|x l IH]; simpl; [reflexivity|].
    destruct (String.eqb id (Client.id x)); [reflexivity | exact IH].
  - unfold c, ClientCollection.size, ClientCollection.new, Js.Map.size.
    cbn [ClientCollection.clients].
    pose proof (Map_of_entries_length (map (fun x => (Client.id x, x)) cs)) as H.
    rewrite length_map in H. lia.
  - apply toArray_new_nodup.
  - intros id. unfold c, ClientCollection.has, ClientCollection.new.
    cbn [ClientCollection.clients].
    replace (map Client.id cs) with (map fst (map (fun x => (Client.id x, x)) cs))
      by (rewrite map_map; reflexivity).
    rewrite <- Map_of_entries_keys.
    pose proof (Map_has_keys id (Js.Map.of_entries (map (fun x => (Client.id x, x)) cs)))
      as H.
    destruct (Js.Map.has id _); split; intros G; try reflexivity; try discriminate G.
    + destruct (in_dec string_dec id
                  (Js.Map.keys (Js.Map.of_entries (map (fun x => (Client.id x, x)) cs))))
        as [Hin|Hout]; [exact Hin|]. apply H in Hout. discriminate Hout.
    + exfalso. now apply H.
  - apply toArray_well_keyed, new_well_keyed.
Qed.

(** A handshake that turns three minutes old between the two passes: the
    one record is counted online and offline. *)
Lemma statistics_presence_witness :
  let clock := fun i => if (i <? 1)%nat then 100000 else 200000 in
  let s := ClientCollectionOps.getStatistics clock
             (ClientCollection.new [Sample.seen_at 0]) in
  Statistics.total s <= Statistics.online s + Statistics.offline s
  /\ Statistics.total s = 1 /\ Statistics.online s = 1 /\ Statistics.offline s = 1.
Proof.
  cbv zeta. split; [|vm_compute; repeat split].
  apply (statistics_presence [Sample.seen_at 0]
           (fun i => if (i <? 1)%nat then 100000 else 200000)).
  intros i j Hij.
  destruct (Nat.ltb_spec i 1), (Nat.ltb_spec j 1); lia.
Defined.
(* ================================================================== *)
(** * The validator: what its patterns accept *)
(* ================================================================== *)

Section RegExpFacts.
Import RegExp RegExpSpec.
Local Open Scope string_scope.

Lemma app_eq_cons (s1 s2 : string) (c : ascii) (s : string) :
  s1 ++ s2 = String c s ->
  (s1 = "" /\ s2 = String c s) \/ exists s1', s1 = String c s1' /\ s = s1' ++ s2.
Proof.
  destruct s1 as [|c1 s1]; simpl; intros H; [now left|].
  injection H as -> <-. right. now exists s1.
Qed.

Lemma app_eq_nil (s1 s2 : string) : s1 ++ s2 = "" -> s1 = "" /\ s2 = "".
Proof. destruct s1; simpl; [now split | discriminate]. Qed.

Lemma nullable_Matches (r : RegExp.t) : nullable r = true <-> Matches r "".
Proof.
  split.
  - induction r as [| |p|a IHa b IHb|a IHa b IHb|a IHa]; simpl; intros H;
      try discriminate H.
    + constructor.
    + apply andb_true_iff in H as [Ha Hb]. change "" with ("" ++ "").
      constructor; auto.
    + apply orb_true_iff in H as [Ha|Hb]; [apply MAltL | apply MAltR]; auto.
    + constructor.
  - remember "" as s eqn:Es. induction 1 as [|p c Hc|a b s1 s2 H1 IH1 H2 IH2
      |a b s H IH|a b s H IH|a|a s1 s2 H1 IH1 H2 IH2]; simpl;
      try reflexivity; try discriminate Es.
    + apply app_eq_nil in Es as [-> ->]. now rewrite IH1, IH2.
    + now rewrite IH.
    + rewrite IH by exact Es. apply orb_true_r.
Qed.

Lemma deriv_Matches (c : ascii) (r : RegExp.t) :
  forall s, Matches (deriv c r) s <-> Matches r (String c s).
Proof.
  intros s. split.
  - revert s.
    induction r as [| |p|a IHa b IHb|a IHa b IHb|a IHa]; simpl; intros s H.
    + inversion H.
    + inversion H.
    + destruct (p c) eqn:Pc; inversion H; subst. now constructor.
    + destruct (nullable a) eqn:Na.
      * inversion H as [| | | ? ? ? H1 | ? ? ? H1 | |]; subst.
        -- inversion H1 as [| |? ? s1 s2 Ha Hb| | | |]; subst.
           change (String c (s1 ++ s2)) with (String c s1 ++ s2).
           constructor; auto.
        -- change (String c s) with ("" ++ String c s).
           constructor; [now apply nullable_Matches | auto].
      * inversion H as [| |? ? s1 s2 Ha Hb| | | |]; subst.
        change (String c (s1 ++ s2)) with (String c s1 ++ s2).
        constructor; auto.
    + inversion H; subst; [apply MAltL | apply MAltR]; auto.
    + inversion H as [| |? ? s1 s2 Ha Hb| | | |]; subst.
      change (String c (s1 ++ s2)) with (String c s1 ++ s2).
      constructor; auto.
  - remember (String c s) as cs eqn:E. intros H. revert c s E.
    induction H as [|p c' Hc|a b s1 s2 H1 IH1 H2 IH2
      |a b s' H IH|a b s' H IH|a|a s1 s2 H1 IH1 H2 IH2]; intros c s E; simpl.
    + discriminate E.
    + injection E as -> <-. rewrite Hc. constructor.
    + apply app_eq_cons in E as [[-> ->]|(s1' & -> & ->)].
      * apply nullable_Matches in H1. rewrite H1. apply MAltR. now apply IH2.
      * destruct (nullable a); [apply MAltL|]; constructor; auto.
    + apply MAltL. now apply IH.
    + apply MAltR. now apply IH.
    + discriminate E.
    + apply app_eq_cons in E as [[-> ->]|(s1' & -> & ->)].
      * now apply IH2.
      * constructor; auto.
Qed.

(** The matcher decides the strings of the pattern. *)
Lemma test_Matches (s : string) : forall r, test r s = true <-> Matches r s.
Proof.
  induction s as [|c s IH]; intros r; simpl.
  - apply nullable_Matches.
  - rewrite IH. apply deriv_Matches.
Qed.

Lemma Matches_Seq (a b : RegExp.t) (s : string) :
  Matches (Seq a b) s <-> exists s1 s2, s = s1 ++ s2 /\ Matches a s1 /\ Matches b s2.
Proof.
  split.
  - intros H. inversion H; subst. eauto.
  - intros (s1 & s2 & -> & H1 & H2). now constructor.
Qed.

Lemma Matches_Opt (a : RegExp.t) (s : string) :
  Matches (Opt a) s <-> s = "" \/ Matches a s.
Proof.
  unfold Opt. split.
  - intros H. inversion H as [| | |? ? ? H1|? ? ? H1| |]; subst; [left | now right].
    now inversion H1.
  - intros [->|H]; [apply MAltL; constructor | now apply MAltR].
Qed.

Lemma Matches_Char (c : ascii) (s : string) :
  Matches (Char c) s <-> s = String c "".
Proof.
  unfold Char. split.
  - intros H. inversion H as [|? c' Hc| | | | |]; subst.
    apply Ascii.eqb_eq in Hc. now subst.
  - intros ->. constructor. apply Ascii.eqb_refl.
Qed.

Lemma all_app (p : ascii -> bool) (s1 s2 : string) :
  all p (s1 ++ s2) = all p s1 && all p s2.
Proof. induction s1 as [|c s1 IH]; simpl; [reflexivity|]. now rewrite IH, andb_assoc. Qed.

Lemma length_append (s1 s2 : string) :
  String.length (s1 ++ s2) = (String.length s1 + String.length s2)%nat.
Proof. induction s1; simpl; congruence. Qed.

Lemma append_nil_r (s : string) : s ++ "" = s.
Proof. induction s; simpl; congruence. Qed.

Lemma append_assoc (a b c : string) : (a ++ b) ++ c = a ++ b ++ c.
Proof. induction a; simpl; congruence. Qed.

Lemma string_snoc (s : string) :
  s <> "" -> exists s1 c, s = s1 ++ String c ""
                          /\ String.length s = S (String.length s1).
Proof.
  induction s as [|c s IH]; intros H; [now elim H|].
  destruct s as [|c' s].
  - now exists "", c.
  - destruct IH as (s1 & x & E & L); [discriminate|].
    exists (String c s1), x. simpl. rewrite E at 1. split; [reflexivity|].
    simpl in L. now rewrite L.
Qed.

Lemma Matches_Star_class (p : ascii -> bool) (s : string) :
  Matches (Star (Class p)) s <-> all p s = true.
Proof.
  split.
  - remember (Star (Class p)) as r eqn:Er. intros H.
    induction H as [| | | | |a|a s1 s2 H1 IH1 H2 IH2]; try discriminate Er.
    + reflexivity.
    + injection Er as ->. inversion H1; subst. simpl.
      rewrite IH2 by reflexivity. now rewrite andb_true_r.
  - induction s as [|c s IH]; simpl; intros H; [constructor|].
    apply andb_true_iff in H as [Hc Hs].
    change (String c s) with (String c "" ++ s).
    constructor; [now constructor | auto].
Qed.

Lemma Matches_Plus_class (p : ascii -> bool) (s : string) :
  Matches (Plus (Class p)) s <-> (1 <= String.length s)%nat /\ all p s = true.
Proof.
  unfold Plus. rewrite Matches_Seq. split.
  - intros (s1 & s2 & -> & H1 & H2). inversion H1; subst.
    apply Matches_Star_class in H2. simpl. rewrite H2. split; [lia|].
    now rewrite andb_true_r.
  - destruct s as [|c s]; simpl; intros [Hl Ha]; [lia|].
    apply andb_true_iff in Ha as [Hc Hs].
    exists (String c ""), s. split; [reflexivity|].
    split; [now constructor | now apply Matches_Star_class].
Qed.

Lemma Matches_Times_class (p : ascii -> bool) (k : nat) :
  forall s, Matches (Times k (Class p)) s <-> String.length s = k /\ all p s = true.
Proof.
  induction k as [|k IH]; intros s; simpl.
  - split.
    + intros H. inversion H. now split.
    + intros [Hl _]. destruct s; [constructor | discriminate].
  - rewrite Matches_Seq. split.
    + intros (s1 & s2 & -> & H1 & H2). inversion H1; subst.
      apply IH in H2 as [Hl Ha]. simpl. rewrite Hl, Ha. split; [reflexivity|].
      now rewrite andb_true_r.
    + destruct s as [|c s]; simpl; intros [Hl Ha]; [discriminate|].
      apply andb_true_iff in Ha as [Hc Hs].
      exists (String c ""), s. split; [reflexivity|].
      split; [now constructor|]. apply IH. split; [lia | exact Hs].
Qed.

(** [[class]{lo,lo+extra}] *)
Lemma Matches_Between_class (p : ascii -> bool) (lo extra : nat) :
  forall s, Matches (Between lo extra (Class p)) s <-> group p lo (lo + extra) s.
Proof.
  unfold group. induction extra as [|extra IH]; intros s; simpl.
  - rewrite Matches_Times_class. split; intros [Hl Ha]; (split; [lia | exact Ha]).
  - rewrite Matches_Seq. split.
    + intros (s1 & s2 & -> & H1 & H2). apply IH in H1 as [Hl Ha].
      apply Matches_Opt in H2 as [->|H2].
      * rewrite append_nil_r. split; [lia | exact Ha].
      * inversion H2; subst. rewrite length_append, all_app. simpl.
        rewrite Ha. split; [lia|]. now rewrite andb_true_r.
    + intros [Hl Ha].
      destruct (Nat.le_gt_cases (String.length s) (lo + extra)) as [Hle|Hgt].
      * exists s, "". rewrite append_nil_r. split; [reflexivity|].
        split; [apply IH; split; [lia | exact Ha]|]. apply Matches_Opt. now left.
      * destruct (string_snoc s) as (s1 & c & -> & L).
        { intros ->. simpl in Hgt. lia. }
        rewrite all_app in Ha. apply andb_true_iff in Ha as [Ha1 Hc].
        simpl in Hc. rewrite andb_true_r in Hc.
        exists s1, (String c ""). split; [reflexivity|].
        split; [apply IH; split; [lia | exact Ha1]|].
        apply Matches_Opt. right. now constructor.
Qed.

Lemma Matches_heads (G : RegExp.t) (sep : ascii) (k : nat) :
  forall s,
    Matches (Times k (Seq G (Char sep))) s
    <-> exists groups, List.length groups = k /\ Forall (Matches G) groups
                       /\ s = heads sep groups.
Proof.
  induction k as [|k IH]; intros s; simpl.
  - split.
    + intros H. inversion H. exists []. repeat split. constructor.
    + intros (groups & Hl & _ & ->). destruct groups; [constructor | discriminate].
  - rewrite Matches_Seq. split.
    + intros (s1 & s2 & -> & H1 & H2).
      apply Matches_Seq in H1 as (g & d & -> & Hg & Hd).
      apply Matches_Char in Hd as ->.
      apply IH in H2 as (groups & Hl & Hf & ->).
      exists (g :: groups). split; [simpl; congruence|].
      split; [now constructor|]. simpl. now rewrite append_assoc.
    + intros (groups & Hl & Hf & ->). destruct groups as [|g groups]; [discriminate|].
      inversion Hf; subst. injection Hl as Hl.
      exists (g ++ String sep ""), (heads sep groups).
      split; [simpl; now rewrite append_assoc|]. split.
      * constructor; [assumption | now apply Matches_Char].
      * apply IH. now exists groups.
Qed.

Lemma join_snoc (sep : ascii) (groups : list string) (g : string) :
  Js.join (String sep "") (groups ++ [g]) = heads sep groups ++ g.
Proof.
  induction groups as [|x groups IH]; [reflexivity|].
  cbn [app heads fold_right]. fold (heads sep groups).
  destruct (groups ++ [g])%list as [|y rest] eqn:E.
  - now destruct groups.
  - change (Js.join (String sep "") (x :: y :: rest))
      with (x ++ String sep "" ++ Js.join (String sep "") (y :: rest)).
    rewrite IH, append_assoc. reflexivity.
Qed.

Lemma list_snoc {A : Type} (l : list A) (n : nat) :
  List.length l = S n -> exists l' x, l = (l' ++ [x])%list /\ List.length l' = n.
Proof.
  intros H. destruct l as [|a l] using rev_ind; [discriminate|].
  exists l, a. split; [reflexivity|]. rewrite length_app in H. simpl in H. lia.
Qed.

Lemma Matches_prefix_length (pextra : nat) (s : string) :
  Matches (Opt (Seq (Char "/") (Between 1 pextra (Class digit)))) s
  <-> prefix_length (1 + pextra) s.
Proof.
  unfold prefix_length. rewrite Matches_Opt, Matches_Seq. split.
  - intros [->|(s1 & s2 & -> & H1 & H2)]; [now left|]. right.
    apply Matches_Char in H1 as ->. exists s2. split; [reflexivity|].
    now apply Matches_Between_class.
  - intros [->|(m & -> & Hm)]; [now left|]. right.
    exists (String "/" ""), m. split; [reflexivity|].
    split; [now apply Matches_Char | now apply Matches_Between_class].
Qed.

(** The strings of the pattern of an address format. *)
Lemma Matches_address (p : ascii -> bool) (k gextra : nat) (sep : ascii)
      (pextra : nat) (s : string) :
  Matches (address_regex p k gextra sep pextra) s
  <-> address_shape p (S k) (1 + gextra) sep (1 + pextra) s.
Proof.
  unfold address_regex, address_shape. rewrite Matches_Seq. split.
  - intros (s1 & s2 & -> & H1 & H2).
    apply Matches_heads in H1 as (groups & Hl & Hf & ->).
    apply Matches_Seq in H2 as (g & suffix & -> & Hg & Hs).
    apply Matches_prefix_length in Hs. apply Matches_Between_class in Hg.
    exists (groups ++ [g])%list, suffix. split; [rewrite length_app; simpl; lia|].
    split.
    + apply Forall_app. split; [|constructor; [exact Hg | constructor]].
      eapply Forall_impl; [|exact Hf]. intros x. apply Matches_Between_class.
    + split; [exact Hs|]. now rewrite join_snoc, append_assoc.
  - intros (groups & suffix & Hl & Hf & Hs & ->).
    apply list_snoc in Hl as (gs & g & -> & Hl).
    apply Forall_app in Hf as [Hf Hg]. apply Forall_inv in Hg.
    exists (heads sep gs), (g ++ suffix). rewrite join_snoc, append_assoc.
    split; [reflexivity|]. split.
    + apply Matches_heads. exists gs. split; [exact Hl|]. split; [|reflexivity].
      eapply Forall_impl; [|exact Hf]. intros x. apply Matches_Between_class.
    + apply Matches_Seq. exists g, suffix. split; [reflexivity|].
      split; [now apply Matches_Between_class | now apply Matches_prefix_length].
Qed.
End RegExpFacts.

Section NameFacts.
Import RegExp RegExpSpec.
Local Open Scope string_scope.

Lemma name_char_not_space (c : ascii) : name_char c = true -> Js.is_space c = false.
Proof.
  intros H. apply is_space_false_iff. unfold Spec.white. cbn [In].
  unfold name_char, lower, upper, digit, in_range in H. cbv zeta in H.
  rewrite !orb_true_iff, !andb_true_iff, !Nat.leb_le, !Ascii.eqb_eq in H.
  destruct H as [[[[H|H]|H]|H]|H]; try lia; subst c; vm_compute; intuition discriminate.
Qed.

Lemma all_name_spaceless (s : string) :
  all name_char s = true -> SurfaceSpec.spaceless s = true.
Proof.
  induction s as [|c s IH]; cbn [all SurfaceSpec.spaceless]; [reflexivity|].
  intros H. apply andb_true_iff in H as [Hc Hs].
  now rewrite (name_char_not_space c Hc), (IH Hs).
Qed.

Lemma trimEnd_app_white (s post : string) :
  Spec.all_white post -> Js.trimEnd (s ++ post) = Js.trimEnd s.
Proof.
  intros Hp. induction s as [|c s IH].
  - cbn [append Js.trimEnd]. now apply trimEnd_empty_iff.
  - cbn [append Js.trimEnd]. now rewrite IH.
Qed.

Lemma trimStart_decompose (s : string) :
  exists pre, s = pre ++ Js.trimStart s /\ Spec.all_white pre.
Proof.
  induction s as [|c s (pre & E & Hpre)]; [exists ""; split; [reflexivity|constructor]|].
  cbn [Js.trimStart]. destruct (Js.is_space c) eqn:Hc.
  - exists (String c pre). cbn [append]. split; [now rewrite <- E|].
    constructor; [now apply is_space_iff | exact Hpre].
  - exists "". split; [reflexivity | constructor].
Qed.

Lemma trimEnd_decompose (s : string) :
  exists post, s = Js.trimEnd s ++ post /\ Spec.all_white post.
Proof.
  induction s as [|c s (post & E & Hpost)]; [exists ""; split; [reflexivity|constructor]|].
  cbn [Js.trimEnd]. destruct (Js.trimEnd s) as [|x r] eqn:T.
  - cbn [append] in E. subst post. destruct (Js.is_space c) eqn:Hc.
    + exists (String c s). split; [reflexivity|].
      constructor; [now apply is_space_iff | exact Hpost].
    + exists s. split; [reflexivity | exact Hpost].
  - exists post. cbn [append]. split; [now rewrite E at 1 | exact Hpost].
Qed.

(** A text is its trimmed form between two stretches of white space. *)
Lemma trim_decompose (s : string) :
  exists pre post, s = pre ++ Js.trim s ++ post
                   /\ Spec.all_white pre /\ Spec.all_white post.
Proof.
  destruct (trimStart_decompose s) as (pre & E1 & Hpre).
  destruct (trimEnd_decompose (Js.trimStart s)) as (post & E2 & Hpost).
  exists pre, post. unfold Js.trim. now rewrite <- E2.
Qed.

(** White space around a text that holds none is what trimming removes. *)
Lemma trim_padded (pre core post : string) :
  Spec.all_white pre -> Spec.all_white post ->
  core <> "" -> SurfaceSpec.spaceless core = true ->
  Js.trim (pre ++ core ++ post) = core.
Proof.
  intros Hpre Hpost Hne Hs. unfold Js.trim.
  rewrite trimStart_white by exact Hpre.
  destruct core as [|c core]; [now elim Hne|].
  assert (Hc : Js.is_space c = false).
  { cbn [SurfaceSpec.spaceless] in Hs. apply andb_true_iff in Hs as [Hc _].
    now apply negb_true_iff in Hc. }
  cbn [append Js.trimStart]. rewrite Hc.
  change (String c (core ++ post)) with (String c core ++ post).
  rewrite trimEnd_app_white by exact Hpost. now apply trimEnd_spaceless.
Qed.

Lemma padded_name_iff (name : string) :
  padded_name name <-> group name_char 1 64 (Js.trim name).
Proof.
  split.
  - intros (pre & core & post & -> & Hpre & Hpost & Hg).
    rewrite trim_padded; try assumption.
    + destruct Hg as [[Hl _] _]. intros ->. simpl in Hl. lia.
    + apply all_name_spaceless. apply Hg.
  - intros Hg. destruct (trim_decompose name) as (pre & post & E & Hpre & Hpost).
    exists pre, (Js.trim name), post.
    split; [exact E|]. split; [exact Hpre|]. split; [exact Hpost | exact Hg].
Qed.
End NameFacts.

(** X20. The names [validateClientName] accepts are those made of 1 to 64
    characters, each a letter, a digit, an underscore or a hyphen, with any
    white space before and after them, which is let through: such a name is
    its trimmed form between two stretches of white space.  Every
    rejection is a [ValidationException] for the field name that carries
    the name as given, and the check of a creation request is the check of
    its name. *)
Theorem validateClientName_accepts :
  forall name : string,
    (Validator.validateClientName name = Return tt
     <-> RegExpSpec.padded_name name)
    /\ (Validator.validateClientName name = Return tt
        <-> RegExpSpec.group RegExpSpec.name_char 1 64 (Js.trim name))
    /\ (Validator.validateClientName name <> Return tt ->
        exists message,
          Validator.validateClientName name
          = Throw (Exceptions.ValidationException "name" message name))
    /\ (Validator.validateClientCreateDTO (IClientCreateDTO.mk name)
        = Validator.validateClientName name).
Proof.
  intros name.
  assert (R : RegExp.test Validator.NAME_REGEX (Js.trim name) = true
              <-> (1 <= String.length (Js.trim name))%nat
                  /\ RegExpSpec.all RegExpSpec.name_char (Js.trim name) = true).
  { rewrite test_Matches. apply Matches_Plus_class. }
  assert (G : Validator.validateClientName name = Return tt
              <-> RegExpSpec.group RegExpSpec.name_char 1 64 (Js.trim name)).
  { unfold RegExpSpec.group, Validator.validateClientName,
      Validator.MIN_NAME_LENGTH, Validator.MAX_NAME_LENGTH.
    destruct name as [|c name].
    + simpl. split; [discriminate | intros [[H _] _]; simpl in H; lia].
    + cbn [Js.truthy negb].
      destruct (Z.ltb_spec (Z.of_nat (String.length (Js.trim (String c name)))) 1).
      { split; [discriminate | intros [[H1 _] _]; lia]. }
      destruct (Z.ltb_spec 64 (Z.of_nat (String.length (Js.trim (String c name))))).
      { split; [discriminate | intros [[_ H1] _]; lia]. }
      destruct (RegExp.test Validator.NAME_REGEX (Js.trim (String c name))) eqn:T;
        cbn [negb].
      * split; [|reflexivity]. intros _. split; [lia|]. now apply R.
      * split; [discriminate|]. intros [[H1 _] Ha].
        assert (F : false = true) by (apply R; now split).
        discriminate F. }
  split; [now rewrite padded_name_iff|]. split; [exact G|].
  split; [|reflexivity].
  intros Hno. unfold Validator.validateClientName in *.
  destruct (negb (Js.truthy name)); [eauto|].
  destruct (_ <? Validator.MIN_NAME_LENGTH); [eauto|].
  destruct (Validator.MAX_NAME_LENGTH <? _); [eauto|].
  destruct (negb _); [eauto | now elim Hno].
Qed.

(** A name between two no-break spaces is accepted; a name with a space
    inside is not. *)
Lemma validateClientName_accepts_witness :
  Validator.validateClientName (Sample.nbsp ++ "dev-1" ++ Sample.nbsp) = Return tt
  /\ ~ RegExpSpec.padded_name "dev 1".
Proof.
  split.
  - apply (proj1 (validateClientName_accepts (Sample.nbsp ++ "dev-1" ++ Sample.nbsp))).
    exists Sample.nbsp, "dev-1"%string, Sample.nbsp. split; [reflexivity|].
    assert (W : Spec.all_white Sample.nbsp)
      by (constructor; [do 6 right; left; reflexivity | constructor]).
    split; [exact W|]. split; [exact W|].
    split; [simpl; lia | reflexivity].
  - intros H.
    apply (proj1 (validateClientName_accepts "dev 1")) in H. discriminate H.
Defined.

(** X21. The addresses [validateIPAddress] accepts are the strings of two
    shapes: four groups of one to three digits separated by dots, or eight
    groups of one to four hexadecimal digits separated by colons, each
    optionally followed by a slash and one or two (for the colon form: one
    to three) digits.  Nothing bounds the numbers (999.999.999.999/99 is
    accepted) and the abbreviated colon forms are refused.  Every other
    string raises the [ValidationException] for the field address. *)
Theorem validateIPAddress_accepts :
  forall address : string,
    (Validator.validateIPAddress address = Return tt
     <-> RegExpSpec.ipv4_shape address \/ RegExpSpec.ipv6_shape address)
    /\ (Validator.validateIPAddress address <> Return tt ->
        Validator.validateIPAddress address
        = Throw (Exceptions.ValidationException "address"
                   "Invalid IP address format" address)).
Proof.
  intros address.
  assert (R4 : RegExp.test Validator.ipv4Regex address = true
               <-> RegExpSpec.ipv4_shape address).
  { rewrite test_Matches.
    apply (Matches_address RegExp.digit 3 2 "." 1). }
  assert (R6 : RegExp.test Validator.ipv6Regex address = true
               <-> RegExpSpec.ipv6_shape address).
  { rewrite test_Matches.
    apply (Matches_address RegExp.hex 7 3 ":" 2). }
  unfold Validator.validateIPAddress.
  destruct (RegExp.test Validator.ipv4Regex address) eqn:T4;
    destruct (RegExp.test Validator.ipv6Regex address) eqn:T6; cbn [negb andb];
    (split; [|intros Hno; try reflexivity; now elim Hno]).
  - split; [intros _; left; now apply R4 | reflexivity].
  - split; [intros _; left; now apply R4 | reflexivity].
  - split; [intros _; right; now apply R6 | reflexivity].
  - split; [discriminate|].
    intros [H|H]; [apply R4 in H | apply R6 in H]; discriminate H.
Qed.

(** The shapes at work: numbers out of range pass, the short form of the
    loopback address does not. *)
Example scenario_addresses :
  Validator.validateIPAddress "999.999.999.999/99" = Return tt
  /\ Validator.validateIPAddress "fe80:0:0:0:0:0:0:1/128" = Return tt
  /\ Validator.validateIPAddress "::1"
     = Throw (Exceptions.ValidationException "address"
                "Invalid IP address format" "::1")
  /\ Validator.validateClientName " dev-1 " = Return tt.
Proof. vm_compute. repeat split. Qed.
(* ================================================================== *)
(** * Configuration, session and durations *)
(* ================================================================== *)

Section SettingsFacts.
Import SettingsSpec.
Local Open Scope string_scope.



End SettingsFacts.


(** X23. The numbers of the environment.  Without WGEASY_URL, or with an
    empty one, [fromEnv] throws whatever else is set.  A numeric variable
    that is set to a text [parseInt] makes nothing of is neither refused nor
    replaced by the default: when the other settings pass, the
    configuration is built and its timeout is NaN. *)
Theorem fromEnv_keeps_unparsed_number :
  forall (url : UrlHost) (env : Env.t) (address text : string),
    Env.WGEASY_URL env = Some address ->
    Js.truthy address = true ->
    URL_parses address = true ->
    Env.WGEASY_TIMEOUT env = Some text ->
    Js.truthy text = true ->
    JsNum.parseInt10 text = Js.NaN ->
    match Config.fromEnv env with
    | Config.Ok c =>
        Config.timeout c = Js.NaN
        /\ Config.baseUrl c = Config.normalizeUrl address
        /\ Config.password c = Env.WGEASY_PASSWORD env
    | Config.ConfigurationException message =>
        message = "retryAttempts must be a non-negative number"%string
        \/ message = "retryDelay must be a non-negative number"%string
    end.
Proof.
  intros url env address text Hurl Haddr Hparses Ht Htext Hnan.
  unfold Config.fromEnv, Config.new, Config.validateConfig, Config.numeric.
  rewrite Hurl, Haddr, Ht, Htext, Hnan.
  cbn [negb IWgEasyConfig.baseUrl IWgEasyConfig.timeout IWgEasyConfig.retryAttempts
       IWgEasyConfig.retryDelay IWgEasyConfig.password JsNum.le0].
  rewrite Haddr, Hparses. cbn [negb].
  destruct (match Env.WGEASY_RETRY_ATTEMPTS env with
            | Some text0 =>
                if Js.truthy text0 then Some (JsNum.parseInt10 text0) else None
            | None => None
            end) as [a|]; [destruct (JsNum.lt0 a); [now left|]|];
    (destruct (match Env.WGEASY_RETRY_DELAY env with
               | Some text0 =>
                   if Js.truthy text0 then Some (JsNum.parseInt10 text0) else None
               | None => None
               end) as [d|]; [destruct (JsNum.lt0 d); [now right|]|]);
    repeat split.
Qed.

(** X24. The life of a session.  A session made by the constructor, or
    authenticated with no duration, a duration of zero or one that leads
    beyond the dates of the language, never expires: every read gives the
    flag it was given and changes nothing.  A session authenticated at
    [now] for [expiresIn] milliseconds reads as authenticated up to and
    including the instant [now + expiresIn] and as expired after it; once it
    was read after that instant it stays unauthenticated at any time, also
    when the clock is set back. *)
Theorem session_life :
  forall (s : Session.t) (now : Z),
    (forall data t,
        Session.authenticated t (Session.new now data)
        = (ISessionData.authenticated data, Session.new now data)
        /\ Session.isExpired t (Session.new now data) = false)
    /\ (forall flag expiresIn t,
          SettingsSpec.open_ended (Session.setAuthenticated now flag expiresIn s) ->
          Session.authenticated t (Session.setAuthenticated now flag expiresIn s)
          = (flag, Session.setAuthenticated now flag expiresIn s)
          /\ Session.isExpired t (Session.setAuthenticated now flag expiresIn s)
             = false)
    /\ (forall flag expiresIn,
          flag = false \/ expiresIn = None \/ expiresIn = Some 0
          \/ (exists ms, expiresIn = Some ms /\ 8640000000000000 < Z.abs (now + ms)) ->
          SettingsSpec.open_ended (Session.setAuthenticated now flag expiresIn s))
    /\ (forall ms,
          ms <> 0 -> Z.abs (now + ms) <= 8640000000000000 ->
          let s1 := Session.setAuthenticated now true (Some ms) s in
          SettingsSpec.valid_until (now + ms) s1
          /\ (forall t, fst (Session.authenticated t s1) = (t <=? now + ms)
                        /\ Session.isExpired t s1 = (now + ms <? t))
          /\ (forall t t', now + ms < t ->
                           fst (Session.authenticated t'
                                  (snd (Session.authenticated t s1))) = false)).
Proof.
  intros s now. split; [|split; [|split]].
  - intros data t. split; reflexivity.
  - intros flag expiresIn t [H|H]; unfold Session.authenticated, Session.isExpired;
      rewrite H; split; reflexivity.
  - intros flag expiresIn H. unfold SettingsSpec.open_ended, Session.setAuthenticated.
    cbn [Session._expiresAt].
    destruct H as [->|[->|[->|(ms & -> & Hbig)]]].
    + left. now destruct expiresIn.
    + now left.
    + left. now rewrite andb_false_r.
    + destruct (flag && negb (ms =? 0)); [right | now left].
      unfold JsNum.Date_of_time.
      destruct (Z.leb_spec (Z.abs (now + ms)) 8640000000000000); [lia | reflexivity].
  - intros ms Hms Hrange s1.
    assert (E : Session._expiresAt s1 = Some (Some (now + ms))).
    { unfold s1, Session.setAuthenticated. cbn [Session._expiresAt andb].
      apply Z.eqb_neq in Hms. rewrite Hms. cbn [negb]. unfold JsNum.Date_of_time.
      destruct (Z.leb_spec (Z.abs (now + ms)) 8640000000000000); [reflexivity | lia]. }
    split; [split; [reflexivity | exact E]|]. split.
    + intros t. unfold Session.authenticated, Session.isExpired. rewrite E.
      unfold Js.Date_gt, Js.Date_lt.
      destruct (Z.ltb_spec (now + ms) t); cbn [fst Session._authenticated].
      * split; [|reflexivity]. symmetry. apply Z.leb_gt. lia.
      * split; [|reflexivity]. symmetry. apply Z.leb_le. lia.
    + intros t t' Hlate.
      assert (R : snd (Session.authenticated t s1)
                  = {| Session._authenticated := false;
                       Session._requiresPassword := Session._requiresPassword s1;
                       Session._authenticatedAt := None;
                       Session._expiresAt := Some (Some (now + ms)) |}).
      { unfold Session.authenticated. rewrite E. unfold Js.Date_gt, Js.Date_lt.
        destruct (Z.ltb_spec (now + ms) t); [reflexivity | lia]. }
      rewrite R. unfold Session.authenticated. cbn [Session._expiresAt].
      unfold Js.Date_gt, Js.Date_lt. now destruct (now + ms <? t').
Qed.

(** X25. [formatDuration] shows the two largest units that apply: days
    and hours from one day on, hours and minutes from one hour on, minutes
    and seconds from one minute on, and whole seconds below, the smaller
    unit being what is left within the larger one.  A negative duration (a
    date in the future) is shown in seconds, rounded down, and a duration
    that is no number (an invalid date) as NaNs.  The durations are those
    between two dates of the language. *)
Theorem formatDuration_units :
  forall ms : Z,
    Z.abs ms <= 17280000000000000 ->
    let show := Js.String_of_Z in
    ClientFormat.formatDuration (Js.Num ms)
    = (if 86400000 <=? ms then
         (show (ms / 86400000) ++ "d " ++ show ((ms / 3600000) mod 24) ++ "h")%string
       else if 3600000 <=? ms then
         (show (ms / 3600000) ++ "h " ++ show ((ms / 60000) mod 60) ++ "m")%string
       else if 60000 <=? ms then
         (show (ms / 60000) ++ "m " ++ show ((ms / 1000) mod 60) ++ "s")%string
       else (show (ms / 1000) ++ "s")%string)
    /\ ClientFormat.formatDuration Js.NaN = "NaNs"%string
    /\ (forall (now : Z) (c : Client.t),
          Client.createdAt c = None -> ClientFormat.ageFormatted now c = "NaNs"%string)
    /\ (forall (now : Z) (c : Client.t),
          ClientFormat.lastSeenFormatted now c = None
          <-> Client.latestHandshakeAt c = None).
Proof.
  intros ms _ show. split; [|split; [reflexivity | split]].
  - unfold ClientFormat.formatDuration, JsNum.floor_div, JsNum.gt0, JsNum.rem,
      JsNum.toString. fold show.
    assert (M : ms / 1000 / 60 = ms / 60000)
      by (rewrite Z.div_div by lia; reflexivity).
    assert (H : ms / 1000 / 60 / 60 = ms / 3600000)
      by (rewrite M, Z.div_div by lia; reflexivity).
    assert (D : ms / 1000 / 60 / 60 / 24 = ms / 86400000)
      by (rewrite H, Z.div_div by lia; reflexivity).
    rewrite D, H, M.
    destruct (Z.leb_spec 86400000 ms) as [Hd|Hd].
    { assert (0 < ms / 86400000) by (apply Z.div_str_pos; lia).
      destruct (Z.ltb_spec 0 (ms / 86400000)); [|lia].
      rewrite Z.rem_mod_nonneg; [reflexivity | apply Z.div_pos; lia | lia]. }
    assert (ms / 86400000 <= 0).
    { destruct (Z.le_gt_cases 0 ms).
      - rewrite Z.div_small by lia. lia.
      - apply Z.lt_le_incl, Z.div_lt_upper_bound; lia. }
    destruct (Z.ltb_spec 0 (ms / 86400000)); [lia|].
    destruct (Z.leb_spec 3600000 ms) as [Hh|Hh].
    { assert (0 < ms / 3600000) by (apply Z.div_str_pos; lia).
      destruct (Z.ltb_spec 0 (ms / 3600000)); [|lia].
      rewrite Z.rem_mod_nonneg; [reflexivity | apply Z.div_pos; lia | lia]. }
    assert (ms / 3600000 <= 0).
    { destruct (Z.le_gt_cases 0 ms).
      - rewrite Z.div_small by lia. lia.
      - apply Z.lt_le_incl, Z.div_lt_upper_bound; lia. }
    destruct (Z.ltb_spec 0 (ms / 3600000)); [lia|].
    destruct (Z.leb_spec 60000 ms) as [Hm|Hm].
    { assert (0 < ms / 60000) by (apply Z.div_str_pos; lia).
      destruct (Z.ltb_spec 0 (ms / 60000)); [|lia].
      rewrite Z.rem_mod_nonneg; [reflexivity | apply Z.div_pos; lia | lia]. }
    assert (ms / 60000 <= 0).
    { destruct (Z.le_gt_cases 0 ms).
      - rewrite Z.div_small by lia. lia.
      - apply Z.lt_le_incl, Z.div_lt_upper_bound; lia. }
    destruct (Z.ltb_spec 0 (ms / 60000)); [lia | reflexivity].
  - intros now c Hc. unfold ClientFormat.ageFormatted, ClientFormat.age.
    now rewrite Hc.
  - intros now c. unfold ClientFormat.lastSeenFormatted.
    destruct (Client.latestHandshakeAt c); split; intros H; try reflexivity;
      discriminate H.
Qed.

Section SettingsWitnesses.
Import (hints) Settings.

(** WGEASY_TIMEOUT=soon: the timeout of the configuration is NaN. *)
Lemma fromEnv_keeps_unparsed_number_witness :
Config.fromEnv Settings.careless
= Config.Ok {| Config.baseUrl := "http://localhost:51821";
               Config.password := Some "secret"%string;
               Config.timeout := Js.NaN;
               Config.retryAttempts := Js.Num 3;
               Config.retryDelay := Js.Num 1000 |}.
Proof.
pose proof (fromEnv_keeps_unparsed_number Settings.url Settings.careless
              "http://localhost:51821/" "soon"
              eq_refl eq_refl eq_refl eq_refl eq_refl eq_refl) as H.
destruct (Config.fromEnv Settings.careless) as [c|message] eqn:E.
- vm_compute in E. injection E as <-. reflexivity.
- vm_compute in E. discriminate E.
Defined.

(** A day, two hours and some minutes. *)
Lemma formatDuration_units_witness :
ClientFormat.formatDuration (Js.Num 93784000) = "1d 2h"%string.
Proof.
destruct (formatDuration_units 93784000) as [H _]; [simpl; lia|].
rewrite H. reflexivity.
Defined.
End SettingsWitnesses.
(* ================================================================== *)
(** * The emitter: registration and once *)
(* ================================================================== *)

Section RegistrationFacts.
Import EventEmitter.

Lemma has_values (x : HandlerRef) (s : HandlerSet.t) :
  HandlerSet.has x s = existsb (Nat.eqb x) (HandlerSet.values s).
Proof.
  unfold HandlerSet.has, HandlerSet.values.
  induction s as [|[y|] s IH]; simpl; [reflexivity| |exact IH]. now rewrite IH.
Qed.

Lemma values_add (x : HandlerRef) (s : HandlerSet.t) :
  HandlerSet.values (HandlerSet.add x s)
  = if existsb (Nat.eqb x) (HandlerSet.values s) then HandlerSet.values s
    else HandlerSet.values s ++ [x].
Proof.
  unfold HandlerSet.add. rewrite has_values.
  destruct (existsb (Nat.eqb x) (HandlerSet.values s)); [reflexivity|].
  now rewrite values_app.
Qed.

Lemma Map_has_get {V : Type} (k : string) (m : Js.Map.t V) :
  Js.Map.has k m = false -> Js.Map.get k m = None.
Proof. unfold Js.Map.has. now destruct (Js.Map.get k m). Qed.

Lemma registered_on (event : EventType.t) (h : HandlerRef) (em : t) :
  registered event (on event h em)
  = if existsb (Nat.eqb h) (registered event em) then registered event em
    else registered event em ++ [h].
Proof.
  unfold registered, on. cbv zeta.
  destruct (Js.Map.has (EventType.name event) (handlers em)) eqn:E.
  - destruct (Js.Map.get (EventType.name event) (handlers em)) as [cur|] eqn:G.
    + cbn [handlers]. rewrite Map_get_set_same. apply values_add.
    + unfold Js.Map.has in E. rewrite G in E. discriminate E.
  - rewrite Map_get_set_same. cbn [handlers]. rewrite Map_get_set_same.
    now rewrite (Map_has_get _ _ E).
Qed.

Lemma registered_off (event : EventType.t) (h : HandlerRef) (em : t) :
  registered event (off event h em)
  = List.filter (fun y => negb (Nat.eqb h y)) (registered event em).
Proof.
  unfold registered.
  destruct (Js.Map.get (EventType.name event) (handlers em)) as [cur|] eqn:G.
  - rewrite (off_same event h em cur G). apply values_delete.
  - unfold off. now rewrite G, G.
Qed.

Lemma Map_get_filter_other {V : Type} (k k' : string) (m : Js.Map.t V) :
  k <> k' ->
  Js.Map.get k (List.filter (fun kv => negb (String.eqb (fst kv) k')) m)
  = Js.Map.get k m.
Proof.
  intros Hne. induction m as [|[k0 v0] m IH]; simpl; [reflexivity|].
  destruct (String.eqb_spec k0 k') as [->|H0]; simpl.
  - destruct (String.eqb_spec k k'); [contradiction | exact IH].
  - now rewrite IH.
Qed.

Lemma Map_get_filter_same {V : Type} (k : string) (m : Js.Map.t V) :
  Js.Map.get k (List.filter (fun kv => negb (String.eqb (fst kv) k)) m) = None.
Proof.
  induction m as [|[k0 v0] m IH]; simpl; [reflexivity|].
  destruct (String.eqb_spec k0 k) as [->|H0]; simpl; [exact IH|].
  destruct (String.eqb_spec k k0); [congruence | exact IH].
Qed.
End RegistrationFacts.

(** X26. Registration.  The handlers of a kind are a set kept in the order
    of their first registration: [on] adds a handler at the end unless it
    is there already, so that a handler registered twice is listed (and
    invoked) once; [off] removes it and is harmless when it is not there;
    neither touches the handlers of another kind.  [removeAllListeners]
    with a kind empties that kind and no other, and without one empties
    them all. *)
Theorem registration_laws :
  forall (event : EventType.t) (h : HandlerRef) (em : EventEmitter.t),
    let listed := EventEmitter.registered event in
    listed (EventEmitter.on event h em)
    = (if existsb (Nat.eqb h) (listed em) then listed em else listed em ++ [h])
    /\ listed (EventEmitter.on event h (EventEmitter.on event h em))
       = listed (EventEmitter.on event h em)
    /\ listed (EventEmitter.off event h em)
       = List.filter (fun y => negb (Nat.eqb h y)) (listed em)
    /\ ~ In h (listed (EventEmitter.off event h (EventEmitter.on event h em)))
    /\ (forall event', event' <> event ->
          listed (EventEmitter.on event' h em) = listed em
          /\ listed (EventEmitter.off event' h em) = listed em
          /\ listed (EventEmitter.removeAllListeners (Some event') em) = listed em)
    /\ listed (EventEmitter.removeAllListeners (Some event) em) = []
    /\ listed (EventEmitter.removeAllListeners None em) = [].
Proof.
  intros event h em listed. unfold listed.
  split; [apply registered_on|]. split; [|split; [apply registered_off|split]].
  - rewrite (registered_on event h (EventEmitter.on event h em)).
    destruct (existsb (Nat.eqb h)
                (EventEmitter.registered event (EventEmitter.on event h em))) eqn:E;
      [reflexivity|].
    exfalso. apply Bool.not_true_iff_false in E. apply E.
    apply existsb_exists. exists h. split; [|apply Nat.eqb_refl].
    rewrite registered_on.
    destruct (existsb (Nat.eqb h) (EventEmitter.registered event em)) eqn:E'.
    + apply existsb_exists in E' as (x & Hx & Ex). apply Nat.eqb_eq in Ex. now subst x.
    + apply in_or_app. right. now left.
  - rewrite registered_off. intros Hin. apply filter_In in Hin as [_ Hne].
    now rewrite Nat.eqb_refl in Hne.
  - split; [|split].
    + intros event' Hne. unfold EventEmitter.registered.
      rewrite on_other, off_other by exact Hne. split; [reflexivity|].
      split; [reflexivity|]. cbn [EventEmitter.removeAllListeners EventEmitter.handlers].
      rewrite Map_get_filter_other; [reflexivity|].
      intros E. apply Hne. symmetry. now apply EventType_name_inj.
    + unfold EventEmitter.registered.
      cbn [EventEmitter.removeAllListeners EventEmitter.handlers].
      now rewrite Map_get_filter_same.
    + reflexivity.
Qed.

Section OnceFacts.
Import EventEmitter NotifierSpec.
Context {Data Observers : Type}.
Variable code : HandlerRef -> Data -> Observers -> Observers * Run.
Implicit Types (w : World (Observers := Observers)).

Lemma delete_length (x : HandlerRef) (s : HandlerSet.t) :
  List.length (HandlerSet.delete x s) = List.length s.
Proof. apply length_map. Qed.

Lemma delete_values_incl (x : HandlerRef) (s : HandlerSet.t) :
  forall y, In y (HandlerSet.values (HandlerSet.delete x s)) ->
            In y (HandlerSet.values s) /\ y <> x.
Proof.
  intros y. rewrite values_delete, filter_In. intros [Hin Hne]. split; [exact Hin|].
  intros ->. now rewrite Nat.eqb_refl in Hne.
Qed.

(** A run that keeps to itself and calls [off] for its own handler leaves
    the set without it. *)
Lemma calls_unsubscribe (event : EventType.t) (self : HandlerRef) (cs : list Call) :
  forall (em : t) (cur : HandlerSet.t),
    Forall (fun c => match c with
                     | On event' _ => event' <> event
                     | Off event' handler => event' = event -> handler = self
                     end) cs ->
    In (Off event self) cs ->
    Js.Map.get (EventType.name event) (handlers em) = Some cur ->
    Js.Map.get (EventType.name event)
      (handlers (fold_left (fun em c => perform c em) cs em))
    = Some (HandlerSet.delete self cur).
Proof.
  induction cs as [|c cs IH]; intros em cur Hk Hin E; [destruct Hin|].
  inversion Hk as [|? ? Hc Hcs]; subst. cbn [fold_left].
  destruct Hin as [->|Hin].
  - cbn [perform].
    destruct (calls_keep_set event self cs (off event self em)
                (HandlerSet.delete self cur) Hcs (off_same event self em cur E))
      as [H|H]; [exact H|]. now rewrite delete_idem in H.
  - destruct (calls_keep_set event self [c] em cur
                (Forall_cons c Hc (Forall_nil _)) E) as [H|H]; cbn [fold_left] in H.
    + now apply IH.
    + rewrite (IH _ _ Hcs Hin H). now rewrite delete_idem.
Qed.

(** The set of the kind after the handlers of [hs] have run, each keeping
    to itself: the entries are those of before, some deleted. *)
Lemma notify_all_set (event : EventType.t) (data : Data) (hs : list HandlerRef) :
  forall w (cur : HandlerSet.t),
    Js.Map.get (EventType.name event) (handlers (emitter w)) = Some cur ->
    (forall h, In h hs ->
               forall d obs, keeps_to_itself event h (snd (code h d obs))) ->
    exists cur',
      Js.Map.get (EventType.name event)
        (handlers (emitter (notify_all code event data hs w))) = Some cur'
      /\ List.length cur' = List.length cur
      /\ (forall y, In y (HandlerSet.values cur') -> In y (HandlerSet.values cur))
      /\ (NoDup (HandlerSet.values cur) -> NoDup (HandlerSet.values cur'))
      /\ (forall h, In h hs ->
            (forall d obs, In (Off event h) (calls (snd (code h d obs)))) ->
            ~ In h (HandlerSet.values cur')).
Proof.
  unfold notify_all. induction hs as [|h hs IH]; intros w cur E Hk; cbn [fold_left].
  - exists cur. split; [exact E|]. split; [reflexivity|]. split; [auto|].
    split; [auto|]. intros h [].
  - assert (Hh : keeps_to_itself event h (snd (code h data (observers w))))
      by (apply Hk; now left).
    assert (S1 : exists cur1,
               Js.Map.get (EventType.name event)
                 (handlers (emitter (invoke code event data h w))) = Some cur1
               /\ (cur1 = cur \/ cur1 = HandlerSet.delete h cur)
               /\ ((forall d obs, In (Off event h) (calls (snd (code h d obs)))) ->
                   cur1 = HandlerSet.delete h cur)).
    { rewrite invoke_emitter.
      destruct (calls_keep_set event h _ (emitter w) cur Hh E) as [H|H].
      - exists cur. split; [exact H|]. split; [now left|]. intros Hoff.
        pose proof (calls_unsubscribe event h _ (emitter w) cur Hh
                      (Hoff data (observers w)) E) as H'.
        congruence.
      - exists (HandlerSet.delete h cur). split; [exact H|]. split; [now right|].
        reflexivity. }
    destruct S1 as (cur1 & E1 & Hcases & Hoff1).
    destruct (IH (invoke code event data h w) cur1 E1) as
      (cur' & E' & Hlen & Hincl & Hnd & Hgone).
    { intros h' Hin. apply Hk. now right. }
    assert (Hincl1 : forall y, In y (HandlerSet.values cur1) ->
                               In y (HandlerSet.values cur)).
    { destruct Hcases as [->| ->]; [auto|]. intros y Hy.
      now apply delete_values_incl in Hy. }
    exists cur'. split; [exact E'|]. split.
    { rewrite Hlen. destruct Hcases as [->| ->]; [reflexivity | apply delete_length]. }
    split; [auto|]. split.
    { intros H. apply Hnd. destruct Hcases as [->| ->]; [exact H|].
      now apply delete_NoDup. }
    intros h' [<-|Hin] Hoff.
    + intros Hin'. apply Hincl in Hin'. rewrite (Hoff1 Hoff) in Hin'.
      apply delete_values_incl in Hin' as [_ Hne]. now apply Hne.
    + now apply Hgone.
Qed.
End OnceFacts.

(** X27. [once].  The wrapper that [once] registers is invoked by the next
    emission of the kind, with the other handlers, and takes itself off the
    list while it runs: when the emission returns it is no longer
    registered, and an emission that follows does not invoke it.  (The
    handlers of the kind are taken to keep to themselves, as in C9.) *)
Theorem once_runs_once :
  forall (Data Observers : Type)
         (code : HandlerRef -> Data -> Observers -> Observers * EventEmitter.Run)
         (inner : Data -> Observers -> Observers * EventEmitter.Run)
         (event : EventType.t) (self : HandlerRef) (em0 : EventEmitter.t)
         (w : EventEmitter.World (Observers := Observers)) (data data' : Data)
         (steps steps' : nat),
    EventEmitter.emitter w = EventEmitterOps.once event self em0 ->
    ~ In self (EventEmitter.registered event em0) ->
    NoDup (EventEmitter.registered event em0) ->
    (forall d obs, code self d obs = EventEmitter.onceHandler event self inner d obs) ->
    (forall h, In h (EventEmitter.registered event em0 ++ [self]) ->
               forall d obs,
                 NotifierSpec.keeps_to_itself event h (snd (code h d obs))) ->
    (EventEmitterOps.slots event (EventEmitter.emitter w) < steps)%nat ->
    (EventEmitterOps.slots event (EventEmitter.emitter w) < steps')%nat ->
    exists w1 w2,
      EventEmitter.emit code steps event data w = Some (Return tt, w1)
      /\ EventEmitter.invoked w1
         = EventEmitter.invoked w ++ EventEmitter.registered event em0 ++ [self]
      /\ ~ In self (EventEmitter.registered event (EventEmitter.emitter w1))
      /\ EventEmitter.emit code steps' event data' w1 = Some (Return tt, w2)
      /\ EventEmitter.invoked w2
         = EventEmitter.invoked w1
           ++ EventEmitter.registered event (EventEmitter.emitter w1)
      /\ (forall h, In h (EventEmitter.registered event (EventEmitter.emitter w1)) ->
                    In h (EventEmitter.registered event em0)).
Proof.
  intros Data Observers code inner event self em0 w data data' steps steps'
    Hw Hfresh Hnd0 Hcode Hk Hsteps Hsteps'.
  assert (Hreg : EventEmitter.registered event (EventEmitter.emitter w)
                 = EventEmitter.registered event em0 ++ [self]).
  { rewrite Hw. unfold EventEmitterOps.once. rewrite registered_on.
    destruct (existsb (Nat.eqb self) (EventEmitter.registered event em0)) eqn:E;
      [|reflexivity].
    apply existsb_exists in E as (x & Hx & Ex). apply Nat.eqb_eq in Ex. now subst x. }
  destruct (Js.Map.get (EventType.name event)
              (EventEmitter.handlers (EventEmitter.emitter w))) as [cur|] eqn:E.
  2:{ unfold EventEmitter.registered in Hreg at 1. rewrite E in Hreg.
      destruct (EventEmitter.registered event em0); discriminate Hreg. }
  assert (Hvals : HandlerSet.values cur = EventEmitter.registered event em0 ++ [self]).
  { unfold EventEmitter.registered in Hreg at 1. now rewrite E in Hreg. }
  assert (Hnd : NoDup (HandlerSet.values cur)).
  { rewrite Hvals. apply NoDup_app; [exact Hnd0 | repeat constructor; intros [] |].
    intros x Hx [Heq|[]]. subst x. now apply Hfresh. }
  assert (Hlen : List.length cur = EventEmitterOps.slots event (EventEmitter.emitter w)).
  { unfold EventEmitterOps.slots. now rewrite E. }
  assert (Hk' : forall h, In h (HandlerSet.values cur) ->
                          forall d obs,
                            NotifierSpec.keeps_to_itself event h (snd (code h d obs))).
  { rewrite Hvals. exact Hk. }
  set (w1 := NotifierSpec.notify_all code event data (HandlerSet.values cur) w).
  destruct (notify_all_set code event data (HandlerSet.values cur) w cur E Hk')
    as (cur1 & E1 & Hlen1 & Hincl1 & Hnd1 & Hgone).
  fold w1 in E1.
  assert (Hself : ~ In self (HandlerSet.values cur1)).
  { apply Hgone.
    - rewrite Hvals. apply in_or_app. right. now left.
    - intros d obs. rewrite Hcode. unfold EventEmitter.onceHandler.
      destruct (inner d obs) as [obs' run]. now left. }
  assert (Hreg1 : EventEmitter.registered event (EventEmitter.emitter w1)
                  = HandlerSet.values cur1).
  { unfold EventEmitter.registered. now rewrite E1. }
  exists w1, (NotifierSpec.notify_all code event data' (HandlerSet.values cur1) w1).
  split; [|split; [|split; [|split; [|split]]]].
  - unfold EventEmitter.emit. rewrite E.
    rewrite (forEach_from_keeps code event data cur 0 steps w cur E eq_refl Hnd Hk');
      [reflexivity | lia].
  - unfold w1. now rewrite notify_all_invoked, Hvals.
  - now rewrite Hreg1.
  - unfold EventEmitter.emit. rewrite E1.
    rewrite (forEach_from_keeps code event data' cur1 0 steps' w1 cur1 E1 eq_refl);
      [reflexivity | now apply Hnd1 | | lia].
    intros h Hin. apply Hk'. now apply Hincl1.
  - now rewrite notify_all_invoked, Hreg1.
  - rewrite Hreg1. intros h Hin. pose proof (Hincl1 h Hin) as Hc.
    rewrite Hvals in Hc. apply in_app_or in Hc as [Hc|[<-|[]]]; [exact Hc|].
    now elim Hself.
Qed.

(** Handler 4 of the sample world is a once-wrapper: registered after
    handler 5, it runs in the first emission and not in the second. *)
Lemma once_runs_once_witness :
  let em0 := EventEmitter.emitter (Sample.listening [5]%nat) in
  let w := Sample.listening [5; 4]%nat in
  exists w1 w2,
    EventEmitter.emit Sample.handler_code 5 EventType.client_created tt w
    = Some (Return tt, w1)
    /\ EventEmitter.invoked w1 = [5; 4]%nat
    /\ EventEmitter.emit Sample.handler_code 5 EventType.client_created tt w1
       = Some (Return tt, w2)
    /\ EventEmitter.invoked w2 = [5; 4; 5]%nat.
Proof.
  cbv zeta.
  destruct (once_runs_once unit unit Sample.handler_code Sample.quiet
              EventType.client_created 4%nat
              (EventEmitter.emitter (Sample.listening [5]%nat))
              (Sample.listening [5; 4]%nat) tt tt 5 5)
    as (w1 & w2 & H1 & H2 & H3 & H4 & H5 & H6).
  - reflexivity.
  - simpl. intuition discriminate.
  - repeat constructor. simpl. tauto.
  - reflexivity.
  - intros h [<-|[<-|[]]] d obs; repeat constructor.
  - vm_compute. lia.
  - vm_compute. lia.
  - exists w1, w2. split; [exact H1|]. split; [exact H2|]. split; [exact H4|].
    rewrite H5, H2. f_equal.
    assert (E : w1 = NotifierSpec.notify_all Sample.handler_code
                       EventType.client_created tt [5; 4]%nat
                       (Sample.listening [5; 4]%nat)).
    { vm_compute in H1. injection H1 as <-. reflexivity. }
    rewrite E. reflexivity.
Defined.
(* ================================================================== *)
(** * The authentication service *)
(* ================================================================== *)

Section AnsweredRequests.
Import Exceptions TransportSpec.
Context {T : Type} {payload : Payload T} {stringify : Stringify}.

(** A request whose first call is answered in time by [r]. *)
Lemma answered_request (options : IHttpOptions.t) (h : HttpClient.t) (n : Net.t)
      (r : Net.Response) :
  1 <= HttpClient.retryAttempts h ->
  answers h (Net.server n (Net.fetched n)) r ->
  let after := (HttpClient.parseCookies (Net.set_cookie r) h,
                after_fetch h options n) in
  (forall a, HttpClient.interpret r = Return a ->
             HttpClient.request (T := T) options (h, n) = (Return a, after))
  /\ (Net.status r = 401 ->
      HttpClient.request (T := T) options (h, n)
      = (Throw UnauthorizedException, after)).
Proof.
  intros Hbudget [Hin Hs] after. unfold in_time in Hin.
  assert (L : forall o, HttpClient.interpret (T := T) r = o ->
              (forall e, o = Throw e ->
                         is_UnauthorizedException e || is_RateLimitException e = true) ->
              HttpClient.request (T := T) options (h, n) = (o, after)).
  { intros o Ho Hfatal. rewrite request_eq.
    destruct (Z.to_nat (HttpClient.retryAttempts h)) as [|k] eqn:Ek; [lia|].
    cbn [HttpClient.request_loop]. unfold try_catch. rewrite attempt_once_eq.
    cbv zeta.
    destruct (Z.ltb_spec (HttpClient.timeout h)
                (Net.latency (Net.server n (Net.fetched n)))); [lia|].
    rewrite Hs, Ho. destruct o as [a|e]; [reflexivity|].
    unfold bind, HttpClient.on_error. simpl. now rewrite (Hfatal e eq_refl). }
  split.
  - intros a Ha. apply L; [exact Ha | discriminate].
  - intros H401. apply L.
    + unfold HttpClient.interpret. now rewrite H401.
    + now intros e [= <-].
Qed.
End AnsweredRequests.

Section AuthFacts.
Import AuthService AuthSpec.
Context {host : AuthHost} {Observers : Type}.
Variable code : HandlerRef -> Payload -> Observers -> Observers * EventEmitter.Run.
Implicit Types (st : State (Observers := Observers)).

Lemma with_session_same st (s : Session.t) :
  session (service st) = Some s -> with_session (Some s) st = st.
Proof.
  destruct st as [[ses pw] h n w]. simpl. now intros ->.
Qed.

Lemma read_open_session st (s : Session.t) :
  session (service st) = Some s -> Session._expiresAt s = None ->
  read_authenticated st = (Session._authenticated s, st).
Proof.
  intros Hs He. unfold read_authenticated, Session.authenticated.
  rewrite Hs, He. now rewrite with_session_same.
Qed.

Lemma getSession_kept st (s : Session.t) :
  holds st s -> getSession st = (Done s, st).
Proof.
  intros (Hs & Ha & He). unfold getSession.
  rewrite (read_open_session st s Hs He), Ha, Hs.
  unfold Session.isExpired. now rewrite He.
Qed.

Lemma new_session_open (now : Z) (data : ISessionData.t) :
  Session._expiresAt (Session.new now data) = None.
Proof. reflexivity. Qed.

Lemma read_no_deadline st :
  no_deadline st -> snd (read_authenticated st) = st.
Proof.
  intros H. unfold read_authenticated.
  destruct (session (service st)) as [s|] eqn:Hs; [|reflexivity].
  unfold Session.authenticated. rewrite (H s Hs). cbn [snd].
  now apply with_session_same.
Qed.

Lemma getSession_no_deadline st :
  no_deadline st -> no_deadline (snd (getSession st)).
Proof.
  intros H. unfold getSession.
  pose proof (read_no_deadline st H) as R.
  destruct (read_authenticated st) as [a st1]. cbn [snd] in R. subst st1.
  destruct (match session (service st) with
            | Some s => if a && negb (Session.isExpired (Net.now (net st)) s)
                        then Some s else None
            | None => None
            end) as [s|]; [exact H|].
  destruct (HttpClient.get "/api/session" (httpClient st, net st))
    as [[response|e] hn]; cbn [snd]; [|exact H].
  intros s. cbn. now intros [= <-].
Qed.
End AuthFacts.

(** X28. The failures of [login].  With no password to use, none given
    and none configured, or an empty one, it raises
    [AuthenticationException] 'Password is required' and does nothing.  With
    a password, when the service answers the one call with 401 the caller
    gets the [UnauthorizedException] of the transport, not an
    [AuthenticationException]; 'Invalid password' is what a readable answer
    with another status that is no success gives.  In both cases the
    session of the service is what it was and no event is emitted; the
    cookies of the answer are kept. *)
Theorem login_failures :
  forall (host : AuthHost) (Observers : Type)
         (code : HandlerRef -> AuthService.Payload -> Observers
                 -> Observers * EventEmitter.Run)
         (steps : nat) (password : option string)
         (st : AuthService.State (Observers := Observers)),
    let used := AuthService.passwordToUse password (AuthService.service st) in
    (used = None \/ used = Some EmptyString ->
     AuthService.login code steps password st
     = Some (AuthService.Raised
               (AuthService.AuthenticationException "Password is required"), st))
    /\ (forall (p : string) (resp : Net.Response),
          used = Some p -> Js.truthy p = true ->
          1 <= HttpClient.retryAttempts (AuthService.httpClient st) ->
          TransportSpec.answers (AuthService.httpClient st)
            (Net.server (AuthService.net st) (Net.fetched (AuthService.net st))) resp ->
          let st' := AuthSpec.after_login_call p resp st in
          AuthService.service st' = AuthService.service st
          /\ AuthService.world st' = AuthService.world st
          /\ Net.fetched (AuthService.net st') = S (Net.fetched (AuthService.net st))
          /\ (Net.status resp = 401 ->
              AuthService.login code steps password st
              = Some (AuthService.Raised
                        (AuthService.Transport Exceptions.UnauthorizedException), st'))
          /\ (forall a, HttpClient.interpret (T := ISessionData.t) resp = Return a ->
                        ~ 200 <= Net.status resp <= 299 ->
                        AuthService.login code steps password st
                        = Some (AuthService.Raised
                                  (AuthService.AuthenticationException
                                     "Invalid password"), st'))).
Proof.
  intros host Observers code steps password st used. split.
  - intros [H|H]; unfold AuthService.login; fold used; now rewrite H.
  - intros p resp Hused Hp Hbudget Hans st'.
    destruct (answered_request (T := ISessionData.t) (AuthSpec.login_request p)
                (AuthService.httpClient st) (AuthService.net st) resp Hbudget Hans)
      as [Hret H401].
    destruct (after_fetch_facts (AuthService.httpClient st)
                (AuthSpec.login_request p) (AuthService.net st)) as (_ & Hf & _).
    split; [reflexivity|]. split; [reflexivity|]. split; [exact Hf|]. split.
    + intros Hs. unfold AuthService.login. fold used. rewrite Hused, Hp. cbn [negb].
      unfold HttpClient.post. fold (AuthSpec.login_request p).
      now rewrite (H401 Hs).
    + intros a Ha Hno. unfold AuthService.login. fold used. rewrite Hused, Hp.
      cbn [negb]. unfold HttpClient.post. fold (AuthSpec.login_request p).
      rewrite (Hret a Ha).
      destruct (interpret_Return resp a Ha) as (_ & _ & _ & _ & Hok).
      destruct (IApiResponse.success a); [|reflexivity].
      exfalso. apply Hno. now apply Hok.
Qed.

(** X29. A session is never checked again.  No session the service
    stores has a deadline: [getSession] keeps it so, and the session of a
    successful [login] is authenticated and open-ended.  While the service
    holds such a session, however much time passes, [getSession] returns it
    and [ensureAuthenticated] returns, both without a call to the service
    and without a change of state: what the remote service thinks of the
    session is not asked again before [logout]. *)
Theorem session_is_never_checked_again :
  forall (host : AuthHost) (Observers : Type)
         (code : HandlerRef -> AuthService.Payload -> Observers
                 -> Observers * EventEmitter.Run)
         (steps : nat) (st : AuthService.State (Observers := Observers))
         (s : Session.t),
    AuthSpec.holds st s ->
    (forall dt : Z,
        let st' := AuthSpec.later dt st in
        AuthService.getSession st' = (AuthService.Done s, st')
        /\ AuthService.ensureAuthenticated code steps st'
           = Some (AuthService.Done tt, st')
        /\ AuthService.isAuthenticated st' = (true, st'))
    /\ (forall st0 : AuthService.State (Observers := Observers),
          AuthSpec.no_deadline st0 ->
          AuthSpec.no_deadline (snd (AuthService.getSession st0)))
    /\ (forall (st0 : AuthService.State (Observers := Observers)) password result st1,
          AuthService.login code steps password st0
          = Some (AuthService.Done result, st1) ->
          AuthSpec.holds st1 result).
Proof.
  intros host Observers code steps st s Hheld. split; [|split].
  - intros dt st'.
    assert (H' : AuthSpec.holds st' s) by exact Hheld.
    pose proof (getSession_kept st' s H') as G.
    destruct H' as (Hs & Ha & He).
    pose proof (read_open_session st' s Hs He) as R. rewrite Ha in R.
    split; [exact G|]. split; [|exact R].
    unfold AuthService.ensureAuthenticated. now rewrite G, R.
  - intros st0. apply getSession_no_deadline.
  - intros st0 password result st1. unfold AuthService.login.
    destruct (AuthService.passwordToUse password (AuthService.service st0)) as [p|];
      [|discriminate].
    destruct (negb (Js.truthy p)); [discriminate|].
    destruct (HttpClient.post "/api/session" (Some [("password", p)]%string)
                (AuthService.httpClient st0, AuthService.net st0))
      as [[response|e] hn]; [|discriminate].
    destruct (IApiResponse.success response); [|discriminate].
    destruct (EventEmitter.emit code steps EventType.auth_login _ _) as [[o w]|];
      [|discriminate].
    intros [= <- <-]. repeat split.
Qed.

Section AuthWitnesses.
Import (hints) Lobby.

(** A wrong password answered with 401. *)
Lemma login_failures_witness :
option_map fst (AuthService.login Lobby.silent 1 None Lobby.turned_away)
= Some (AuthService.Raised
          (AuthService.Transport Exceptions.UnauthorizedException)).
Proof.
destruct (login_failures Lobby.host unit Lobby.silent 1 None Lobby.turned_away)
  as [_ H].
destruct (H "secret"%string (Sample.bare 401) eq_refl eq_refl) as (_ & _ & _ & H401 & _).
- simpl. lia.
- split; [unfold TransportSpec.in_time; simpl; lia | reflexivity].
- now rewrite (H401 eq_refl).
Defined.

(** A day after the login the session is handed out as it is. *)
Lemma session_is_never_checked_again_witness :
exists s st,
  AuthService.login Lobby.silent 1 None Lobby.welcome
  = Some (AuthService.Done s, st)
  /\ AuthService.getSession (AuthSpec.later 86400000 st)
     = (AuthService.Done s, AuthSpec.later 86400000 st)
  /\ Net.fetched (AuthService.net (AuthSpec.later 86400000 st)) = 1%nat.
Proof.
destruct (AuthService.login Lobby.silent 1 None Lobby.welcome)
  as [[[s|e] st]|] eqn:E; [|vm_compute in E; discriminate E
                           |vm_compute in E; discriminate E].
exists s, st. split; [reflexivity|].
assert (Hheld : AuthSpec.holds st s).
{ vm_compute in E. injection E as <- <-. repeat split. }
destruct (session_is_never_checked_again Lobby.host unit Lobby.silent 1 st s Hheld)
  as (Hkept & _ & _).
split; [apply (Hkept 86400000)|].
vm_compute in E. injection E as _ <-. reflexivity.
Defined.
End AuthWitnesses.
(* ================================================================== *)
(** * Configuration files *)
(* ================================================================== *)

Section TextFacts.
Local Open Scope string_scope.

Lemma endsWith_app (s q : string) : JsText.endsWith (s ++ q) q = true.
Proof.
  induction s as [|c s IH]; simpl.
  - destruct q; simpl; [reflexivity|]. now rewrite Ascii.eqb_refl, String.eqb_refl.
  - rewrite IH. apply orb_true_r.
Qed.

Lemma substring_prefix (a b : string) :
  String.substring 0 (String.length a) (a ++ b) = a.
Proof. induction a as [|c a IH]; simpl; [now destruct b | now rewrite IH]. Qed.

Lemma slice_inner (name : string) :
  JsText.slice ("[" ++ name ++ "]") 1 (-1) = name.
Proof.
  unfold JsText.slice, Js.rel_index. cbv zeta.
  set (len := Z.of_nat (String.length ("[" ++ name ++ "]"))).
  assert (L : len = Z.of_nat (String.length name) + 2).
  { unfold len. simpl. rewrite length_append. simpl. lia. }
  destruct (Z.ltb_spec 1 0); [lia|]. destruct (Z.ltb_spec (-1) 0); [|lia].
  replace (Z.to_nat (Z.min 1 len)) with 1%nat by lia.
  replace (Z.to_nat (Z.max (len + -1) 0 - Z.min 1 len)) with (String.length name)
    by lia.
  simpl. apply substring_prefix.
Qed.

Lemma includes_occurs (c : ascii) (s : string) :
  Js.includes s (String c "") = SurfaceSpec.occurs c s.
Proof.
  induction s as [|x s IH]; simpl; [reflexivity|].
  rewrite IH, andb_true_r. now rewrite Ascii.eqb_sym.
Qed.

Lemma join_split (sep : ascii) (s : string) :
  Js.join (String sep "") (Js.split sep s) = s.
Proof.
  induction s as [|c s IH]; [reflexivity|]. cbn [Js.split].
  destruct (Ascii.eqb_spec c sep) as [->|Hne].
  - destruct (Js.split sep s) as [|p ps] eqn:E; [now apply split_not_nil in E|].
    change (Js.join (String sep "") ("" :: p :: ps))
      with ("" ++ String sep "" ++ Js.join (String sep "") (p :: ps)).
    now rewrite IH.
  - destruct (Js.split sep s) as [|p ps] eqn:E; [now apply split_not_nil in E|].
    destruct ps as [|p' ps].
    + simpl in *. now rewrite IH.
    + change (Js.join (String sep "") (String c p :: p' :: ps))
        with (String c (p ++ String sep "" ++ Js.join (String sep "") (p' :: ps))).
      change (Js.join (String sep "") (p :: p' :: ps))
        with (p ++ String sep "" ++ Js.join (String sep "") (p' :: ps)) in IH.
      now rewrite IH.
Qed.

Lemma header_shaped_bracketed (name : string) :
  FileSpec.header_shaped ("[" ++ name ++ "]") = true.
Proof.
  unfold FileSpec.header_shaped. simpl.
  change (String "[" (name ++ "]")) with (("[" ++ name) ++ "]").
  now rewrite endsWith_app.
Qed.
End TextFacts.

(** X30. How [parseConfigFile] reads.  The text is read line by line,
    the lines being what the line feeds separate.  A line whose trimmed
    form is a name in square brackets opens the section of that name, empty,
    and makes it current: what an earlier section of the name held is gone.
    A line with an equals sign, in a current section, gives the key before
    the first equals sign the whole text after it, equals signs included (a
    key of the base-64 alphabet keeps its padding), both trimmed.  Any other
    line, and every line before the first section or under a section of the
    empty name, changes nothing. *)
Theorem parseConfigFile_reads_lines :
  forall (r : ConfigFile.t) (current line : string),
    (forall content, ConfigService.parseConfigFile content
                     = fst (FileSpec.read (ConfigFile.empty, EmptyString) content))
    /\ (forall rest,
          SurfaceSpec.occurs JsText.LF line = false ->
          FileSpec.read (r, current) (line ++ String JsText.LF rest)
          = FileSpec.read (ConfigService.parse_line (r, current) line) rest)
    /\ (SurfaceSpec.occurs JsText.LF line = false ->
        FileSpec.read (r, current) line = ConfigService.parse_line (r, current) line)
    /\ (forall name,
          Js.trim line = ("[" ++ name ++ "]")%string ->
          ConfigService.parse_line (r, current) line = (ConfigFile.open name r, name)
          /\ (forall key, name <> "__proto__"%string ->
                          ConfigFile.lookup name key (ConfigFile.open name r) = None))
    /\ (forall key value,
          Js.trim line = (key ++ "=" ++ value)%string ->
          SurfaceSpec.occurs "=" key = false ->
          FileSpec.header_shaped (Js.trim line) = false ->
          Js.truthy current = true ->
          ConfigService.parse_line (r, current) line
          = (ConfigFile.assign current (Js.trim key) (Js.trim value) r, current)
          /\ (current <> "__proto__"%string -> Js.trim key <> "__proto__"%string ->
              Js.Map.has current (ConfigFile.sections r) = true ->
              ConfigFile.lookup current (Js.trim key)
                (ConfigFile.assign current (Js.trim key) (Js.trim value) r)
              = Some (Js.trim value)))
    /\ (FileSpec.header_shaped (Js.trim line) = false ->
        SurfaceSpec.occurs "=" (Js.trim line) = false \/ current = EmptyString ->
        ConfigService.parse_line (r, current) line = (r, current)).
Proof.
  intros r current line. split; [reflexivity|].
  split; [|split; [|split; [|split]]].
  - intros rest Hline. unfold FileSpec.read. now rewrite split_at by exact Hline.
  - intros Hline. unfold FileSpec.read. now rewrite split_none by exact Hline.
  - intros name Htrim. split.
    + unfold ConfigService.parse_line. rewrite Htrim.
      pose proof (header_shaped_bracketed name) as Hh.
      unfold FileSpec.header_shaped in Hh. rewrite Hh. now rewrite slice_inner.
    + intros key Hname. unfold ConfigFile.lookup, ConfigFile.open.
      apply String.eqb_neq in Hname. rewrite Hname. cbn [ConfigFile.sections].
      now rewrite Map_get_set_same.
  - intros key value Htrim Hkey Hshape Hcur. split.
    + unfold ConfigService.parse_line. unfold FileSpec.header_shaped in Hshape.
      rewrite Hshape. rewrite Htrim, includes_occurs, occurs_app. simpl.
      rewrite orb_true_r, Hcur. cbn [andb].
      change (key ++ String "=" value)%string with (key ++ String "=" value)%string.
      rewrite split_at by exact Hkey. now rewrite join_split.
    + intros Hcurrent Hk Hhas. unfold ConfigFile.lookup, ConfigFile.assign.
      apply String.eqb_neq in Hcurrent. rewrite Hcurrent.
      unfold Js.Map.has in Hhas.
      destruct (Js.Map.get current (ConfigFile.sections r)) as [o|]; [|discriminate].
      cbn [ConfigFile.sections]. rewrite Map_get_set_same.
      unfold ConfigFile.put. apply String.eqb_neq in Hk. rewrite Hk.
      apply Map_get_set_same.
  - intros Hshape Hor. unfold ConfigService.parse_line.
    unfold FileSpec.header_shaped in Hshape. rewrite Hshape, includes_occurs.
    destruct Hor as [->| ->]; [reflexivity|]. now rewrite andb_false_r.
Qed.

(** The configuration of a peer: the padding of the private key and the
    list of allowed addresses come through. *)
Example scenario_wireguard_file :
  let parsed := ConfigService.parseConfigFile FileSpec.wireguard in
  ConfigFile.lookup "Interface" "PrivateKey" parsed = Some "kEd3/Qw0="%string
  /\ ConfigFile.lookup "Interface" "Address" parsed = Some "10.8.0.2/24"%string
  /\ ConfigFile.lookup "Peer" "AllowedIPs" parsed = Some "0.0.0.0/0, ::/0"%string
  /\ ConfigFile.lookup "Peer" "Endpoint" parsed = Some "vpn.example.org:51820"%string
  /\ ConfigFile.lookup "Peer" "PrivateKey" parsed = None.
Proof. vm_compute. repeat split. Qed.
